(** * emme7-bot: the message queue, the consumer loop and the chatbot guards

    A shallow embedding of
      - [src/repositories/redis/redis_crud.py]   (module [RedisDatabase]),
      - [src/services/redis/redis_services.py]   (module [RedisService]),
      - [consumer.py]                            (module [Consumer]),
      - [src/services/chatbot.py] and the chat message CRUD it calls
                                                 (module [ChatBot]),
    followed by the properties of the design document that concern them.

    Conventions.
      - An instant is an integer number of microseconds since the epoch
        (the resolution of Python's [datetime]); the rounding of the float
        returned by [datetime.timestamp] is outside the model.
      - Python exceptions are the [Raise] results of the [result] type.
      - A Python [dict] is an association list in insertion order.
      - Python's [json] module is not part of the repository: its encoder and
        decoder on message models are the two fields of the class [Json]. *)

From Stdlib Require Import List String Ascii ZArith Bool Lia Permutation Sorted.
Import ListNotations.
Local Open Scope Z_scope.
Local Open Scope list_scope.

(* ===================================================================== *)
(** ** Python runtime: exceptions, dicts, stable sort, [str.strip]        *)
(* ===================================================================== *)

Module Py.

Inductive exn : Type :=
  | ConnectionError
  | AttributeError
  | JSONDecodeError
  | KeyError
  | IndexError
  | ValueError
  | ValidationError
  | OverflowError
  | TaskException.

Inductive result (A : Type) : Type :=
  | Ok (a : A)
  | Raise (e : exn).
Arguments Ok {A} a.
Arguments Raise {A} e.

Definition bind {A B} (c : result A) (k : A -> result B) : result B :=
    match c with
    | Ok a => k a
    | Raise e => Raise e
    end.

Definition is_ok {A} (c : result A) : bool :=
    match c with Ok _ => true | Raise _ => false end.

  (** The value of a computation that did not raise. *)
Definition value {A} (default : A) (c : result A) : A :=
  match c with Ok a => a | Raise _ => default end.

(** [d[k]] on a possibly missing key. *)
Definition subscript {A} (o : option A) : result A :=
    match o with
    | Some a => Ok a
    | None => Raise KeyError
    end.

  (** *** dict *)

Definition dict (V : Type) : Type := list (string * V).

Fixpoint dict_get {V} (k : string) (d : dict V) : option V :=
    match d with
    | [] => None
    | (k', v) :: r => if String.eqb k' k then Some v else dict_get k r
    end.

  (** [k in d] *)
Definition dict_mem {V} (k : string) (d : dict V) : bool :=
    match dict_get k d with Some _ => true | None => false end.

  (** [d[k] = v]: an existing key keeps its position, a new one goes last. *)
Fixpoint dict_set {V} (k : string) (v : V) (d : dict V) : dict V :=
    match d with
    | [] => [(k, v)]
    | (k', v') :: r =>
        if String.eqb k' k then (k, v) :: r else (k', v') :: dict_set k v r
    end.

  (** [d.pop(k)] on the entries; the caller checks presence. *)
Fixpoint dict_del {V} (k : string) (d : dict V) : dict V :=
    match d with
    | [] => []
    | (k', v') :: r =>
        if String.eqb k' k then r else (k', v') :: dict_del k r
    end.

Definition dict_pop {V} (k : string) (d : dict V) : result (dict V) :=
    match dict_get k d with
    | Some _ => Ok (dict_del k d)
    | None => Raise KeyError
    end.

Definition dict_keys {V} (d : dict V) : list string := map fst d.

  (** [len(d)] *)
Definition dict_len {V} (d : dict V) : Z := Z.of_nat (List.length d).

  (** *** Stable sorting

    [stable_sort leb] keeps the order of the elements that [leb] ranks
    equal; [l.sort(key=k)] is [sort_by k l]. *)

Section Sort.
Context {A : Type} (leb : A -> A -> bool).

Fixpoint insert_sorted (x : A) (l : list A) : list A :=
  match l with
  | [] => [x]
  | y :: r => if leb x y then x :: y :: r else y :: insert_sorted x r
  end.

Fixpoint stable_sort (l : list A) : list A :=
  match l with
  | [] => []
  | x :: r => insert_sorted x (stable_sort r)
  end.
End Sort.

Definition sort_by {A} (key : A -> Z) (l : list A) : list A :=
  stable_sort (fun x y => key x <=? key y) l.

(** [l[-1]] *)
Definition last_item {A} (l : list A) : result A :=
    match rev l with
    | x :: _ => Ok x
    | [] => Raise IndexError
    end.

  (** *** [str.strip()]

      Strings are sequences of 8-bit code points; the code points below are
      the ones of that range for which [str.isspace] holds. *)

Definition isspace (c : ascii) : bool :=
    let n := N_of_ascii c in
    ((9 <=? n) && (n <=? 13) || (28 <=? n) && (n <=? 32)
     || (n =? 133) || (n =? 160))%N.

Fixpoint lstrip (s : string) : string :=
    match s with
    | EmptyString => EmptyString
    | String c r => if isspace c then lstrip r else s
    end.

Fixpoint rstrip (s : string) : string :=
    match s with
    | EmptyString => EmptyString
    | String c r =>
        match rstrip r with
        | EmptyString => if isspace c then EmptyString else String c EmptyString
        | r' => String c r'
        end
    end.

Definition strip (s : string) : string := rstrip (lstrip s).

  (** [x or ""] on an optional string *)
Definition or_empty (o : option string) : string :=
    match o with Some s => s | None => EmptyString end.

End Py.
Import Py.

Notation "x <- c ;; k" := (Py.bind c (fun x => k))
  (at level 61, c at next level, right associativity).
Notation "c ;;; k" := (Py.bind c (fun _ => k))
  (at level 61, right associativity).

(** One second, in the unit of instants. *)
Definition seconds (n : Z) : Z := n * 1000000.
Arguments seconds : simpl never.

(* ===================================================================== *)
(** ** [src/models/user_models.py]                                        *)
(* ===================================================================== *)

Record InternalMessageModel : Type := {
  phone : string;
  store_phone : string;
  last_interacted_at : string;
  content : option string;
  content_link : option string;
  type_ : string;
  who_sent : string;
  pending_message : option string;
  additional_info : option string;   (* an opaque dictionary, passed through *)
  send_to_wpp : bool;
  use_llm : bool
}.

(** [json.dumps(m.model_dump())] and
    [InternalMessageModel( **json.loads(raw.decode("utf-8")))]; the decoder
    yields [None] where the Python expression raises. *)
Class Json : Type := {
  json_dumps : InternalMessageModel -> string;
  json_loads : string -> option InternalMessageModel
}.

(* ===================================================================== *)
(** ** The Redis server behind [redis.Redis]                              *)
(* ===================================================================== *)

Module Redis.

  (** A sorted set: members are unique, entries are kept in ascending order
      of score, members of equal score in byte order. *)
Definition zset : Type := list (string * Z).

Definition entry_leb (a b : string * Z) : bool :=
    (snd a <? snd b) || ((snd a =? snd b) && String.leb (fst a) (fst b)).

Fixpoint zinsert (e : string * Z) (z : zset) : zset :=
    match z with
    | [] => [e]
    | e' :: r => if entry_leb e e' then e :: e' :: r else e' :: zinsert e r
    end.

  (** ZREM key member *)
Definition zrem (member : string) (z : zset) : zset :=
    filter (fun e => negb (String.eqb (fst e) member)) z.

  (** ZADD key score member (no flags): a present member gets the new score. *)
Definition zadd (member : string) (score : Z) (z : zset) : zset :=
    zinsert (member, score) (zrem member z).

  (** The server as a client sees it: reachable or not, and the sorted set
      stored under the key ["webhook"]. *)
Record server : Type := {
    online : bool;
    webhook : zset
  }.

Definition with_webhook (srv : server) (z : zset) : server :=
    {| online := online srv; webhook := z |}.

  (** The client object built by [redis.Redis(...)]. *)
Record client : Type := {
    host : string;
    port : Z;
    ssl : bool
  }.

  (** A command needs the connection; without it the client raises. *)
Definition command {A} (srv : server) (run : server -> A) : result A :=
    if online srv then Ok (run srv) else Raise ConnectionError.

End Redis.

(* ===================================================================== *)
(** ** [src/repositories/redis/redis_crud.py]                             *)
(* ===================================================================== *)

Module RedisDatabase.

  (** The object after [__init__]: the attribute [handler] may be unset. *)
Record t : Type := { handler : option Redis.client }.

  (** [__init__]: [made] is the outcome of the call [redis.Redis(...)].
      The [except Exception] branch logs and returns normally. *)
Definition __init__ (made : result Redis.client) : result t :=
    match made with
    | Ok h => Ok {| handler := Some h |}
    | Raise _ => Ok {| handler := None |}
    end.

  (** [self.handler] *)
Definition get_handler (self : t) : result Redis.client :=
    match handler self with
    | Some h => Ok h
    | None => Raise AttributeError
    end.

Section WithJson.
Context `{Json}.

Definition save (self : t) (srv : Redis.server)
               (data : InternalMessageModel) (datetime_now : Z)
      : result Redis.server :=
      _ <- get_handler self ;;
      Redis.command srv (fun s =>
        Redis.with_webhook s (Redis.zadd (json_dumps data) datetime_now (Redis.webhook s))).

Definition retrieve_messages (self : t) (srv : Redis.server)
      : result (list (string * Z)) :=
      _ <- get_handler self ;;
      Redis.command srv Redis.webhook.

Definition delete_message (self : t) (srv : Redis.server)
               (message : InternalMessageModel) : result Redis.server :=
      _ <- get_handler self ;;
      Redis.command srv (fun s =>
        Redis.with_webhook s (Redis.zrem (json_dumps message) (Redis.webhook s))).
End WithJson.

End RedisDatabase.

(* ===================================================================== *)
(** ** [src/services/redis/redis_services.py]                             *)
(* ===================================================================== *)

Module RedisService.

Record t : Type := { redis_repository : RedisDatabase.t }.

  (** The nested dict built by [group_messages]:
      store_phone -> phone -> list of (message, score). *)
Definition grouped : Type :=
    dict (dict (list (InternalMessageModel * Z))).

Section WithJson.
Context `{Json}.

    (** [datetime_now] is the reading of the clock inside [save]. *)
Definition save (self : t) (srv : Redis.server)
               (data : InternalMessageModel) (datetime_now : Z)
      : result Redis.server :=
      RedisDatabase.save (redis_repository self) srv data datetime_now.

Definition retrieve_messages (self : t) (srv : Redis.server)
      : result (list (string * Z)) :=
      RedisDatabase.retrieve_messages (redis_repository self) srv.

Fixpoint delete_messages (self : t) (srv : Redis.server)
             (messages : list InternalMessageModel) : result Redis.server :=
      match messages with
      | [] => Ok srv
      | message :: rest =>
          srv' <- RedisDatabase.delete_message (redis_repository self) srv message ;;
          delete_messages self srv' rest
      end.

    (** [grouped[a][b].append(x)] on the two levels of [defaultdict]. *)
Definition grouped_append (g : grouped) (a b : string)
               (x : InternalMessageModel * Z) : grouped :=
      let inner := match dict_get a g with Some i => i | None => [] end in
      let l := match dict_get b inner with Some l => l | None => [] end in
      dict_set a (dict_set b (l ++ [x]) inner) g.

Fixpoint group_messages_from (g : grouped) (messages : list (string * Z))
      : result grouped :=
      match messages with
      | [] => Ok g
      | (raw_bytes, redis_unixtimestamp) :: rest =>
          match json_loads raw_bytes with
          | None => Raise JSONDecodeError
          | Some item =>
              group_messages_from
                (grouped_append g (store_phone item) (phone item)
                                (item, redis_unixtimestamp))
                rest
          end
      end.

Definition group_messages (messages : list (string * Z)) : result grouped :=
      group_messages_from [] messages.

    (** The inner loop of [filter_messages], over one store's phones. *)
Fixpoint filter_phones (messages_by_phone : dict (list (InternalMessageModel * Z)))
             (cut : Z) (filtered_messages : list InternalMessageModel)
      : result (list InternalMessageModel) :=
      match messages_by_phone with
      | [] => Ok filtered_messages
      | (_, messages) :: rest =>
          let messages := sort_by snd messages in
          newest <- last_item messages ;;
          filter_phones rest cut
            (if snd newest <? cut
             then filtered_messages ++ map fst messages
             else filtered_messages)
      end.

Fixpoint filter_stores (grouped_messages : grouped) (cut : Z)
             (filtered_messages : list InternalMessageModel)
      : result (list InternalMessageModel) :=
      match grouped_messages with
      | [] => Ok filtered_messages
      | (_, messages_by_phone) :: rest =>
          acc <- filter_phones messages_by_phone cut filtered_messages ;;
          filter_stores rest cut acc
      end.

Definition filter_messages (grouped_messages : grouped) (cut : Z)
      : result (list InternalMessageModel) :=
      filter_stores grouped_messages cut [].

    (** [now] is the reading of the clock inside [time_search].  The
        threshold is computed on unbounded integers: the [OverflowError]
        of [datetime.now(...) - timedelta(...)] outside the years 1 to
        9999 is not part of this model. *)
Definition time_search (self : t) (srv : Redis.server) (now : Z)
               (time_threshold_seconds : Z)
      : result (list InternalMessageModel) :=
      messages <- retrieve_messages self srv ;;
      grouped_messages <- group_messages messages ;;
      let cut := now - seconds time_threshold_seconds in
      filter_messages grouped_messages cut.
End WithJson.

End RedisService.

(* ===================================================================== *)
(** ** [consumer.py]                                                      *)
(* ===================================================================== *)

Module Consumer.

(** What a worker thread ends with: the boolean returned by
    [process_message_and_send_to_client], or an exception. *)
Inductive outcome : Type :=
| Returned (b : bool)
| Raised.

Inductive future_state : Type :=
| Running
| Finished (o : outcome).

(** One call of [pool.submit]: the batch handed to the worker and the state
    of the [Future] it returned.  [w_key] and [w_tracked] are ghost fields:
    the composite key the future was stored under, and whether that key was
    in [tasks] when the call was made. *)
Record work_item : Type := {
  w_key : string;
  w_tracked : bool;
  w_messages : list InternalMessageModel;
  w_state : future_state
}.

(** The local variables of [processer] that survive a cycle.  [pool] lists
    every submission so far; a [Future] is the index of its work item. *)
Record state : Type := {
  pool : list work_item;
  tasks : dict nat;
  tries : dict Z;
  messages_dict : dict (list InternalMessageModel)
}.

Definition initial : state :=
  {| pool := []; tasks := []; tries := []; messages_dict := [] |}.

Definition set_pool (st : state) (p : list work_item) : state :=
  {| pool := p; tasks := tasks st; tries := tries st;
     messages_dict := messages_dict st |}.

Definition set_tries (st : state) (t : dict Z) : state :=
  {| pool := pool st; tasks := tasks st; tries := t;
     messages_dict := messages_dict st |}.

Definition set_messages_dict (st : state)
           (m : dict (list InternalMessageModel)) : state :=
  {| pool := pool st; tasks := tasks st; tries := tries st;
     messages_dict := m |}.

(** [f"{phone}_{store_phone}"] *)
Definition composite_key_of (message : InternalMessageModel) : string :=
  (phone message ++ "_" ++ store_phone message)%string.

(** Lines 116-136: the loop over the messages found by [time_search]. *)
Fixpoint collect (tasks : dict nat) (messages : list InternalMessageModel)
         (key_list : list string) (key_filter : dict bool)
         (messages_dict : dict (list InternalMessageModel))
  : list string * dict (list InternalMessageModel) :=
  match messages with
  | [] => (key_list, messages_dict)
  | message :: rest =>
      let composite_key := composite_key_of message in
      if dict_mem composite_key tasks then
        collect tasks rest key_list key_filter messages_dict
      else
        let fresh := negb (dict_mem composite_key key_filter) in
        let key_list := if fresh then key_list ++ [composite_key] else key_list in
        let key_filter :=
          if fresh then dict_set composite_key true key_filter else key_filter in
        let batch :=
          match dict_get composite_key messages_dict with
          | Some l => l
          | None => []
          end in
        collect tasks rest key_list key_filter
                (dict_set composite_key (batch ++ [message]) messages_dict)
  end.

(** Lines 139-147: [while key_list and len(tasks) < workers]. *)
Fixpoint submit_keys (workers : Z) (key_list : list string) (st : state)
  : result state :=
  match key_list with
  | [] => Ok st
  | composite_key :: rest =>
      if dict_len (tasks st) <? workers then
        batch <- subscript (dict_get composite_key (messages_dict st)) ;;
        let item := {| w_key := composite_key;
                       w_tracked := dict_mem composite_key (tasks st);
                       w_messages := batch;
                       w_state := Running |} in
        submit_keys workers rest
              {| pool := pool st ++ [item];
                 tasks := dict_set composite_key (List.length (pool st)) (tasks st);
                 tries := tries st;
                 messages_dict := messages_dict st |}
      else Ok st
  end.

(** The worker threads between two looks at the futures: [completes i] is
    the outcome the running future [i] has reached by the time the loop
    calls [done()] on it, if any.  A finished future never changes. *)
Fixpoint advance_from (i : nat) (completes : nat -> option outcome)
         (p : list work_item) : list work_item :=
  match p with
  | [] => []
  | w :: r =>
      (match w_state w, completes i with
       | Running, Some o =>
           {| w_key := w_key w; w_tracked := w_tracked w;
              w_messages := w_messages w; w_state := Finished o |}
       | _, _ => w
       end) :: advance_from (S i) completes r
  end.

Definition advance (completes : nat -> option outcome) (st : state) : state :=
  set_pool st (advance_from 0 completes (pool st)).

(** Lines 150-184: the loop over [list(tasks.keys())]. *)
Fixpoint reap (keys : list string) (st : state) (done_tasks : list string)
  : result (state * list string) :=
  match keys with
  | [] => Ok (st, done_tasks)
  | composite_key :: rest =>
      fut <- subscript (dict_get composite_key (tasks st)) ;;
      item <- subscript (nth_error (pool st) fut) ;;
      match w_state item with
      | Running => reap rest st done_tasks
      | Finished Raised => Raise TaskException
      | Finished (Returned true) =>
          reap rest
               (if dict_mem composite_key (tries st)
                then set_tries st (dict_set composite_key 4 (tries st))
                else st)
               (done_tasks ++ [composite_key])
      | Finished (Returned false) =>
          let tries0 :=
            if dict_mem composite_key (tries st) then tries st
            else dict_set composite_key 0 (tries st) in
          n <- subscript (dict_get composite_key tries0) ;;
          reap rest (set_tries st (dict_set composite_key (n + 1) tries0))
               done_tasks
      end
  end.

Section WithJson.
Context `{Json}.

(** Lines 187-191: the loop over [done_tasks]. *)
Fixpoint remove_done (database : RedisService.t) (done_tasks : list string)
         (st : state) (srv : Redis.server) : result (state * Redis.server) :=
  match done_tasks with
  | [] => Ok (st, srv)
  | composite_key :: rest =>
      tasks' <- dict_pop composite_key (tasks st) ;;
      batch <- subscript (dict_get composite_key (messages_dict st)) ;;
      srv' <- RedisService.delete_messages database srv batch ;;
      remove_done database rest
                  {| pool := pool st; tasks := tasks'; tries := tries st;
                     messages_dict := dict_del composite_key (messages_dict st) |}
                  srv'
  end.

(** Lines 194-203: the loop over [list(tries.keys())]. *)
Fixpoint evict (database : RedisService.t) (keys : list string)
         (st : state) (srv : Redis.server) : result (state * Redis.server) :=
  match keys with
  | [] => Ok (st, srv)
  | composite_key :: rest =>
      n <- subscript (dict_get composite_key (tries st)) ;;
      if 3 <? n then
        batch <- subscript (dict_get composite_key (messages_dict st)) ;;
        srv' <- RedisService.delete_messages database srv batch ;;
        tries' <- dict_pop composite_key (tries st) ;;
        messages_dict' <- dict_pop composite_key (messages_dict st) ;;
        tasks' <- dict_pop composite_key (tasks st) ;;
        evict database rest
              {| pool := pool st; tasks := tasks'; tries := tries';
                 messages_dict := messages_dict' |}
              srv'
      else evict database rest st srv
  end.

(** What the outside world does around one turn of the loop: the clock read
    by [time_search], the messages the webhook saved since the previous
    scan (each with the clock reading of its [save]), whether the server
    answers, and the progress of the worker threads. *)
Record tick : Type := {
  t_now : Z;
  t_arrivals : list (InternalMessageModel * Z);
  t_online : bool;
  t_completes : nat -> option outcome
}.

(** The webhook's [redis_service.save] calls, straight on the sorted set. *)
Fixpoint produce (arrivals : list (InternalMessageModel * Z)) (z : Redis.zset)
  : Redis.zset :=
  match arrivals with
  | [] => z
  | (data, datetime_now) :: rest =>
      produce rest (Redis.zadd (json_dumps data) datetime_now z)
  end.

Definition environment (tk : tick) (srv : Redis.server) : Redis.server :=
  {| Redis.online := t_online tk;
     Redis.webhook := produce (t_arrivals tk) (Redis.webhook srv) |}.

(** Lines 111-147: the messages of the scan are buffered under their keys
    and the keys are handed to the pool while it has room. *)
Definition buffer_and_submit (workers : Z)
           (messages : list InternalMessageModel) (st : state) : result state :=
  let '(key_list, buffered) :=
    collect (tasks st) messages [] [] (messages_dict st) in
  submit_keys workers key_list (set_messages_dict st buffered).

(** The body of the loop after the scan. *)
Definition dispatch (workers : Z) (database : RedisService.t)
           (completes : nat -> option outcome)
           (messages : list InternalMessageModel)
           (st : state) (srv : Redis.server) : result (state * Redis.server) :=
  st1 <- buffer_and_submit workers messages st ;;
  r <- reap (dict_keys (tasks st1)) (advance completes st1) [] ;;
  r' <- remove_done database (snd r) (fst r) srv ;;
  evict database (dict_keys (tries (fst r'))) (fst r') (snd r').

(** One turn of [while True]. *)
Definition cycle (workers consumer_redis_time : Z) (database : RedisService.t)
           (tk : tick) (st : state) (srv : Redis.server)
  : result (state * Redis.server) :=
  let srv := environment tk srv in
  messages <- RedisService.time_search database srv (t_now tk) consumer_redis_time ;;
  dispatch workers database (t_completes tk) messages st srv.

Fixpoint cycles (workers consumer_redis_time : Z) (database : RedisService.t)
         (ticks : list tick) (st : state) (srv : Redis.server)
  : result (state * Redis.server) :=
  match ticks with
  | [] => Ok (st, srv)
  | tk :: rest =>
      r <- cycle workers consumer_redis_time database tk st srv ;;
      cycles workers consumer_redis_time database rest (fst r) (snd r)
  end.

(** [processer(workers)], cut after finitely many turns of its loop.
    [made] is the outcome of [redis.Redis(...)] and [srv] the server the
    loop starts against.  The pool refuses a number of workers that is
    not positive with [ValueError]. *)
Definition processer (workers consumer_redis_time : Z)
           (made : result Redis.client) (srv : Redis.server)
           (ticks : list tick) : result (state * Redis.server) :=
  repository <- RedisDatabase.__init__ made ;;
  let database := {| RedisService.redis_repository := repository |} in
  (* [ThreadPoolExecutor(max_workers=workers)] *)
  if workers <=? 0 then Raise ValueError
  else cycles workers consumer_redis_time database ticks initial srv.

End WithJson.

End Consumer.

(* ===================================================================== *)
(** ** [src/services/chatbot.py] and the tables it reads and writes       *)
(* ===================================================================== *)

Module ChatBot.

(** A row of [chats_messages] ([ChatsMessages]). *)
Record ChatsMessages : Type := {
  cm_id : Z;
  cm_chat_id : Z;
  cm_content : option string;
  cm_content_link : option string;
  cm_type : string;
  cm_sent_at : option Z;
  cm_who_sent : string
}.

(** A row of [chats] ([Chats]). *)
Record Chats : Type := {
  c_id : Z;
  c_phone : string;
  c_store_phone : string;
  c_last_interacted_at : Z
}.

(** The database behind a [Session].  [nulls_first] is the dialect's place
    for NULL in a descending order. *)
Record Session : Type := {
  chats : list Chats;
  chats_messages : list ChatsMessages;
  nulls_first : bool
}.

(** [ORDER BY sent_at DESC]: does [a] come no later than [b]? *)
Definition desc_leb (nulls_first : bool) (a b : ChatsMessages) : bool :=
  match cm_sent_at a, cm_sent_at b with
  | Some x, Some y => y <=? x
  | None, None => true
  | None, Some _ => nulls_first
  | Some _, None => negb nulls_first
  end.

(** [CRUDChatsMessages.get_last_message_by_chat_id_and_sender] *)
Definition get_last_message_by_chat_id_and_sender
           (db : Session) (chat_id : Z) (who_sent : string)
  : option ChatsMessages :=
  hd_error
    (stable_sort (desc_leb (nulls_first db))
       (filter (fun r => (cm_chat_id r =? chat_id)
                         && String.eqb (cm_who_sent r) who_sent)
               (chats_messages db))).

(** [ChatMessageService.get_last_message_from_sender] *)
Definition get_last_message_from_sender
           (db : Session) (chat_id : Z) (who_sent : string)
  : option ChatsMessages :=
  get_last_message_by_chat_id_and_sender db chat_id who_sent.

(** [CRUDChatsMessages.get_by_chat_id] *)
Definition get_by_chat_id (db : Session) (chat_id : Z) (number_of_messages : nat)
  : list ChatsMessages :=
  rev (firstn number_of_messages
         (stable_sort (desc_leb (nulls_first db))
            (filter (fun r => cm_chat_id r =? chat_id) (chats_messages db)))).

(** [CRUDChatsMessages.message_exists] *)
Definition message_exists (db : Session) (chat_id : Z) (sent_at : Z)
           (who_sent : string) : bool :=
  existsb (fun r => (cm_chat_id r =? chat_id)
                    && (match cm_sent_at r with
                        | Some t => t =? sent_at
                        | None => false
                        end)
                    && String.eqb (cm_who_sent r) who_sent)
          (chats_messages db).

(** The next value of an autoincrement primary key. *)
Definition next_id (ids : list Z) : Z := 1 + fold_right Z.max 0 ids.

(** The string constraints of [ChatsMessagesBase]: [type] holds at most 8
    characters and [who_sent] at most 3. *)
Definition ChatsMessagesCreate_ok (_type who_sent : string) : bool :=
  (String.length _type <=? 8)%nat && (String.length who_sent <=? 3)%nat.

(** [ChatMessageService.create]: [None] when the row already exists;
    otherwise [ChatsMessagesCreate(...)] is built, which raises when a
    constraint fails, and the row is inserted. *)
Definition create (db : Session) (chat_id : Z) (content : string)
           (content_link : option string) (_type : string) (sent_at : Z)
           (who_sent : string) : result (Session * option ChatsMessages) :=
  if message_exists db chat_id sent_at who_sent then Ok (db, None)
  else if ChatsMessagesCreate_ok _type who_sent then
    let row := {| cm_id := next_id (map cm_id (chats_messages db));
                  cm_chat_id := chat_id;
                  cm_content := Some content;
                  cm_content_link := content_link;
                  cm_type := _type;
                  cm_sent_at := Some sent_at;
                  cm_who_sent := who_sent |} in
    Ok ({| chats := chats db;
           chats_messages := chats_messages db ++ [row];
           nulls_first := nulls_first db |}, Some row)
  else Raise ValidationError.

(** [ChatsService.upsert] through [CRUDChat.upsert]: the chat's id. *)
Definition upsert (db : Session) (phone store_phone : string)
           (last_interacted_at : Z) : Session * Z :=
  let same c := String.eqb (c_phone c) phone
                && String.eqb (c_store_phone c) store_phone in
  match find same (chats db) with
  | Some chat =>
      ({| chats :=
            map (fun c => if c_id c =? c_id chat
                          then {| c_id := c_id c; c_phone := c_phone c;
                                  c_store_phone := c_store_phone c;
                                  c_last_interacted_at := last_interacted_at |}
                          else c) (chats db);
          chats_messages := chats_messages db;
          nulls_first := nulls_first db |}, c_id chat)
  | None =>
      let chat := {| c_id := next_id (map c_id (chats db));
                     c_phone := phone; c_store_phone := store_phone;
                     c_last_interacted_at := last_interacted_at |} in
      ({| chats := chats db ++ [chat];
          chats_messages := chats_messages db;
          nulls_first := nulls_first db |}, c_id chat)
  end.

(** The collaborators outside the repository's own logic: the two parsing
    attempts of [_as_datetime] ([datetime.fromisoformat], then
    [datetime.fromtimestamp(float(value))]), and [ChatBotGraph.run] with
    the context assembled for it.  A parsing attempt that fails with
    [ValueError] or [TypeError] is caught by [_as_datetime]: when both
    fail so, the outcome is [Ok None].  [datetime.fromtimestamp] also
    raises [OverflowError], which nothing catches: the outcome is then
    [Raise OverflowError]. *)
Class Collaborators : Type := {
  parse_timestamp : string -> result (option Z);
  chatbot_graph_run :
    list InternalMessageModel -> list ChatsMessages -> string
}.

(** [HUMAN_COOLDOWN = timedelta(minutes=5)] *)
Definition HUMAN_COOLDOWN : Z := seconds 300.

(** What [run] returns. *)
Inductive response : Type :=
| TestMessage          (* "Mensagem de teste. Opção por não usar LLM." *)
| HumanAdvisory        (* "Atendimento humano em andamento. A LLM ficará
                          pausada por 5 minutos após a última resposta humana." *)
| LlmMessage (llm_message : string).

(** The calls [run] makes to its collaborators, in order. *)
Inductive effect : Type :=
| GraphRun (data : list InternalMessageModel) (chat_messages : list ChatsMessages)
| SendMessage (phone message : string).

Section WithCollaborators.
Context `{Collaborators}.

(** [_as_datetime] on the string of a message.  [clock n] is the [n]-th
    reading of [datetime.now] in the current call of [run]; the result
    carries the number of readings taken so far. *)
Definition _as_datetime (clock : nat -> Z) (n : nat) (value : string)
  : result (Z * nat) :=
  parsed <- parse_timestamp value ;;
  match parsed with
  | Some t => Ok (t, n)
  | None => Ok (clock n, S n)
  end.

Definition _should_store_message (db : Session) (chat_id : Z)
           (message : InternalMessageModel) (sent_at : Z) : bool :=
  if negb (String.eqb (who_sent message) "hum") then true
  else
    match get_last_message_from_sender db chat_id "llm" with
    | None => true
    | Some last_llm =>
        match cm_sent_at last_llm with
        | None => true
        | Some last_llm_dt =>
            if (Z.abs (sent_at - last_llm_dt) <=? seconds 20)
               && String.eqb (strip (or_empty (cm_content last_llm)))
                             (strip (or_empty (content message)))
            then false
            else true
        end
    end.

Definition _is_human_cooldown_active (db : Session) (chat_id : Z)
           (reference_time : Z) (last_sender : string) : bool :=
  if String.eqb last_sender "hum" then true
  else
    match get_last_message_from_sender db chat_id "hum" with
    | None => false
    | Some last_human =>
        match cm_sent_at last_human with
        | None => false
        | Some last_human_dt =>
            let reference_time :=
              if reference_time <? last_human_dt then last_human_dt
              else reference_time in
            reference_time - last_human_dt <=? HUMAN_COOLDOWN
        end
    end.

(** Lines 65-81 of [run]: the loop that stores the batch.  Nothing in it
    catches an exception. *)
Fixpoint store_messages (clock : nat -> Z) (n : nat) (db : Session)
         (chat_id : Z) (data : list InternalMessageModel)
  : result (Session * nat) :=
  match data with
  | [] => Ok (db, n)
  | message :: rest =>
      stamp <- _as_datetime clock n (last_interacted_at message) ;;
      let '(sent_at, n) := stamp in
      if negb (_should_store_message db chat_id message sent_at) then
        store_messages clock n db chat_id rest
      else
        created <-
          create db chat_id (or_empty (content message)) (content_link message)
                 (type_ message) sent_at (who_sent message) ;;
        store_messages clock n (fst created) chat_id rest
  end.

Record run_result : Type := {
  r_response : response;
  r_db : Session;
  r_effects : list effect
}.

Definition run (clock : nat -> Z) (db : Session)
           (data : list InternalMessageModel) : result run_result :=
  match rev data with
  | [] => Raise ValueError
  | last_message :: _ =>
      stamp <- _as_datetime clock 0 (last_interacted_at last_message) ;;
      let '(t0, n) := stamp in
      let '(db, chat_id) :=
        upsert db (phone last_message) (store_phone last_message) t0 in
      stored <- store_messages clock n db chat_id data ;;
      let '(db, n) := stored in
      stamp <- _as_datetime clock n (last_interacted_at last_message) ;;
      let '(last_message_dt, n) := stamp in
      if negb (use_llm last_message) then
        Ok {| r_response := TestMessage; r_db := db; r_effects := [] |}
      else if _is_human_cooldown_active db chat_id last_message_dt
                                        (who_sent last_message) then
        Ok {| r_response := HumanAdvisory; r_db := db; r_effects := [] |}
      else
        let chat_messages := get_by_chat_id db chat_id 10 in
        let llm_message := chatbot_graph_run data chat_messages in
        let sent :=
          if send_to_wpp last_message
          then [SendMessage (phone last_message) llm_message] else [] in
        (* try: create(...) except Exception: print(...) *)
        let db :=
          match create db chat_id llm_message None "text" (clock n) "llm" with
          | Ok created => fst created
          | Raise _ => db
          end in
        Ok {| r_response := LlmMessage llm_message; r_db := db;
              r_effects := GraphRun data chat_messages :: sent |}
  end.

End WithCollaborators.

End ChatBot.

(* ===================================================================== *)
(** ** A concrete codec and sample data, to run the model                 *)
(* ===================================================================== *)

Module Demo.

Local Open Scope string_scope.

(** A line-oriented stand-in for the JSON text of a message: the eleven
    fields separated by a vertical bar.  It is a codec in its own right on
    fields that hold no bar; nothing below depends on its format. *)
Definition opt_field (o : option string) : string :=
  match o with
  | None => "~"
  | Some s => "=" ++ s
  end.

Definition bool_field (b : bool) : string := if b then "T" else "F".

Fixpoint join (l : list string) : string :=
  match l with
  | [] => ""
  | [x] => x
  | x :: r => x ++ "|" ++ join r
  end.

Fixpoint split (s : string) : list string :=
  match s with
  | EmptyString => [EmptyString]
  | String c r =>
      if Ascii.eqb c "|" then EmptyString :: split r
      else match split r with
           | [] => [String c EmptyString]
           | x :: xs => String c x :: xs
           end
  end.

Definition read_opt (s : string) : option (option string) :=
  match s with
  | String "~" EmptyString => Some None
  | String "=" r => Some (Some r)
  | _ => None
  end.

Definition read_bool (s : string) : option bool :=
  match s with
  | String "T" EmptyString => Some true
  | String "F" EmptyString => Some false
  | _ => None
  end.

Definition dumps (m : InternalMessageModel) : string :=
  join [phone m; store_phone m; last_interacted_at m;
        opt_field (content m); opt_field (content_link m); type_ m;
        who_sent m; opt_field (pending_message m);
        opt_field (additional_info m);
        bool_field (send_to_wpp m); bool_field (use_llm m)].

Definition loads (s : string) : option InternalMessageModel :=
  match split s with
  | [a; b; c; d; e; f; g; h; i; j; k] =>
      match read_opt d, read_opt e, read_opt h, read_opt i,
            read_bool j, read_bool k with
      | Some d, Some e, Some h, Some i, Some j, Some k =>
          Some {| phone := a; store_phone := b; last_interacted_at := c;
                  content := d; content_link := e; type_ := f;
                  who_sent := g; pending_message := h;
                  additional_info := i; send_to_wpp := j; use_llm := k |}
      | _, _, _, _, _, _ => None
      end
  | _ => None
  end.

Definition codec : Json := {| json_dumps := dumps; json_loads := loads |}.

(** A text message as the Evolution webhook maps it. *)
Definition text_message (phone store_phone text who : string)
  : InternalMessageModel :=
  {| phone := phone; store_phone := store_phone;
     last_interacted_at := "2025-06-04T20:48:42+00:00";
     content := Some text; content_link := None; type_ := "text";
     who_sent := who; pending_message := Some "llm";
     additional_info := None; send_to_wpp := true; use_llm := true |}.

Definition store : string := "553198765432".
Definition alice : string := "553112345678".
Definition bob : string := "553187654321".

Definition A : InternalMessageModel := text_message alice store "Oi!" "usr".
Definition A' : InternalMessageModel := text_message alice store "Tudo bem?" "usr".
Definition B : InternalMessageModel := text_message bob store "Boa tarde" "usr".

Definition client : Redis.client :=
  {| Redis.host := "redis"; Redis.port := 6379; Redis.ssl := false |}.

Definition up (z : Redis.zset) : Redis.server :=
  {| Redis.online := true; Redis.webhook := z |}.

Definition down (z : Redis.zset) : Redis.server :=
  {| Redis.online := false; Redis.webhook := z |}.

Definition repository : RedisDatabase.t :=
  {| RedisDatabase.handler := Some client |}.

Definition database : RedisService.t :=
  {| RedisService.redis_repository := repository |}.

(** A turn of the loop at clock reading [now] seconds, with the server up. *)
Definition turn (now : Z) (arrivals : list (InternalMessageModel * Z))
           (completes : nat -> option Consumer.outcome) : Consumer.tick :=
  {| Consumer.t_now := seconds now;
     Consumer.t_arrivals := arrivals;
     Consumer.t_online := true;
     Consumer.t_completes := completes |}.

Definition nothing : nat -> option Consumer.outcome := fun _ => None.

(** Future [i] ends with the return value [b]. *)
Definition ends (i : nat) (b : bool) : nat -> option Consumer.outcome :=
  fun j => if Nat.eqb i j then Some (Consumer.Returned b) else None.

(** The loop with ten workers and a window of 60 seconds, started on an
    empty queue, after the given turns. *)
Definition loop (workers : Z) (ticks : list Consumer.tick)
  : result (Consumer.state * Redis.server) :=
  @Consumer.processer codec workers 60 (Ok client) (up []) ticks.

Definition after (workers : Z) (ticks : list Consumer.tick)
  : Consumer.state * Redis.server :=
  value (Consumer.initial, up []) (loop workers ticks).

(** Alice writes at second 0; her worker fails during the first turn. *)
Definition failing_turns : list Consumer.tick :=
  [turn 100 [(A, seconds 0)] (ends 0 false);
   turn 102 [] nothing; turn 104 [] nothing; turn 106 [] nothing].

(** The same, with a second message of Alice arriving before the second
    turn. *)
Definition failing_turns_with_late_message : list Consumer.tick :=
  [turn 100 [(A, seconds 0)] (ends 0 false);
   turn 102 [(A', seconds 101)] nothing;
   turn 104 [] nothing; turn 106 [] nothing].

(** One worker, two conversations: Bob waits while Alice is served. *)
Definition crowded_turns : list Consumer.tick :=
  [turn 100 [(A, seconds 0); (B, seconds 1)] nothing;
   turn 102 [] (ends 0 true);
   turn 104 [] nothing].

(** Alice's worker succeeds during the first turn. *)
Definition happy_turn : Consumer.tick :=
  turn 100 [(A, seconds 0)] (ends 0 true).

(** Collaborators for runs of the chatbot: a timestamp is a string of
    decimal digits, read as seconds since the epoch (the [float] branch of
    [_as_datetime]); any other string but ["inf"] makes both parsing
    attempts fail; the graph answers with a fixed text. *)
Fixpoint read_digits (acc : Z) (s : string) : option Z :=
  match s with
  | EmptyString => Some acc
  | String c r =>
      let n := Z.of_N (N_of_ascii c) in
      if ((48 <=? n) && (n <=? 57))%Z then read_digits (10 * acc + (n - 48)) r
      else None
  end.

Definition read_seconds (s : string) : option Z :=
  match s with
  | EmptyString => None
  | _ => option_map seconds (read_digits 0 s)
  end.

(** [float("inf")] is a float that [datetime.fromtimestamp] refuses with
    [OverflowError]. *)
Definition read_timestamp (s : string) : result (option Z) :=
  if String.eqb s "inf" then Raise OverflowError else Ok (read_seconds s).

Definition collaborators : ChatBot.Collaborators :=
  {| ChatBot.parse_timestamp := read_timestamp;
     ChatBot.chatbot_graph_run := fun _ _ => "Posso ajudar?" |}.

(** A message of Alice's chat stamped [at_] (seconds), and a stored row. *)
Definition stamped (at_ text who : string) : InternalMessageModel :=
  {| phone := alice; store_phone := store; last_interacted_at := at_;
     content := Some text; content_link := None; type_ := "text";
     who_sent := who; pending_message := Some "llm";
     additional_info := None; send_to_wpp := true; use_llm := true |}.

(** A message of the store's operator as the Evolution webhook maps it:
    tagged ["hum"], with the LLM and the WhatsApp reply switched off. *)
Definition from_operator (at_ text : string) : InternalMessageModel :=
  {| phone := alice; store_phone := store; last_interacted_at := at_;
     content := Some text; content_link := None; type_ := "text";
     who_sent := "hum"; pending_message := Some "usr";
     additional_info := None; send_to_wpp := false; use_llm := false |}.

(** A message of a kind the webhook mapping has no case for: it carries no
    content and its type is the raw message type. *)
Definition of_kind (at_ kind : string) : InternalMessageModel :=
  {| phone := alice; store_phone := store; last_interacted_at := at_;
     content := None; content_link := None; type_ := kind;
     who_sent := "usr"; pending_message := Some "llm";
     additional_info := None; send_to_wpp := true; use_llm := true |}.

Definition row (id : Z) (at_ : Z) (text who : string) : ChatBot.ChatsMessages :=
  {| ChatBot.cm_id := id; ChatBot.cm_chat_id := 1;
     ChatBot.cm_content := Some text; ChatBot.cm_content_link := None;
     ChatBot.cm_type := "text"; ChatBot.cm_sent_at := Some (seconds at_);
     ChatBot.cm_who_sent := who |}.

Definition session (last : Z) (rows : list ChatBot.ChatsMessages)
  : ChatBot.Session :=
  {| ChatBot.chats :=
       [{| ChatBot.c_id := 1; ChatBot.c_phone := alice;
           ChatBot.c_store_phone := store;
           ChatBot.c_last_interacted_at := seconds last |}];
     ChatBot.chats_messages := rows;
     ChatBot.nulls_first := true |}.

Definition wall_clock : nat -> Z := fun n => seconds (1000 + Z.of_nat n).

End Demo.

(* ===================================================================== *)
(** ** Notions used in the statements                                     *)
(* ===================================================================== *)

(** The payloads queued on the server. *)
Definition members (srv : Redis.server) : list string :=
  map fst (Redis.webhook srv).

(** The entries of a scan that carry a given payload. *)
Definition entries_of (payload : string) (scan : list (string * Z))
  : list (string * Z) :=
  filter (fun e => String.eqb (fst e) payload) scan.

(** A conversation is a store's number and a user's number. *)
Definition same_conversation (sp ph : string) (m : InternalMessageModel)
  : bool :=
  String.eqb (store_phone m) sp && String.eqb (phone m) ph.

(** The conversation group of [(sp, ph)] among decoded scan entries. *)
Definition group_of (sp ph : string) (entries : list (InternalMessageModel * Z))
  : list (InternalMessageModel * Z) :=
  filter (fun e => same_conversation sp ph (fst e)) entries.

(** The latest arrival time of a group. *)
Definition max_arrival (g : list (InternalMessageModel * Z)) : Z :=
  match g with
  | [] => 0
  | e :: r => fold_right (fun x acc => Z.max (snd x) acc) (snd e) r
  end.

(** Arrival times never decrease along the list. *)
Definition ascending (l : list (InternalMessageModel * Z)) : Prop :=
  StronglySorted (fun a b => snd a <= snd b) l.

Section Notions.
Context `{Json}.

(** The scan with every payload decoded, when all of them decode. *)
Fixpoint decode (scan : list (string * Z))
  : option (list (InternalMessageModel * Z)) :=
  match scan with
  | [] => Some []
  | (raw, score) :: rest =>
      match json_loads raw, decode rest with
      | Some item, Some l => Some ((item, score) :: l)
      | _, _ => None
      end
  end.

End Notions.

(** What one group contributes to the result of [filter_messages]. *)
Definition eligible_batch (cut : Z) (l : list (InternalMessageModel * Z))
  : list InternalMessageModel :=
  match last_item (sort_by snd l) with
  | Ok newest => if snd newest <? cut then map fst (sort_by snd l) else []
  | Raise _ => []
  end.

(** [grouped[a][b]], empty when a key is missing. *)
Definition lookup2 (g : RedisService.grouped) (a b : string)
  : list (InternalMessageModel * Z) :=
  match dict_get a g with
  | Some inner => match dict_get b inner with Some l => l | None => [] end
  | None => []
  end.

(** Both levels hold each key once, and no list is empty. *)
Definition grouped_wf (g : RedisService.grouped) : Prop :=
  NoDup (dict_keys g)
  /\ forall a inner, In (a, inner) g ->
       NoDup (dict_keys inner) /\ forall b l, In (b, l) inner -> l <> [].

(** At most one running work item per composite key. *)
Definition single_flight (p : list Consumer.work_item) : Prop :=
  forall i j wi wj,
    nth_error p i = Some wi -> nth_error p j = Some wj ->
    Consumer.w_state wi = Consumer.Running ->
    Consumer.w_state wj = Consumer.Running ->
    Consumer.w_key wi = Consumer.w_key wj -> i = j.

(** No future of the pool ended with an exception. *)
Definition no_raised (st : Consumer.state) : Prop :=
  Forall (fun w => Consumer.w_state w
                   <> Consumer.Finished Consumer.Raised)
         (Consumer.pool st).

(** The retry counter of a key; an untracked key counts 0. *)
Definition attempt_count (st : Consumer.state) (k : string) : Z :=
  match dict_get k (Consumer.tries st) with
  | Some n => n
  | None => 0
  end.

(** The three dicts of the loop hold each key once, as Python dicts do. *)
Definition well_formed (st : Consumer.state) : Prop :=
  NoDup (dict_keys (Consumer.tasks st))
  /\ NoDup (dict_keys (Consumer.tries st))
  /\ NoDup (dict_keys (Consumer.messages_dict st)).

(** A work item later in its life: the same submission, its future
    possibly finished in between. *)
Definition evolves (w w' : Consumer.work_item) : Prop :=
  Consumer.w_key w' = Consumer.w_key w
  /\ Consumer.w_tracked w' = Consumer.w_tracked w
  /\ Consumer.w_messages w' = Consumer.w_messages w
  /\ (Consumer.w_state w' = Consumer.w_state w
      \/ Consumer.w_state w = Consumer.Running).

(** The bookkeeping of the loop is consistent: every tracked key points at
    a work item of that key whose batch is the buffered one, every running
    work item is tracked under its key, every key with a retry counter is
    tracked and its future has returned [False], and no work item was
    submitted while its key was tracked. *)
Definition consistent (st : Consumer.state) : Prop :=
  (forall k f, dict_get k (Consumer.tasks st) = Some f ->
     exists w, nth_error (Consumer.pool st) f = Some w
               /\ Consumer.w_key w = k
               /\ dict_get k (Consumer.messages_dict st)
                  = Some (Consumer.w_messages w))
  /\ (forall f w, nth_error (Consumer.pool st) f = Some w ->
        Consumer.w_state w = Consumer.Running ->
        dict_get (Consumer.w_key w) (Consumer.tasks st) = Some f)
  /\ (forall k n, dict_get k (Consumer.tries st) = Some n ->
        exists f w, dict_get k (Consumer.tasks st) = Some f
                    /\ nth_error (Consumer.pool st) f = Some w
                    /\ Consumer.w_state w
                       = Consumer.Finished (Consumer.Returned false))
  /\ Forall (fun w => Consumer.w_tracked w = false) (Consumer.pool st).

(** The columns of the constraint [uq_chat_message], the ones
    [message_exists] compares. *)
Definition row_key (r : ChatBot.ChatsMessages) : Z * option Z * string :=
  (ChatBot.cm_chat_id r, ChatBot.cm_sent_at r, ChatBot.cm_who_sent r).

(** [r], stamped [T], is the most recent row of the chat from the sender:
    no row of the chat from that sender is stamped later, a row without a
    timestamp counting as later when the dialect sorts NULL first in a
    descending order. *)
Definition most_recent_at (db : ChatBot.Session) (chat_id : Z) (who : string)
           (r : ChatBot.ChatsMessages) (T : Z) : Prop :=
  In r (ChatBot.chats_messages db)
  /\ ChatBot.cm_chat_id r = chat_id
  /\ ChatBot.cm_who_sent r = who
  /\ ChatBot.cm_sent_at r = Some T
  /\ forall r', In r' (ChatBot.chats_messages db) ->
                ChatBot.cm_chat_id r' = chat_id ->
                ChatBot.cm_who_sent r' = who ->
                match ChatBot.cm_sent_at r' with
                | Some T' => T' <= T
                | None => ChatBot.nulls_first db = false
                end.

(** The event is an echo of the assistant's last reply. *)
Definition is_echo (db : ChatBot.Session) (chat_id : Z)
           (message : InternalMessageModel) (sent_at : Z) : Prop :=
  who_sent message = "hum"%string
  /\ exists reply T,
      most_recent_at db chat_id "llm" reply T
      /\ Z.abs (sent_at - T) <= seconds 20
      /\ strip (or_empty (ChatBot.cm_content reply))
         = strip (or_empty (content message)).

(** The table with one more row, holding the event. *)
Definition with_event (db : ChatBot.Session) (chat_id : Z)
           (message : InternalMessageModel) (sent_at : Z) : ChatBot.Session :=
  {| ChatBot.chats := ChatBot.chats db;
     ChatBot.chats_messages :=
       ChatBot.chats_messages db
       ++ [{| ChatBot.cm_id :=
                ChatBot.next_id (map ChatBot.cm_id (ChatBot.chats_messages db));
              ChatBot.cm_chat_id := chat_id;
              ChatBot.cm_content := Some (or_empty (content message));
              ChatBot.cm_content_link := content_link message;
              ChatBot.cm_type := type_ message;
              ChatBot.cm_sent_at := Some sent_at;
              ChatBot.cm_who_sent := who_sent message |}];
     ChatBot.nulls_first := ChatBot.nulls_first db |}.

(* ===================================================================== *)
(** ** Further code and notions                                           *)
(* ===================================================================== *)

(** A sorted set as Redis keeps it: entries in ascending order of score,
    members of equal score in byte order, every member once. *)
Definition zset_ok (z : Redis.zset) : Prop :=
  StronglySorted (fun a b => Redis.entry_leb a b = true) z
  /\ NoDup (map fst z).

(** The payloads of a batch. *)
Definition payloads `{Json} (batch : list InternalMessageModel) : list string :=
  map json_dumps batch.

(** Is the payload one of those listed? *)
Definition listed (ps : list string) (p : string) : bool :=
  existsb (String.eqb p) ps.

(** The instants a [datetime] can hold, in microseconds since the epoch:
    from 0001-01-01T00:00:00 to 9999-12-31T23:59:59.999999 (UTC). *)
Definition datetime_min : Z := seconds (-62135596800).
Definition datetime_max : Z := seconds 253402300800 - 1.

(** [timedelta(seconds=n)] exists when its number of days lies within
    999999999 on either side of zero. *)
Definition timedelta_seconds_ok (n : Z) : bool :=
  (-999999999 <=? n / 86400) && (n / 86400 <=? 999999999).

(** [datetime.now(timezone.utc) - timedelta(seconds=n)] is computed
    without [OverflowError]: the duration exists and the difference is an
    instant a [datetime] can hold. *)
Definition threshold_ok (now n : Z) : bool :=
  timedelta_seconds_ok n
  && (datetime_min <=? now - seconds n)
  && (now - seconds n <=? datetime_max).

(** The string holds no occurrence of the character. *)
Fixpoint free_of (c : ascii) (s : string) : bool :=
  match s with
  | EmptyString => true
  | String x r => negb (Ascii.eqb x c) && free_of c r
  end.

(** Every message of the batch carries the composite key. *)
Definition batch_of (k : string) (batch : list InternalMessageModel) : Prop :=
  Forall (fun m => Consumer.composite_key_of m = k) batch.

(** Every buffered batch and every submitted batch holds messages of its
    own key only. *)
Definition keyed (st : Consumer.state) : Prop :=
  Forall (fun e => batch_of (fst e) (snd e)) (Consumer.messages_dict st)
  /\ Forall (fun w => batch_of (Consumer.w_key w) (Consumer.w_messages w))
            (Consumer.pool st).

(** [src/repositories/interactions/crud/chats_messages_crud.py], the
    operations by primary key. *)
Module CRUDChatsMessages.

(** [get] *)
Definition get (db : ChatBot.Session) (message_id : Z)
  : option ChatBot.ChatsMessages :=
  find (fun r => ChatBot.cm_id r =? message_id) (ChatBot.chats_messages db).

(** [delete]: the row found by [get] leaves the table. *)
Definition delete (db : ChatBot.Session) (message_id : Z)
  : ChatBot.Session * option ChatBot.ChatsMessages :=
  match get db message_id with
  | Some message =>
      ({| ChatBot.chats := ChatBot.chats db;
          ChatBot.chats_messages :=
            filter (fun r => negb (ChatBot.cm_id r =? ChatBot.cm_id message))
                   (ChatBot.chats_messages db);
          ChatBot.nulls_first := ChatBot.nulls_first db |}, Some message)
  | None => (db, None)
  end.

End CRUDChatsMessages.

(** [src/services/interactions/chats_messages_services.py] *)
Module ChatMessageService.

Definition get (db : ChatBot.Session) (message_id : Z)
  : option ChatBot.ChatsMessages :=
  CRUDChatsMessages.get db message_id.

(** [delete]: ["Message not found"] is a [ValueError]. *)
Definition delete (db : ChatBot.Session) (message_id : Z)
  : result (ChatBot.Session * option ChatBot.ChatsMessages) :=
  match get db message_id with
  | None => Raise ValueError
  | Some _ => Ok (CRUDChatsMessages.delete db message_id)
  end.

End ChatMessageService.

(** [src/repositories/interactions/crud/chats_crud.py] *)
Module CRUDChat.

(** [get] *)
Definition get (db : ChatBot.Session) (phone store_phone : string)
  : option ChatBot.Chats :=
  find (fun c => String.eqb (ChatBot.c_phone c) phone
                 && String.eqb (ChatBot.c_store_phone c) store_phone)
       (ChatBot.chats db).

End CRUDChat.

(** [src/services/interactions/chats_services.py] *)
Module ChatsService.

(** [get_id]: [chats.id] on the result of [get], which may be [None]. *)
Definition get_id (db : ChatBot.Session) (phone store_phone : string)
  : result Z :=
  match CRUDChat.get db phone store_phone with
  | Some chats => Ok (ChatBot.c_id chats)
  | None => Raise AttributeError
  end.

End ChatsService.

(** No two rows agree on (chat_id, sent_at, who_sent), and no two rows
    share a primary key. *)
Definition unique_rows (db : ChatBot.Session) : Prop :=
  NoDup (map row_key (ChatBot.chats_messages db))
  /\ NoDup (map ChatBot.cm_id (ChatBot.chats_messages db)).

(** More of Python's [str], on 8-bit code points. *)
Module Str.

Definition in_range (lo hi : N) (c : ascii) : bool :=
  ((lo <=? N_of_ascii c) && (N_of_ascii c <=? hi))%N.

(** [str.lower] on one code point: the capital letters of ASCII and of
    Latin-1 move 32 places up. *)
Definition lower_char (c : ascii) : ascii :=
  if in_range 65 90 c
     || (in_range 192 222 c && negb (N_of_ascii c =? 215)%N)
  then ascii_of_N (N_of_ascii c + 32)
  else c.

Fixpoint lower (s : string) : string :=
  match s with
  | EmptyString => EmptyString
  | String c r => String (lower_char c) (lower r)
  end.

(** The class [\d] (decimal digits; below 256 these are [0-9]). *)
Definition is_digit (c : ascii) : bool := in_range 48 57 c.

(** [re.sub(r"\D", "", s)] *)
Fixpoint digits (s : string) : string :=
  match s with
  | EmptyString => EmptyString
  | String c r => if is_digit c then String c (digits r) else digits r
  end.

Fixpoint all_digits (s : string) : bool :=
  match s with
  | EmptyString => true
  | String c r => is_digit c && all_digits r
  end.

(** [not s] for a string *)
Definition is_empty (s : string) : bool :=
  match s with EmptyString => true | String _ _ => false end.

(** [s.split(sep)] for a one-character separator. *)
Fixpoint split (sep : ascii) (s : string) : list string :=
  match s with
  | EmptyString => [EmptyString]
  | String c r =>
      if Ascii.eqb c sep then EmptyString :: split sep r
      else match split sep r with
           | [] => [String c EmptyString]
           | x :: xs => String c x :: xs
           end
  end.

(** [s.lstrip(ch)], [s.rstrip(ch)] and [s.strip(ch)] for one character. *)
Fixpoint lstrip_char (ch : ascii) (s : string) : string :=
  match s with
  | EmptyString => EmptyString
  | String c r => if Ascii.eqb c ch then lstrip_char ch r else s
  end.

Fixpoint rstrip_char (ch : ascii) (s : string) : string :=
  match s with
  | EmptyString => EmptyString
  | String c r =>
      match rstrip_char ch r with
      | EmptyString =>
          if Ascii.eqb c ch then EmptyString else String c EmptyString
      | r' => String c r'
      end
  end.

Definition strip_char (ch : ascii) (s : string) : string :=
  rstrip_char ch (lstrip_char ch s).

End Str.

(** [src/services/store_routing.py] *)
Module StoreRouting.

(** The class [[a-z0-9]]. *)
Definition is_lower_alnum (c : ascii) : bool :=
  Str.in_range 97 122 c || Str.in_range 48 57 c.

(** [re.sub(r"[^a-z0-9]+", "_", s)]: every maximal run of other characters
    becomes one underscore.  [inside] tells that the previous character
    belonged to such a run. *)
Fixpoint replace_runs (inside : bool) (s : string) : string :=
  match s with
  | EmptyString => EmptyString
  | String c r =>
      if is_lower_alnum c then String c (replace_runs false r)
      else if inside then replace_runs true r
           else String "_" (replace_runs true r)
  end.

Definition _normalize_identifier (value : string) : string :=
  Str.strip_char "_" (replace_runs false (Str.lower value)).

Definition _normalize_phone (value : option string) : option string :=
  match value with
  | None => None
  | Some value =>
      if Str.is_empty value then None
      else
        let digits := Str.digits value in
        if Str.is_empty digits then None else Some digits
  end.

Record StoreContact : Type := {
  key : string;
  name : string;
  phone : string;
  role : option string;
  display_phone : option string
}.

(** [x or y] on an optional string and a string *)
Definition or_else (o : option string) (d : string) : string :=
  match o with
  | Some s => if Str.is_empty s then d else s
  | None => d
  end.

Definition as_dict (self : StoreContact) : dict (option string) :=
  [("key"%string, Some (key self));
   ("name"%string, Some (name self));
   ("phone"%string, Some (phone self));
   ("role"%string, role self);
   ("display_phone"%string, Some (or_else (display_phone self) (phone self)))].

(** [[part.strip() for part in entry.split(":") if part.strip()]] *)
Definition parts_of (entry : string) : list string :=
  map strip
      (filter (fun part => negb (Str.is_empty (strip part)))
              (Str.split ":" entry)).

(** The body of the loop of [_iter_raw_contacts]. *)
Fixpoint contacts_from (chunks : list string) (contacts : list StoreContact)
  : list StoreContact :=
  match chunks with
  | [] => contacts
  | chunk :: more =>
      let entry := strip chunk in
      if Str.is_empty entry then contacts_from more contacts
      else
        match parts_of entry with
        | key :: name :: phone :: rest =>
            match _normalize_phone (Some phone) with
            | None => contacts_from more contacts
            | Some normalized_phone =>
                let role := hd_error rest in
                let contact :=
                  {| key := _normalize_identifier key;
                     name := name;
                     phone := normalized_phone;
                     role := role;
                     display_phone := Some phone |} in
                contacts_from more (contacts ++ [contact])
            end
        | _ => contacts_from more contacts
        end
  end.

Definition _iter_raw_contacts (raw : string) : list StoreContact :=
  if Str.is_empty raw then [] else contacts_from (Str.split ";" raw) [].

(** The module's three globals. *)
Record cache : Type := {
  _CACHE_RAW : option string;
  _CACHE_CONTACTS : list StoreContact;
  _CACHE_LOOKUP : dict StoreContact
}.

(** The globals when the module is imported. *)
Definition unloaded : cache :=
  {| _CACHE_RAW := None; _CACHE_CONTACTS := []; _CACHE_LOOKUP := [] |}.

(** The set [aliases] of a contact, as a list. *)
Definition aliases (contact : StoreContact) : list string :=
  [key contact; _normalize_identifier (name contact)]
  ++ match role contact with
     | Some r => if Str.is_empty r then [] else [_normalize_identifier r]
     | None => []
     end.

Fixpoint set_all (names : list string) (contact : StoreContact)
         (lookup : dict StoreContact) : dict StoreContact :=
  match names with
  | [] => lookup
  | alias :: more => set_all more contact (dict_set alias contact lookup)
  end.

Fixpoint build_lookup (contacts : list StoreContact)
         (lookup : dict StoreContact) : dict StoreContact :=
  match contacts with
  | [] => lookup
  | contact :: more =>
      build_lookup more (set_all (aliases contact) contact lookup)
  end.

(** [_ensure_cache]; [current_raw] is [os.getenv(CONTACT_ENV, "")]. *)
Definition _ensure_cache (current_raw : string) (c : cache) : cache :=
  match _CACHE_RAW c with
  | Some raw =>
      if String.eqb current_raw raw then c
      else
        let contacts := _iter_raw_contacts current_raw in
        {| _CACHE_RAW := Some current_raw;
           _CACHE_CONTACTS := contacts;
           _CACHE_LOOKUP := build_lookup contacts [] |}
  | None =>
      let contacts := _iter_raw_contacts current_raw in
      {| _CACHE_RAW := Some current_raw;
         _CACHE_CONTACTS := contacts;
         _CACHE_LOOKUP := build_lookup contacts [] |}
  end.

Definition get_store_contacts (current_raw : string) (c : cache)
  : cache * list StoreContact :=
  let c := _ensure_cache current_raw c in
  (c, _CACHE_CONTACTS c).

Definition resolve_store_contact (current_raw : string) (c : cache)
           (identifier : option string) : cache * option StoreContact :=
  match identifier with
  | None => (c, None)
  | Some identifier =>
      if Str.is_empty identifier then (c, None)
      else
        let c := _ensure_cache current_raw c in
        let normalized := _normalize_identifier identifier in
        if Str.is_empty normalized then (c, None)
        else (c, dict_get normalized (_CACHE_LOOKUP c))
  end.

End StoreRouting.

(** An identifier in normal form: letters [a-z], digits and single
    underscores between them.  [separated prev s] reads [s] after a
    character that was an underscore ([prev]) or not. *)
Fixpoint separated (prev : bool) (s : string) : bool :=
  match s with
  | EmptyString => true
  | String c r =>
      if StoreRouting.is_lower_alnum c then separated false r
      else Ascii.eqb c "_" && negb prev && separated true r
  end.

Fixpoint ends_well (s : string) : bool :=
  match s with
  | EmptyString => true
  | String c EmptyString => StoreRouting.is_lower_alnum c
  | String _ r => ends_well r
  end.

Definition normal_identifier (s : string) : bool :=
  separated true s && ends_well s.

(** The globals agree with the environment value they were built from. *)
Definition coherent (c : StoreRouting.cache) : Prop :=
  match StoreRouting._CACHE_RAW c with
  | None => True
  | Some raw =>
      StoreRouting._CACHE_CONTACTS c = StoreRouting._iter_raw_contacts raw
      /\ StoreRouting._CACHE_LOOKUP c
         = StoreRouting.build_lookup (StoreRouting._iter_raw_contacts raw) []
  end.

(** The contact an identifier stands for: the last one of the list that
    has it among its aliases. *)
Definition last_with_alias (alias : string)
           (contacts : list StoreRouting.StoreContact)
  : option StoreRouting.StoreContact :=
  find (fun c => existsb (String.eqb alias) (StoreRouting.aliases c))
       (rev contacts).

(** [s] is what is left of [t] once some of its characters are deleted. *)
Inductive kept_from : string -> string -> Prop :=
| kept_nil : kept_from EmptyString EmptyString
| kept_take (c : ascii) (s t : string) :
    kept_from s t -> kept_from (String c s) (String c t)
| kept_drop (c : ascii) (s t : string) :
    kept_from s t -> kept_from s (String c t).

(** The environment value of the repository's unit test. *)
Definition test_routing : string :=
  "orcamento:Davi:55 19 4413-660:Assistente Tecnico;assistencia_tecnica:Tatiane:5581 8221 1659:Lider de Projetos".

(* ===================================================================== *)
(** ** Facts about the Python runtime model                               *)
(* ===================================================================== *)

Lemma bind_ok {A B} (c : result A) (k : A -> result B) (b : B) :
  Py.bind c k = Ok b -> exists a, c = Ok a /\ k a = Ok b.
Proof.
  destruct c as [a|e]; simpl; intros E; [eauto | discriminate].
Qed.

Lemma dict_get_set_eq {V} (k : string) (v : V) (d : dict V) :
  dict_get k (dict_set k v d) = Some v.
Proof.
  induction d as [|[k' v'] r IH]; simpl.
  - now rewrite String.eqb_refl.
  - destruct (String.eqb k' k) eqn:E; simpl.
    + now rewrite String.eqb_refl.
    + now rewrite E.
Qed.

Lemma dict_get_set_ne {V} (k k' : string) (v : V) (d : dict V) :
  k <> k' -> dict_get k' (dict_set k v d) = dict_get k' d.
Proof.
  intros N. induction d as [|[k0 v0] r IH]; simpl.
  - apply String.eqb_neq in N. now rewrite N.
  - destruct (String.eqb k0 k) eqn:E; simpl.
    + apply String.eqb_eq in E; subst k0.
      apply String.eqb_neq in N. now rewrite N.
    + now rewrite IH.
Qed.

Lemma dict_get_keys {V} (k : string) (d : dict V) :
  dict_get k d = None <-> ~ In k (dict_keys d).
Proof.
  induction d as [|[k' v'] r IH]; simpl.
  - tauto.
  - destruct (String.eqb_spec k' k) as [->|N].
    + split; [discriminate | intros X; exfalso; apply X; now left].
    + rewrite IH. split; [intros X [Y|Y]; tauto | tauto].
Qed.

Lemma dict_mem_keys {V} (k : string) (d : dict V) :
  dict_mem k d = true <-> In k (dict_keys d).
Proof.
  unfold dict_mem. pose proof (dict_get_keys k d) as K.
  destruct (dict_get k d).
  - split; [intros _ | reflexivity].
    destruct (in_dec string_dec k (dict_keys d)) as [I|I]; [exact I|].
    apply K in I. discriminate.
  - split; [discriminate | intros I]. exfalso. now apply K.
Qed.

Lemma dict_mem_false {V} (k : string) (d : dict V) :
  dict_mem k d = false <-> dict_get k d = None.
Proof.
  unfold dict_mem. destruct (dict_get k d); split; congruence.
Qed.

Lemma dict_get_In {V} (k : string) (v : V) (d : dict V) :
  dict_get k d = Some v -> In (k, v) d.
Proof.
  induction d as [|[k' v'] r IH]; simpl; [discriminate|].
  destruct (String.eqb_spec k' k) as [->|N].
  - intros [= ->]. now left.
  - intros E. right. now apply IH.
Qed.

Lemma In_dict_get {V} (k : string) (v : V) (d : dict V) :
  NoDup (dict_keys d) -> In (k, v) d -> dict_get k d = Some v.
Proof.
  induction d as [|[k' v'] r IH]; simpl; [tauto|].
  intros ND [E|I].
  - injection E as -> ->. now rewrite String.eqb_refl.
  - inversion ND as [|? ? NI ND']; subst.
    destruct (String.eqb_spec k' k) as [->|N].
    + exfalso. apply NI. change (In (fst (k, v)) (map fst r)).
      now apply in_map.
    + now apply IH.
Qed.

Lemma dict_keys_set {V} (k : string) (v : V) (d : dict V) :
  dict_keys (dict_set k v d)
  = if dict_mem k d then dict_keys d else dict_keys d ++ [k].
Proof.
  unfold dict_mem. induction d as [|[k' v'] r IH]; simpl; [reflexivity|].
  destruct (String.eqb_spec k' k) as [->|N]; simpl; [reflexivity|].
  rewrite IH. now destruct (dict_get k r).
Qed.

Lemma NoDup_snoc {A} (x : A) (l : list A) :
  NoDup l -> ~ In x l -> NoDup (l ++ [x]).
Proof.
  intros ND NI. induction ND as [|y l NY ND IH]; simpl.
  - constructor; [tauto | constructor].
  - constructor.
    + rewrite in_app_iff. simpl. intros [I|[->|[]]]; [tauto|].
      apply NI. now left.
    + apply IH. intros I. apply NI. now right.
Qed.

Lemma NoDup_keys_set {V} (k : string) (v : V) (d : dict V) :
  NoDup (dict_keys d) -> NoDup (dict_keys (dict_set k v d)).
Proof.
  intros ND. rewrite dict_keys_set.
  destruct (dict_mem k d) eqn:M; [exact ND|].
  apply NoDup_snoc; [exact ND|].
  apply dict_get_keys. now apply dict_mem_false.
Qed.

Lemma dict_keys_del_incl {V} (k k' : string) (d : dict V) :
  In k' (dict_keys (dict_del k d)) -> In k' (dict_keys d).
Proof.
  induction d as [|[k0 v0] r IH]; simpl; [tauto|].
  destruct (String.eqb k0 k); simpl; [tauto|].
  intros [E|I]; [now left | right; now apply IH].
Qed.

Lemma NoDup_keys_del {V} (k : string) (d : dict V) :
  NoDup (dict_keys d) -> NoDup (dict_keys (dict_del k d)).
Proof.
  induction d as [|[k0 v0] r IH]; simpl; [trivial|].
  intros ND. inversion ND as [|? ? NI ND']; subst.
  destruct (String.eqb k0 k); simpl; [exact ND'|].
  constructor; [|now apply IH].
  intros I. apply NI. now apply dict_keys_del_incl in I.
Qed.

Lemma dict_get_del_ne {V} (k k' : string) (d : dict V) :
  k <> k' -> dict_get k' (dict_del k d) = dict_get k' d.
Proof.
  intros N. induction d as [|[k0 v0] r IH]; simpl; [reflexivity|].
  destruct (String.eqb_spec k0 k) as [->|N0]; simpl.
  - apply String.eqb_neq in N. now rewrite N.
  - now rewrite IH.
Qed.

Lemma dict_get_del_eq {V} (k : string) (d : dict V) :
  NoDup (dict_keys d) -> dict_get k (dict_del k d) = None.
Proof.
  induction d as [|[k0 v0] r IH]; simpl; [reflexivity|].
  intros ND. inversion ND as [|? ? NI ND']; subst.
  destruct (String.eqb_spec k0 k) as [->|N0]; simpl.
  - now apply dict_get_keys.
  - apply String.eqb_neq in N0. rewrite N0. now apply IH.
Qed.

Lemma dict_pop_ok {V} (k : string) (d d' : dict V) :
  dict_pop k d = Ok d' -> d' = dict_del k d /\ dict_mem k d = true.
Proof.
  unfold dict_pop, dict_mem. destruct (dict_get k d); [|discriminate].
  intros [= <-]. split; reflexivity.
Qed.

(* ===================================================================== *)
(** ** The event store ([redis_crud.py])                                  *)
(* ===================================================================== *)

Lemma zrem_absent (member : string) (z : Redis.zset) :
  Forall (fun e => fst e <> member) (Redis.zrem member z).
Proof.
  unfold Redis.zrem. apply Forall_forall. intros e I.
  apply filter_In in I. destruct I as [_ I].
  apply negb_true_iff in I. now apply String.eqb_neq.
Qed.

Lemma zrem_not_member (member : string) (z : Redis.zset) :
  ~ In member (map fst (Redis.zrem member z)).
Proof.
  intros I. apply in_map_iff in I. destruct I as [e [E I]].
  pose proof (zrem_absent member z) as F.
  rewrite Forall_forall in F. now apply (F e I).
Qed.

Lemma zrem_incl (member p : string) (z : Redis.zset) :
  In p (map fst (Redis.zrem member z)) -> In p (map fst z).
Proof.
  intros I. apply in_map_iff in I. destruct I as [e [E I]].
  apply filter_In in I. apply in_map_iff. exists e. tauto.
Qed.

Lemma entries_of_absent (member : string) (z : Redis.zset) :
  Forall (fun e => fst e <> member) z -> entries_of member z = [].
Proof.
  induction 1 as [|e r N F IH]; simpl; [reflexivity|].
  apply String.eqb_neq in N. now rewrite N.
Qed.

Lemma entries_of_zinsert (member : string) (score : Z) (z : Redis.zset) :
  Forall (fun e => fst e <> member) z ->
  entries_of member (Redis.zinsert (member, score) z) = [(member, score)].
Proof.
  induction 1 as [|e r N F IH].
  - simpl. now rewrite String.eqb_refl.
  - cbn [Redis.zinsert]. destruct (Redis.entry_leb (member, score) e).
    + cbn [entries_of filter fst]. rewrite String.eqb_refl.
      f_equal. change (entries_of member (e :: r) = []).
      apply entries_of_absent. now constructor.
    + cbn [entries_of filter]. apply String.eqb_neq in N. rewrite N.
      exact IH.
Qed.

Lemma entries_of_zadd (member : string) (score : Z) (z : Redis.zset) :
  entries_of member (Redis.zadd member score z) = [(member, score)].
Proof.
  unfold Redis.zadd. apply entries_of_zinsert, zrem_absent.
Qed.

Lemma save_ok `{Json} (db : RedisDatabase.t) (srv srv' : Redis.server)
      (data : InternalMessageModel) (now : Z) :
  RedisDatabase.save db srv data now = Ok srv' ->
  Redis.online srv = true /\ Redis.online srv' = true
  /\ RedisDatabase.handler db <> None
  /\ Redis.webhook srv' = Redis.zadd (json_dumps data) now (Redis.webhook srv).
Proof.
  unfold RedisDatabase.save, RedisDatabase.get_handler, Redis.command.
  destruct (RedisDatabase.handler db); simpl; [|discriminate].
  destruct (Redis.online srv) eqn:O; [|discriminate].
  intros [= <-]. simpl. repeat split; auto. discriminate.
Qed.

(** C10.  Two [save] calls whose messages serialize to the same payload
    leave exactly one queued entry for that payload, and its score is the
    timestamp of the later call: the full scan that follows returns that
    single entry. *)
Theorem identical_payload_keeps_one_entry `{Json}
        (db : RedisDatabase.t) (srv srv1 srv2 : Redis.server)
        (first later : InternalMessageModel) (t1 t2 : Z) :
  json_dumps first = json_dumps later ->
  RedisDatabase.save db srv first t1 = Ok srv1 ->
  RedisDatabase.save db srv1 later t2 = Ok srv2 ->
  exists scan,
    RedisDatabase.retrieve_messages db srv2 = Ok scan
    /\ entries_of (json_dumps first) scan = [(json_dumps first, t2)].
Proof.
  intros P S1 S2.
  apply save_ok in S2. destruct S2 as [_ [O2 [Hd W2]]].
  exists (Redis.webhook srv2). split.
  - unfold RedisDatabase.retrieve_messages, RedisDatabase.get_handler,
      Redis.command.
    destruct (RedisDatabase.handler db); [|congruence].
    simpl. now rewrite O2.
  - rewrite W2, <- P. apply entries_of_zadd.
Qed.

Lemma identical_payload_keeps_one_entry_witness :
  exists scan,
    @RedisDatabase.retrieve_messages Demo.repository
      (Demo.up [(Demo.dumps Demo.A, 7)]) = Ok scan
    /\ entries_of (Demo.dumps Demo.A) scan = [(Demo.dumps Demo.A, 7)].
Proof.
  apply (@identical_payload_keeps_one_entry Demo.codec Demo.repository
           (Demo.up []) (Demo.up [(Demo.dumps Demo.A, 9)])
           (Demo.up [(Demo.dumps Demo.A, 7)]) Demo.A Demo.A 9 7);
    reflexivity.
Defined.

(** C9, as the code has it.  An exception raised while the client is
    built is caught by [__init__], which returns an object without a
    handler; every operation on such an object raises, and so does every
    operation of a working object while the server cannot be reached.  No
    operation answers with an empty scan in place of the error. *)
Theorem store_failures_surface `{Json} (e : exn) (h : Redis.client)
        (z : Redis.zset) (srv : Redis.server)
        (data : InternalMessageModel) (rest : list InternalMessageModel)
        (now threshold : Z) :
  let broken := {| RedisDatabase.handler := None |} in
  let working := {| RedisDatabase.handler := Some h |} in
  let off := {| Redis.online := false; Redis.webhook := z |} in
  RedisDatabase.__init__ (Raise e) = Ok broken
  /\ RedisDatabase.save broken srv data now = Raise AttributeError
  /\ RedisDatabase.retrieve_messages broken srv = Raise AttributeError
  /\ RedisDatabase.delete_message broken srv data = Raise AttributeError
  /\ RedisService.time_search {| RedisService.redis_repository := broken |}
       srv now threshold = Raise AttributeError
  /\ RedisDatabase.save working off data now = Raise ConnectionError
  /\ RedisDatabase.retrieve_messages working off = Raise ConnectionError
  /\ RedisDatabase.delete_message working off data = Raise ConnectionError
  /\ RedisService.delete_messages
       {| RedisService.redis_repository := working |} off (data :: rest)
     = Raise ConnectionError
  /\ RedisService.time_search {| RedisService.redis_repository := working |}
       off now threshold = Raise ConnectionError.
Proof.
  repeat split.
Qed.

(** C9, as stated, fails on construction: the constructor returns
    normally when building the client raised a connection error. *)
Lemma construction_failure_is_swallowed :
  ~ (exists e, RedisDatabase.__init__ (Raise ConnectionError) = Raise e).
Proof.
  intros [e E]. discriminate E.
Qed.

(* ===================================================================== *)
(** ** The echo guard ([chatbot.py], [_should_store_message])             *)
(* ===================================================================== *)

Ltac conjs := repeat match goal with |- _ /\ _ => split end.

Lemma hd_insert_sorted {A} (leb : A -> A -> bool) (x : A) (l : list A) :
  hd_error (insert_sorted leb x l)
  = match l with
    | [] => Some x
    | y :: _ => if leb x y then Some x else Some y
    end.
Proof.
  destruct l as [|y r]; simpl; [reflexivity|].
  now destruct (leb x y).
Qed.

Lemma desc_leb_total (nf : bool) (a b : ChatBot.ChatsMessages) :
  ChatBot.desc_leb nf a b = false -> ChatBot.desc_leb nf b a = true.
Proof.
  unfold ChatBot.desc_leb.
  destruct (ChatBot.cm_sent_at a) as [x|], (ChatBot.cm_sent_at b) as [y|];
    try (destruct nf; simpl; congruence).
  intros L. apply Z.leb_gt in L. apply Z.leb_le. lia.
Qed.

Lemma desc_leb_trans (nf : bool) (a b c : ChatBot.ChatsMessages) :
  ChatBot.desc_leb nf a b = true -> ChatBot.desc_leb nf b c = true ->
  ChatBot.desc_leb nf a c = true.
Proof.
  unfold ChatBot.desc_leb.
  destruct (ChatBot.cm_sent_at a) as [x|], (ChatBot.cm_sent_at b) as [y|],
           (ChatBot.cm_sent_at c) as [z|];
    try (destruct nf; simpl; congruence).
  intros L1 L2. apply Z.leb_le in L1, L2. apply Z.leb_le. lia.
Qed.

(** The first row in descending order of timestamps is one of the rows,
    and none of the rows ranks before it. *)
Lemma first_of_sorted (nf : bool) (l : list ChatBot.ChatsMessages)
      (r : ChatBot.ChatsMessages) :
  hd_error (stable_sort (ChatBot.desc_leb nf) l) = Some r ->
  In r l /\ forall x, In x l -> ChatBot.desc_leb nf r x = true.
Proof.
  revert r. induction l as [|x l IH]; intros r; [discriminate|].
  cbn [stable_sort]. rewrite hd_insert_sorted.
  destruct (stable_sort (ChatBot.desc_leb nf) l) as [|y s] eqn:S.
  - intros [= <-]. destruct l as [|z l'].
    + split; [now left|]. intros ? [<-|[]].
      destruct (ChatBot.desc_leb nf x x) eqn:E; [reflexivity|].
      pose proof (desc_leb_total nf x x E). congruence.
    + exfalso. cbn [stable_sort] in S.
      pose proof (hd_insert_sorted (ChatBot.desc_leb nf) z
                    (stable_sort (ChatBot.desc_leb nf) l')) as Hh.
      rewrite S in Hh. simpl in Hh.
      destruct (stable_sort (ChatBot.desc_leb nf) l') as [|w ?];
        [discriminate|].
      destruct (ChatBot.desc_leb nf z w); discriminate.
  - destruct (IH y eq_refl) as [Iy My].
    destruct (ChatBot.desc_leb nf x y) eqn:L; intros [= <-].
    + split; [now left|]. intros z [<-|Iz].
      * destruct (ChatBot.desc_leb nf x x) eqn:E; [reflexivity|].
        pose proof (desc_leb_total nf x x E). congruence.
      * apply (desc_leb_trans nf x y z L). now apply My.
    + split; [now right|]. intros z [<-|Iz].
      * now apply desc_leb_total.
      * now apply My.
Qed.

Lemma sorted_has_first (nf : bool) (l : list ChatBot.ChatsMessages)
      (x : ChatBot.ChatsMessages) :
  In x l -> exists r, hd_error (stable_sort (ChatBot.desc_leb nf) l) = Some r.
Proof.
  destruct l as [|y l]; [intros []|]. intros _.
  cbn [stable_sort]. rewrite hd_insert_sorted.
  destruct (stable_sort (ChatBot.desc_leb nf) l) as [|z s]; [eauto|].
  destruct (ChatBot.desc_leb nf y z); eauto.
Qed.

Lemma same_key_same_row (rows : list ChatBot.ChatsMessages)
      (r r' : ChatBot.ChatsMessages) :
  NoDup (map row_key rows) -> In r rows -> In r' rows ->
  row_key r = row_key r' -> r = r'.
Proof.
  induction rows as [|x rows IH]; intros ND I I' K; [destruct I|].
  cbn [map] in ND. inversion ND as [|? ? NI ND']; subst.
  destruct I as [<-|I], I' as [<-|I']; auto.
  - exfalso. apply NI. rewrite K. now apply in_map.
  - exfalso. apply NI. rewrite <- K. now apply in_map.
Qed.

(** The query behind [get_last_message_from_sender], read on the rows of
    a table that satisfies its uniqueness constraint. *)
Lemma last_message_is_most_recent (db : ChatBot.Session) (chat_id : Z)
      (who : string) (r : ChatBot.ChatsMessages) (T : Z) :
  NoDup (map row_key (ChatBot.chats_messages db)) ->
  (ChatBot.get_last_message_from_sender db chat_id who = Some r
   /\ ChatBot.cm_sent_at r = Some T)
  <-> most_recent_at db chat_id who r T.
Proof.
  intros ND.
  unfold ChatBot.get_last_message_from_sender,
    ChatBot.get_last_message_by_chat_id_and_sender, most_recent_at.
  set (keep := fun r0 => (ChatBot.cm_chat_id r0 =? chat_id)
                         && String.eqb (ChatBot.cm_who_sent r0) who).
  assert (Keep : forall x, In x (filter keep (ChatBot.chats_messages db))
                           <-> In x (ChatBot.chats_messages db)
                               /\ ChatBot.cm_chat_id x = chat_id
                               /\ ChatBot.cm_who_sent x = who).
  { intros x. rewrite filter_In. unfold keep. rewrite andb_true_iff.
    rewrite Z.eqb_eq, String.eqb_eq. tauto. }
  split.
  - intros [Q S]. apply first_of_sorted in Q. destruct Q as [I M].
    apply Keep in I. destruct I as [I [C W]]. conjs; auto.
    intros r' I' C' W'.
    assert (L : ChatBot.desc_leb (ChatBot.nulls_first db) r r' = true)
      by (apply M, Keep; auto).
    unfold ChatBot.desc_leb in L. rewrite S in L.
    destruct (ChatBot.cm_sent_at r') as [T'|].
    + now apply Z.leb_le in L.
    + now apply negb_true_iff in L.
  - intros [I [C [W [S M]]]].
    destruct (sorted_has_first (ChatBot.nulls_first db)
                (filter keep (ChatBot.chats_messages db)) r) as [r0 Q];
      [apply Keep; auto|].
    pose proof (first_of_sorted _ _ _ Q) as [I0 M0].
    apply Keep in I0. destruct I0 as [I0 [C0 W0]].
    assert (L : ChatBot.desc_leb (ChatBot.nulls_first db) r0 r = true)
      by (apply M0, Keep; auto).
    specialize (M r0 I0 C0 W0). unfold ChatBot.desc_leb in L. rewrite S in L.
    destruct (ChatBot.cm_sent_at r0) as [T0|] eqn:S0; [|congruence].
    apply Z.leb_le in L. assert (T0 = T) by lia. subst T0.
    assert (r0 = r).
    { apply (same_key_same_row (ChatBot.chats_messages db)); auto.
      unfold row_key. congruence. }
    subst r0. auto.
Qed.

Lemma should_store_message_false_iff `{ChatBot.Collaborators}
      (db : ChatBot.Session) (chat_id : Z) (message : InternalMessageModel)
      (sent_at : Z) :
  NoDup (map row_key (ChatBot.chats_messages db)) ->
  ChatBot._should_store_message db chat_id message sent_at = false
  <-> is_echo db chat_id message sent_at.
Proof.
  intros ND. unfold is_echo, ChatBot._should_store_message.
  destruct (String.eqb_spec (who_sent message) "hum") as [W|W]; simpl.
  2:{ split; [discriminate | intros [X _]; contradiction]. }
  destruct (ChatBot.get_last_message_from_sender db chat_id "llm")
    as [last_llm|] eqn:Q.
  2:{ split; [discriminate|]. intros [_ [l [t [X _]]]].
      apply (last_message_is_most_recent db chat_id "llm" l t ND) in X.
      destruct X as [X _]. congruence. }
  destruct (ChatBot.cm_sent_at last_llm) as [t|] eqn:T.
  2:{ split; [discriminate|]. intros [_ [l [t [X _]]]].
      apply (last_message_is_most_recent db chat_id "llm" l t ND) in X.
      destruct X as [X Y]. rewrite Q in X. injection X as <-. congruence. }
  assert (Only : forall l t', most_recent_at db chat_id "llm" l t' ->
                              l = last_llm /\ t' = t).
  { intros l t' X.
    apply (last_message_is_most_recent db chat_id "llm" l t' ND) in X.
    destruct X as [X Y]. rewrite Q in X. injection X as <-.
    rewrite T in Y. injection Y as <-. auto. }
  destruct (Z.leb_spec (Z.abs (sent_at - t)) (seconds 20)) as [L|L];
    destruct (String.eqb_spec (strip (or_empty (ChatBot.cm_content last_llm)))
                              (strip (or_empty (content message)))) as [S|S];
    simpl; split; try discriminate; try (intros; reflexivity).
  - intros _. split; [exact W|]. exists last_llm, t. conjs; auto.
    now apply (last_message_is_most_recent db chat_id "llm" last_llm t ND).
  - intros [_ [l [t' [X [_ Z']]]]]. destruct (Only l t' X) as [-> ->].
    contradiction.
  - intros [_ [l [t' [X [Z' _]]]]]. destruct (Only l t' X) as [-> ->]. lia.
  - intros [_ [l [t' [X [Z' _]]]]]. destruct (Only l t' X) as [-> ->]. lia.
Qed.

(** C7, as the code has it.  On a table that satisfies its uniqueness
    constraint, an event is refused by the echo guard exactly when it is
    tagged ["hum"] and the most recent ["llm"] row of the chat is stamped
    at most 20 seconds away from it and has the same trimmed text; the
    storing loop then leaves the table as it is.  Every other event passes
    the guard and goes to [create]: it becomes a new row of the table,
    unless a row with its chat, instant and sender tag exists already, in
    which case the table stays as it is, or its type is longer than 8
    characters or its sender tag longer than 3, in which case the loop
    raises. *)
Theorem echo_dropped_iff `{ChatBot.Collaborators}
        (clock : nat -> Z) (n n' : nat) (db : ChatBot.Session) (chat_id : Z)
        (message : InternalMessageModel) (sent_at : Z) :
  NoDup (map row_key (ChatBot.chats_messages db)) ->
  ChatBot._as_datetime clock n (last_interacted_at message)
  = Ok (sent_at, n') ->
  (ChatBot._should_store_message db chat_id message sent_at = false
   <-> is_echo db chat_id message sent_at)
  /\ (is_echo db chat_id message sent_at ->
      ChatBot.store_messages clock n db chat_id [message] = Ok (db, n'))
  /\ (~ is_echo db chat_id message sent_at ->
      ChatBot.store_messages clock n db chat_id [message]
      = if ChatBot.message_exists db chat_id sent_at (who_sent message)
        then Ok (db, n')
        else if ChatBot.ChatsMessagesCreate_ok (type_ message)
                                               (who_sent message)
             then Ok (with_event db chat_id message sent_at, n')
             else Raise ValidationError).
Proof.
  intros ND A.
  pose proof (should_store_message_false_iff db chat_id message sent_at ND)
    as G.
  conjs.
  - exact G.
  - intros E. apply G in E. cbn [ChatBot.store_messages].
    rewrite A. cbn [Py.bind]. now rewrite E.
  - intros NE. cbn [ChatBot.store_messages]. rewrite A. cbn [Py.bind].
    destruct (ChatBot._should_store_message db chat_id message sent_at) eqn:S.
    2:{ exfalso. apply NE. now apply G. }
    cbn [negb]. unfold ChatBot.create, with_event.
    destruct (ChatBot.message_exists db chat_id sent_at (who_sent message));
      [reflexivity|].
    destruct (ChatBot.ChatsMessagesCreate_ok (type_ message)
                                             (who_sent message));
      reflexivity.
Qed.

Lemma echo_dropped_iff_witness :
  let db := Demo.session 100 [Demo.row 1 100 "Ola" "llm"] in
  let message := Demo.stamped "103" " Ola " "hum" in
  (ChatBot._should_store_message db 1 message (seconds 103) = false
   <-> is_echo db 1 message (seconds 103))
  /\ (is_echo db 1 message (seconds 103) ->
      @ChatBot.store_messages Demo.collaborators Demo.wall_clock 0 db 1
        [message] = Ok (db, 0%nat))
  /\ (~ is_echo db 1 message (seconds 103) ->
      @ChatBot.store_messages Demo.collaborators Demo.wall_clock 0 db 1
        [message]
      = if ChatBot.message_exists db 1 (seconds 103) (who_sent message)
        then Ok (db, 0%nat)
        else if ChatBot.ChatsMessagesCreate_ok (type_ message)
                                               (who_sent message)
             then Ok (with_event db 1 message (seconds 103), 0%nat)
             else Raise ValidationError).
Proof.
  intros db message.
  apply (@echo_dropped_iff Demo.collaborators Demo.wall_clock 0 0 db 1
           message (seconds 103)).
  - simpl. constructor; [intros [] | constructor].
  - reflexivity.
Defined.

(** C7, as stated, fails on an event that shares its chat, instant and
    sender tag with a stored row: the event is tagged ["usr"], so that
    none of the conditions of the echo guard holds and the guard accepts
    it, and yet the storing loop leaves the table without a row for it.
    It also fails on an event whose type is longer than 8 characters: the
    loop raises. *)
Lemma same_instant_event_is_not_stored :
  let db := Demo.session 450 [Demo.row 1 450 "Qual o preco?" "usr"] in
  let message := Demo.stamped "450" "E o prazo?" "usr" in
  who_sent message <> "hum"%string
  /\ ChatBot._should_store_message db 1 message (seconds 450) = true
  /\ @ChatBot.store_messages Demo.collaborators Demo.wall_clock 0 db 1
       [message] = Ok (db, 0%nat)
  /\ @ChatBot.store_messages Demo.collaborators Demo.wall_clock 0 db 1
       [Demo.of_kind "451" "locationMessage"] = Raise ValidationError.
Proof.
  cbv zeta. split; [discriminate|].
  split; [vm_compute; reflexivity|].
  split; vm_compute; reflexivity.
Qed.

(* ===================================================================== *)
(** ** The cooldown ([chatbot.py], [_is_human_cooldown_active])           *)
(* ===================================================================== *)

(** The first row in descending order of timestamps is a latest one. *)
Lemma latest_first (nf : bool) (l : list ChatBot.ChatsMessages) :
  l <> [] ->
  (forall r, In r l -> ChatBot.cm_sent_at r <> None) ->
  exists r t,
    hd_error (stable_sort (ChatBot.desc_leb nf) l) = Some r
    /\ In r l /\ ChatBot.cm_sent_at r = Some t
    /\ forall r' t', In r' l -> ChatBot.cm_sent_at r' = Some t' -> t' <= t.
Proof.
  induction l as [|x l IH]; [congruence|].
  intros _ NN. cbn [stable_sort]. rewrite hd_insert_sorted.
  destruct (ChatBot.cm_sent_at x) as [tx|] eqn:TX.
  2:{ exfalso. apply (NN x); [now left | exact TX]. }
  destruct l as [|y l'].
  - exists x, tx. simpl. repeat split; auto.
    intros r' t' [<-|[]] E. rewrite TX in E. injection E as <-. lia.
  - destruct IH as [r [t [Hh [Hi [Ht Hm]]]]]; [congruence | |].
    { intros r I. apply NN. now right. }
    destruct (stable_sort (ChatBot.desc_leb nf) (y :: l')) as [|z s] eqn:S;
      [discriminate|].
    injection Hh as ->.
    unfold ChatBot.desc_leb at 1. rewrite TX, Ht.
    destruct (Z.leb_spec t tx) as [L|L].
    + exists x, tx. repeat split; auto; [now left|].
      intros r' t' [<-|I] E.
      * rewrite TX in E. injection E as <-. lia.
      * specialize (Hm r' t' I E). lia.
    + exists r, t. repeat split; auto; [now right|].
      intros r' t' [<-|I] E.
      * rewrite TX in E. injection E as <-. lia.
      * exact (Hm r' t' I E).
Qed.

(** The decision of [_is_human_cooldown_active], from the rows. *)
Lemma cooldown_active (db : ChatBot.Session) (chat_id reference_time T : Z)
      (last_sender : string) (human : ChatBot.ChatsMessages) :
  In human (ChatBot.chats_messages db) ->
  ChatBot.cm_chat_id human = chat_id ->
  ChatBot.cm_who_sent human = "hum"%string ->
  ChatBot.cm_sent_at human = Some T ->
  (forall r, In r (ChatBot.chats_messages db) -> ChatBot.cm_sent_at r <> None) ->
  reference_time <= T + ChatBot.HUMAN_COOLDOWN ->
  ChatBot._is_human_cooldown_active db chat_id reference_time last_sender = true.
Proof.
  intros I C W S NN R. unfold ChatBot._is_human_cooldown_active.
  destruct (String.eqb last_sender "hum"); [reflexivity|].
  unfold ChatBot.get_last_message_from_sender,
    ChatBot.get_last_message_by_chat_id_and_sender.
  set (rows := filter _ (ChatBot.chats_messages db)).
  assert (IH : In human rows).
  { apply filter_In. split; [exact I|].
    rewrite C, W, Z.eqb_refl. reflexivity. }
  destruct (latest_first (ChatBot.nulls_first db) rows) as [r [t [Hh [_ [Ht Hm]]]]].
  - intros E. rewrite E in IH. exact IH.
  - intros r Ir. apply NN. apply filter_In in Ir. tauto.
  - rewrite Hh, Ht. specialize (Hm human T IH S).
    apply Z.leb_le. unfold ChatBot.HUMAN_COOLDOWN, seconds in *.
    destruct (Z.ltb_spec reference_time t); lia.
Qed.

Lemma create_rows (db db' : ChatBot.Session) (chat_id : Z) (text : string)
      (link : option string) (ty : string) (sent_at : Z) (who : string)
      (made : option ChatBot.ChatsMessages) :
  ChatBot.create db chat_id text link ty sent_at who = Ok (db', made) ->
  ChatBot.nulls_first db' = ChatBot.nulls_first db
  /\ exists added,
      ChatBot.chats_messages db' = ChatBot.chats_messages db ++ added
      /\ Forall (fun r => ChatBot.cm_sent_at r <> None) added.
Proof.
  unfold ChatBot.create.
  destruct (ChatBot.message_exists db chat_id sent_at who).
  - intros [= <- <-]. split; [reflexivity|]. exists []. now rewrite app_nil_r.
  - destruct (ChatBot.ChatsMessagesCreate_ok ty who); [|discriminate].
    intros [= <- <-]. split; [reflexivity|]. eexists. split; [reflexivity|].
    constructor; [discriminate | constructor].
Qed.

Lemma as_datetime_ok `{ChatBot.Collaborators} (clock : nat -> Z) (n n' : nat)
      (value : string) (t : Z) :
  ChatBot._as_datetime clock n value = Ok (t, n') ->
  (ChatBot.parse_timestamp value = Ok (Some t) /\ n' = n)
  \/ (ChatBot.parse_timestamp value = Ok None /\ t = clock n /\ n' = S n).
Proof.
  unfold ChatBot._as_datetime.
  destruct (ChatBot.parse_timestamp value) as [[t0|]|e]; simpl;
    [intros [= <- <-]; auto | intros [= <- <-]; auto | discriminate].
Qed.

Lemma store_messages_rows `{ChatBot.Collaborators} (clock : nat -> Z)
      (data : list InternalMessageModel) (n n' : nat)
      (db db' : ChatBot.Session) (chat_id : Z) :
  ChatBot.store_messages clock n db chat_id data = Ok (db', n') ->
  ChatBot.nulls_first db' = ChatBot.nulls_first db
  /\ exists added,
      ChatBot.chats_messages db' = ChatBot.chats_messages db ++ added
      /\ Forall (fun r => ChatBot.cm_sent_at r <> None) added.
Proof.
  revert n db. induction data as [|message rest IH]; intros n db.
  - intros [= <- <-]. split; [reflexivity|]. exists []. now rewrite app_nil_r.
  - cbn [ChatBot.store_messages]. intros E.
    apply bind_ok in E. destruct E as [[sent_at m] [_ E]].
    destruct (ChatBot._should_store_message db chat_id message sent_at);
      cbn [negb] in E.
    + apply bind_ok in E. destruct E as [[db1 made] [C E]]. cbn [fst] in E.
      apply IH in E. apply create_rows in C.
      destruct C as [N1 [a1 [R1 F1]]]. destruct E as [N2 [a2 [R2 F2]]].
      split; [congruence|]. exists (a1 ++ a2). split.
      * rewrite R2, R1. now rewrite app_assoc.
      * apply Forall_app. now split.
    + now apply IH in E.
Qed.

Lemma upsert_rows (db db' : ChatBot.Session) (ph sp : string) (t chat_id : Z) :
  ChatBot.upsert db ph sp t = (db', chat_id) ->
  ChatBot.nulls_first db' = ChatBot.nulls_first db
  /\ ChatBot.chats_messages db' = ChatBot.chats_messages db.
Proof.
  unfold ChatBot.upsert.
  destruct (find _ (ChatBot.chats db)); intros [= <- _]; split; reflexivity.
Qed.

(** C8, as the code has it.  [run] is called on a batch and gets past the
    storing of it.  At the cooldown check the chat holds a row of the
    human operator stamped [T], and the reference time computed from the
    last message of the batch is no later than [T] plus five minutes.
    Then [run] calls neither the graph nor the WhatsApp client; it returns
    the fixed advisory when the last message asks for the LLM, and the
    test reply when it does not.  A reference time before [T] is covered:
    the code lifts it to the time of the last human message, never below
    it. *)
Theorem human_cooldown_suppresses_llm `{ChatBot.Collaborators}
        (clock : nat -> Z) (db db1 db2 : ChatBot.Session)
        (batch : list InternalMessageModel) (last_message : InternalMessageModel)
        (t0 chat_id reference_time T : Z) (n0 n2 n3 : nat)
        (human : ChatBot.ChatsMessages) :
  ChatBot._as_datetime clock 0 (last_interacted_at last_message)
  = Ok (t0, n0) ->
  ChatBot.upsert db (phone last_message) (store_phone last_message) t0
  = (db1, chat_id) ->
  ChatBot.store_messages clock n0 db1 chat_id (batch ++ [last_message])
  = Ok (db2, n2) ->
  ChatBot._as_datetime clock n2 (last_interacted_at last_message)
  = Ok (reference_time, n3) ->
  (forall r, In r (ChatBot.chats_messages db) -> ChatBot.cm_sent_at r <> None) ->
  In human (ChatBot.chats_messages db2) ->
  ChatBot.cm_chat_id human = chat_id ->
  ChatBot.cm_who_sent human = "hum"%string ->
  ChatBot.cm_sent_at human = Some T ->
  reference_time <= T + ChatBot.HUMAN_COOLDOWN ->
  ChatBot.run clock db (batch ++ [last_message])
  = Ok {| ChatBot.r_response :=
            if use_llm last_message then ChatBot.HumanAdvisory
            else ChatBot.TestMessage;
          ChatBot.r_db := db2;
          ChatBot.r_effects := [] |}.
Proof.
  intros A0 Up St A2 NN I C W S R.
  unfold ChatBot.run. rewrite rev_app_distr. cbn [rev app].
  rewrite A0. cbn [Py.bind]. rewrite Up, St. cbn [Py.bind].
  rewrite A2. cbn [Py.bind].
  destruct (use_llm last_message); cbn [negb]; [|reflexivity].
  rewrite (cooldown_active db2 chat_id reference_time T
             (who_sent last_message) human); auto.
  apply upsert_rows in Up. destruct Up as [_ R1].
  apply store_messages_rows in St. destruct St as [_ [added [R2 F]]].
  intros r Ir. rewrite R2, R1 in Ir. apply in_app_iff in Ir.
  destruct Ir as [Ir|Ir]; [now apply NN|].
  rewrite Forall_forall in F. now apply F.
Qed.

Lemma human_cooldown_suppresses_llm_witness :
  @ChatBot.run Demo.collaborators Demo.wall_clock
    (Demo.session 200 [Demo.row 1 200 "Bom dia, sou o vendedor" "hum"])
    ([] ++ [Demo.stamped "450" "Qual o preco?" "usr"])
  = Ok {| ChatBot.r_response :=
            if use_llm (Demo.stamped "450" "Qual o preco?" "usr")
            then ChatBot.HumanAdvisory else ChatBot.TestMessage;
          ChatBot.r_db :=
            Demo.session 450
              [Demo.row 1 200 "Bom dia, sou o vendedor" "hum";
               Demo.row 2 450 "Qual o preco?" "usr"];
          ChatBot.r_effects := [] |}.
Proof.
  apply (@human_cooldown_suppresses_llm Demo.collaborators Demo.wall_clock
           (Demo.session 200 [Demo.row 1 200 "Bom dia, sou o vendedor" "hum"])
           (Demo.session 450 [Demo.row 1 200 "Bom dia, sou o vendedor" "hum"])
           (Demo.session 450
              [Demo.row 1 200 "Bom dia, sou o vendedor" "hum";
               Demo.row 2 450 "Qual o preco?" "usr"])
           [] (Demo.stamped "450" "Qual o preco?" "usr")
           (seconds 450) 1 (seconds 450) (seconds 200) 0%nat 0%nat 0%nat
           (Demo.row 1 200 "Bom dia, sou o vendedor" "hum")).
  - reflexivity.
  - vm_compute. reflexivity.
  - vm_compute. reflexivity.
  - reflexivity.
  - intros r [<-|[]]. discriminate.
  - now left.
  - reflexivity.
  - reflexivity.
  - reflexivity.
  - vm_compute. discriminate.
Defined.

(** C8, as stated, fails in two ways.  A human row is stored at second
    200.  A message of the operator arrives at second 450, inside the five
    minutes; the webhook maps such a message with the LLM switched off, and
    [run] answers with the test reply, not with the advisory.  A message of
    type ["locationMessage"] arrives at second 450: the storing loop raises
    before the cooldown is looked at, and [run] returns nothing. *)
Lemma cooldown_advisory_is_not_always_returned :
  let db := Demo.session 200 [Demo.row 1 200 "Bom dia" "hum"] in
  seconds 200 <= seconds 450 <= seconds 200 + ChatBot.HUMAN_COOLDOWN
  /\ option_map ChatBot.r_response
       (match @ChatBot.run Demo.collaborators Demo.wall_clock db
                [Demo.from_operator "450" "Ja respondo"] with
        | Ok r => Some r
        | Raise _ => None
        end)
     = Some ChatBot.TestMessage
  /\ @ChatBot.run Demo.collaborators Demo.wall_clock db
       [Demo.of_kind "450" "locationMessage"] = Raise ValidationError.
Proof.
  cbv zeta. split; [vm_compute; split; discriminate|].
  split; vm_compute; reflexivity.
Qed.

(* ===================================================================== *)
(** ** The debounce filter ([redis_services.py])                          *)
(* ===================================================================== *)

Section SortFacts.
Context {A : Type} (key : A -> Z).

Lemma insert_sorted_perm (leb : A -> A -> bool) (x : A) (l : list A) :
  Permutation (insert_sorted leb x l) (x :: l).
Proof.
  induction l as [|y r IH]; simpl; [reflexivity|].
  destruct (leb x y); [reflexivity|].
  rewrite IH. apply perm_swap.
Qed.

Lemma stable_sort_perm (leb : A -> A -> bool) (l : list A) :
  Permutation (stable_sort leb l) l.
Proof.
  induction l as [|x r IH]; simpl; [reflexivity|].
  rewrite insert_sorted_perm. now constructor.
Qed.

Lemma sort_by_perm (l : list A) : Permutation (sort_by key l) l.
Proof. apply stable_sort_perm. Qed.

Lemma insert_sorted_sorted (x : A) (l : list A) :
  StronglySorted (fun a b => key a <= key b) l ->
  StronglySorted (fun a b => key a <= key b)
                 (insert_sorted (fun a b => key a <=? key b) x l).
Proof.
  induction 1 as [|y r S IH F]; simpl.
  - constructor; constructor.
  - destruct (Z.leb_spec (key x) (key y)) as [L|L].
    + constructor; [now constructor|].
      constructor; [exact L|].
      rewrite Forall_forall in *. intros z I. specialize (F z I). lia.
    + constructor; [exact IH|].
      rewrite Forall_forall in *. intros z I.
      apply (Permutation_in _ (insert_sorted_perm _ x r)) in I.
      destruct I as [<-|I]; [lia | now apply F].
Qed.

Lemma sort_by_sorted (l : list A) :
  StronglySorted (fun a b => key a <= key b) (sort_by key l).
Proof.
  unfold sort_by. induction l as [|x r IH]; simpl; [constructor|].
  now apply insert_sorted_sorted.
Qed.

Lemma last_item_sorted (l : list A) :
  StronglySorted (fun a b => key a <= key b) l -> l <> [] ->
  exists e, last_item l = Ok e /\ In e l
            /\ forall x, In x l -> key x <= key e.
Proof.
  unfold last_item. induction 1 as [|y r S IH F]; [congruence|]. intros _.
  destruct r as [|z r'].
  - exists y. simpl. repeat split; auto. intros x [<-|[]]. lia.
  - destruct IH as [e [E [I M]]]; [congruence|].
    exists e. repeat split.
    + simpl in *. destruct (rev r' ++ [z]) eqn:R.
      * destruct (rev r'); discriminate.
      * simpl. exact E.
    + now right.
    + intros x [<-|Ix]; [|now apply M].
      rewrite Forall_forall in F. now apply F.
Qed.

End SortFacts.

Lemma max_arrival_spec (g : list (InternalMessageModel * Z)) :
  g <> [] ->
  (exists e, In e g /\ snd e = max_arrival g)
  /\ forall x, In x g -> snd x <= max_arrival g.
Proof.
  destruct g as [|e r]; [congruence|]. intros _. unfold max_arrival.
  induction r as [|y r IH]; simpl.
  - split; [exists e; auto|]. intros x [<-|[]]. lia.
  - destruct IH as [[m [Im Em]] M]. split.
    + destruct (Z.max_spec (snd y)
                  (fold_right (fun x acc => Z.max (snd x) acc) (snd e) r))
        as [[_ ->]|[_ ->]].
      * exists m. split; [|exact Em]. simpl in Im. tauto.
      * exists y. auto.
    + intros x [<-|[<-|I]].
      * specialize (M e (or_introl eq_refl)). lia.
      * lia.
      * specialize (M x (or_intror I)). lia.
Qed.

(** The contribution of a group: everything, sorted, or nothing. *)
Lemma eligible_batch_spec (cut : Z) (g : list (InternalMessageModel * Z)) :
  g <> [] ->
  last_item (sort_by snd g) <> Raise IndexError
  /\ (max_arrival g < cut -> eligible_batch cut g = map fst (sort_by snd g))
  /\ (cut <= max_arrival g -> eligible_batch cut g = []).
Proof.
  intros NE.
  assert (NS : sort_by snd g <> []).
  { intros E. pose proof (sort_by_perm snd g) as P. rewrite E in P.
    apply Permutation_nil in P. contradiction. }
  destruct (last_item_sorted snd (sort_by snd g) (sort_by_sorted snd g) NS)
    as [e [E [I M]]].
  destruct (max_arrival_spec g NE) as [[m [Im Em]] Mx].
  assert (snd e = max_arrival g) as K.
  { apply (Permutation_in _ (sort_by_perm snd g)) in I.
    specialize (Mx e I).
    apply (Permutation_in _ (Permutation_sym (sort_by_perm snd g))) in Im.
    specialize (M m Im). lia. }
  unfold eligible_batch. rewrite E, K. repeat split.
  - discriminate.
  - intros L. apply Z.ltb_lt in L. now rewrite L.
  - intros L. apply Z.ltb_ge in L. now rewrite L.
Qed.

Section FilterFacts.
Context `{Json}.

Lemma filter_phones_ok (cut : Z)
      (inner : dict (list (InternalMessageModel * Z)))
      (acc : list InternalMessageModel) :
  (forall b l, In (b, l) inner -> l <> []) ->
  RedisService.filter_phones inner cut acc
  = Ok (acc ++ flat_map (fun e => eligible_batch cut (snd e)) inner).
Proof.
  revert acc. induction inner as [|[b l] r IH]; intros acc NE; simpl.
  - now rewrite app_nil_r.
  - assert (L : l <> []) by (apply (NE b); now left).
    destruct (eligible_batch_spec cut l L) as [NR _].
    unfold eligible_batch.
    destruct (last_item (sort_by snd l)) as [newest|e] eqn:E; simpl.
    + rewrite IH by (intros b' l' I; apply (NE b'); now right).
      destruct (snd newest <? cut); [now rewrite app_assoc | reflexivity].
    + exfalso. unfold last_item in E.
      destruct (rev (sort_by snd l)); [|discriminate].
      injection E as <-. now apply NR.
Qed.

Lemma filter_stores_ok (cut : Z) (g : RedisService.grouped)
      (acc : list InternalMessageModel) :
  (forall a inner, In (a, inner) g -> forall b l, In (b, l) inner -> l <> []) ->
  RedisService.filter_stores g cut acc
  = Ok (acc ++ flat_map
                 (fun s => flat_map (fun e => eligible_batch cut (snd e)) (snd s))
                 g).
Proof.
  revert acc. induction g as [|[a inner] r IH]; intros acc NE; simpl.
  - now rewrite app_nil_r.
  - rewrite filter_phones_ok by (apply (NE a); now left). simpl.
    rewrite IH by (intros a' i' I; apply (NE a'); now right).
    now rewrite app_assoc.
Qed.

End FilterFacts.

Lemma In_dict_set {V} (k k' : string) (v v' : V) (d : dict V) :
  In (k', v') (dict_set k v d) -> (k', v') = (k, v) \/ In (k', v') d.
Proof.
  induction d as [|[k0 v0] r IH]; simpl.
  - intros [E|[]]. left. now symmetry.
  - destruct (String.eqb k0 k); simpl.
    + intros [E|I]; [left; now symmetry | right; now right].
    + intros [E|I]; [right; now left|].
      destruct (IH I) as [E|I']; [now left | right; now right].
Qed.

Lemma flat_map_nil {A B} (f : A -> list B) (l : list A) :
  (forall x, In x l -> f x = []) -> flat_map f l = [].
Proof.
  induction l as [|x r IH]; simpl; [reflexivity|]. intros E.
  rewrite (E x) by now left. apply IH. intros y I. apply E. now right.
Qed.

Lemma filter_flat_map {A B} (p : B -> bool) (f : A -> list B) (l : list A) :
  filter p (flat_map f l) = flat_map (fun x => filter p (f x)) l.
Proof.
  induction l as [|x r IH]; simpl; [reflexivity|].
  now rewrite filter_app, IH.
Qed.

Lemma filter_none {A} (p : A -> bool) (l : list A) :
  (forall x, In x l -> p x = false) -> filter p l = [].
Proof.
  induction l as [|x r IH]; simpl; [reflexivity|]. intros E.
  rewrite (E x) by now left. apply IH. intros y I. apply E. now right.
Qed.

Lemma filter_all {A} (p : A -> bool) (l : list A) :
  (forall x, In x l -> p x = true) -> filter p l = l.
Proof.
  induction l as [|x r IH]; simpl; [reflexivity|]. intros E.
  rewrite (E x) by now left. f_equal. apply IH. intros y I. apply E. now right.
Qed.

(** Over a dict, a function that is empty off one key sees that key only. *)
Lemma flat_map_pick {V B} (k0 : string) (f : string * V -> list B)
      (d : dict V) :
  NoDup (dict_keys d) ->
  (forall k v, In (k, v) d -> k <> k0 -> f (k, v) = []) ->
  flat_map f d
  = match dict_get k0 d with Some v => f (k0, v) | None => [] end.
Proof.
  induction d as [|[k v] r IH]; simpl; [reflexivity|].
  intros ND E. inversion ND as [|? ? NI ND']; subst.
  destruct (String.eqb_spec k k0) as [->|N].
  - rewrite flat_map_nil; [apply app_nil_r|].
    intros [k v'] I. apply E; [now right|].
    intros ->. apply NI. change (In (fst (k0, v')) (map fst r)).
    now apply in_map.
  - rewrite (E k v) by (auto; now left). simpl.
    apply IH; [exact ND'|]. intros k' v' I. apply E. now right.
Qed.

Lemma eligible_batch_incl (cut : Z) (l : list (InternalMessageModel * Z))
      (m : InternalMessageModel) :
  In m (eligible_batch cut l) -> In m (map fst l).
Proof.
  unfold eligible_batch.
  destruct (last_item (sort_by snd l)); [|intros []].
  destruct (snd a <? cut); [|intros []].
  intros I. apply in_map_iff in I. destruct I as [e [E I]].
  apply in_map_iff. exists e. split; [exact E|].
  now apply (Permutation_in _ (sort_by_perm snd l)).
Qed.

Section GroupFacts.
Context `{Json}.

Lemma lookup2_append (g : RedisService.grouped) (a b a' b' : string)
      (x : InternalMessageModel * Z) :
  lookup2 (RedisService.grouped_append g a b x) a' b'
  = if String.eqb a' a && String.eqb b' b
    then lookup2 g a b ++ [x] else lookup2 g a' b'.
Proof.
  unfold lookup2, RedisService.grouped_append.
  destruct (String.eqb_spec a' a) as [->|Na]; simpl.
  - rewrite dict_get_set_eq.
    destruct (String.eqb_spec b' b) as [->|Nb].
    + rewrite dict_get_set_eq. now destruct (dict_get a g).
    + rewrite dict_get_set_ne by congruence. now destruct (dict_get a g).
  - now rewrite dict_get_set_ne by congruence.
Qed.

Lemma grouped_wf_append (g : RedisService.grouped) (a b : string)
      (x : InternalMessageModel * Z) :
  grouped_wf g -> grouped_wf (RedisService.grouped_append g a b x).
Proof.
  intros [ND W]. unfold RedisService.grouped_append. split.
  - now apply NoDup_keys_set.
  - intros a' inner' I. apply In_dict_set in I. destruct I as [E|I].
    2:{ now apply (W a' inner'). }
    injection E as -> ->.
    assert (NDi : NoDup (dict_keys
                           (match dict_get a g with Some i => i | None => [] end))
                  /\ forall b' l', In (b', l')
                       (match dict_get a g with Some i => i | None => [] end)
                       -> l' <> []).
    { destruct (dict_get a g) as [i|] eqn:G.
      - apply W with a. now apply dict_get_In.
      - split; [constructor | intros ? ? []]. }
    destruct NDi as [NDi NEi]. split.
    + now apply NoDup_keys_set.
    + intros b' l' I. apply In_dict_set in I. destruct I as [E|I].
      * injection E as -> ->. now destruct (match dict_get b _ with Some l => l | None => [] end).
      * now apply (NEi b').
Qed.

Lemma group_of_snoc (sp ph : string) (entries : list (InternalMessageModel * Z))
      (x : InternalMessageModel * Z) :
  group_of sp ph (entries ++ [x])
  = group_of sp ph entries
    ++ (if same_conversation sp ph (fst x) then [x] else []).
Proof.
  unfold group_of. rewrite filter_app. simpl.
  now destruct (same_conversation sp ph (fst x)).
Qed.

Lemma group_messages_from_spec (scan : list (string * Z)) :
  forall (g : RedisService.grouped) (seen es : list (InternalMessageModel * Z)),
    grouped_wf g ->
    (forall a b, lookup2 g a b = group_of a b seen) ->
    decode scan = Some es ->
    exists g',
      RedisService.group_messages_from g scan = Ok g'
      /\ grouped_wf g'
      /\ forall a b, lookup2 g' a b = group_of a b (seen ++ es).
Proof.
  induction scan as [|[raw score] rest IH]; intros g seen es W L D; simpl in *.
  - injection D as <-. exists g. rewrite app_nil_r. auto.
  - destruct (json_loads raw) as [item|]; [|discriminate].
    destruct (decode rest) as [l|] eqn:DR; [|discriminate].
    injection D as <-.
    destruct (IH (RedisService.grouped_append g (store_phone item)
                    (phone item) (item, score))
                 (seen ++ [(item, score)]) l) as [g' [E [W' L']]].
    + now apply grouped_wf_append.
    + intros a b. rewrite lookup2_append, group_of_snoc, !L.
      unfold same_conversation. cbn [fst].
      rewrite (String.eqb_sym a), (String.eqb_sym b).
      destruct (String.eqb_spec (store_phone item) a) as [<-|Na]; simpl;
        [|now rewrite app_nil_r].
      destruct (String.eqb_spec (phone item) b) as [<-|Nb];
        [reflexivity | now rewrite app_nil_r].
    + reflexivity.
    + exists g'. rewrite <- app_assoc in L'. auto.
Qed.

Lemma group_messages_decodes (scan : list (string * Z)) :
  forall g g', RedisService.group_messages_from g scan = Ok g' ->
               exists es, decode scan = Some es.
Proof.
  induction scan as [|[raw score] rest IH]; intros g g' E; simpl in *.
  - now exists [].
  - destruct (json_loads raw) as [item|]; [|discriminate].
    apply IH in E. destruct E as [es ->]. eauto.
Qed.

(** The result of [filter_messages] on a grouping of [entries], cut down
    to one conversation, is what that conversation's group contributes. *)
Lemma filter_messages_group (g : RedisService.grouped)
      (entries : list (InternalMessageModel * Z)) (cut : Z) (sp ph : string) :
  grouped_wf g ->
  (forall a b, lookup2 g a b = group_of a b entries) ->
  exists out,
    RedisService.filter_messages g cut = Ok out
    /\ filter (same_conversation sp ph) out
       = eligible_batch cut (group_of sp ph entries).
Proof.
  intros [ND W] L. unfold RedisService.filter_messages.
  rewrite filter_stores_ok by (intros a inner I; now apply (W a inner)).
  eexists. split; [reflexivity|]. cbn [app].
  assert (K : forall a inner b l m,
             In (a, inner) g -> In (b, l) inner ->
             In m (eligible_batch cut l) ->
             store_phone m = a /\ phone m = b).
  { intros a inner b l m Ia Ib Im.
    assert (l = group_of a b entries) as ->.
    { rewrite <- L. unfold lookup2.
      rewrite (In_dict_get a inner g ND Ia).
      now rewrite (In_dict_get b l inner (proj1 (W a inner Ia)) Ib). }
    apply eligible_batch_incl in Im. apply in_map_iff in Im.
    destruct Im as [e [<- Ie]]. apply filter_In in Ie.
    destruct Ie as [_ S]. unfold same_conversation in S.
    apply andb_true_iff in S. destruct S as [S1 S2].
    apply String.eqb_eq in S1, S2. auto. }
  rewrite filter_flat_map.
  rewrite (flat_map_pick (V := dict (list (InternalMessageModel * Z))) sp) by
    (auto; intros a inner Ia Na; cbn [snd]; rewrite filter_flat_map;
     apply flat_map_nil; intros [b l] Ib; apply filter_none; intros m Im;
     destruct (K a inner b l m Ia Ib Im) as [S _]; unfold same_conversation;
     apply String.eqb_neq in Na; rewrite S, Na; reflexivity).
  rewrite <- L. unfold lookup2.
  destruct (dict_get sp g) as [inner|] eqn:G; [|reflexivity].
  apply dict_get_In in G. cbn [snd]. rewrite filter_flat_map.
  rewrite (flat_map_pick ph) by
    (try apply (W sp inner G); intros b l Ib Nb; apply filter_none;
     intros m Im; destruct (K sp inner b l m G Ib Im) as [_ S];
     unfold same_conversation; apply String.eqb_neq in Nb;
     rewrite S, Nb; apply andb_false_r).
  destruct (dict_get ph inner) as [l|] eqn:P; [|reflexivity].
  apply dict_get_In in P. cbn [snd]. apply filter_all. intros m Im.
  destruct (K sp inner ph l m G P Im) as [S1 S2]. unfold same_conversation.
  now rewrite S1, S2, !String.eqb_refl.
Qed.

End GroupFacts.

(** C1, as the code has it.  When the scan succeeds, [time_search] returns
    a list in which every conversation group of the scan appears either
    whole or not at all.  It appears, with all its events in ascending
    order of arrival, when the newest of them is strictly older than the
    cut: [now - max arrival > window].  It is absent when
    [now - max arrival <= window], the case of equality included. *)
Theorem quiet_groups_are_returned `{Json}
        (self : RedisService.t) (h : Redis.client) (srv : Redis.server)
        (now time_threshold_seconds : Z)
        (entries : list (InternalMessageModel * Z)) :
  RedisDatabase.handler (RedisService.redis_repository self) = Some h ->
  Redis.online srv = true ->
  decode (Redis.webhook srv) = Some entries ->
  exists out,
    RedisService.time_search self srv now time_threshold_seconds = Ok out
    /\ forall sp ph,
        group_of sp ph entries <> [] ->
        (seconds time_threshold_seconds < now - max_arrival (group_of sp ph entries) ->
         exists batch,
           Permutation batch (group_of sp ph entries)
           /\ ascending batch
           /\ filter (same_conversation sp ph) out = map fst batch)
        /\ (now - max_arrival (group_of sp ph entries) <= seconds time_threshold_seconds ->
            filter (same_conversation sp ph) out = []).
Proof.
  intros Hh On D.
  destruct (group_messages_from_spec (Redis.webhook srv) [] [] entries)
    as [g [G [W L]]]; auto.
  { split; [constructor | intros ? ? []]. }
  cbn [app] in L.
  set (cut := now - seconds time_threshold_seconds).
  destruct (filter_messages_group g entries cut EmptyString EmptyString W L)
    as [out [F _]].
  exists out. split.
  - unfold RedisService.time_search, RedisService.retrieve_messages,
      RedisDatabase.retrieve_messages, RedisDatabase.get_handler,
      Redis.command, RedisService.group_messages.
    rewrite Hh, On. cbn [Py.bind]. rewrite G. cbn [Py.bind]. exact F.
  - intros sp ph NE.
    destruct (filter_messages_group g entries cut sp ph W L) as [out' [F' E]].
    rewrite F in F'. injection F' as <-.
    destruct (eligible_batch_spec cut (group_of sp ph entries) NE)
      as [_ [Quiet Busy]].
    rewrite E. split.
    + intros Q. exists (sort_by snd (group_of sp ph entries)).
      repeat split.
      * apply sort_by_perm.
      * apply sort_by_sorted.
      * apply Quiet. unfold cut. lia.
    + intros Q. apply Busy. unfold cut. lia.
Qed.

Lemma quiet_groups_are_returned_witness :
  exists out,
    @RedisService.time_search Demo.codec Demo.database
      (Demo.up [(Demo.dumps Demo.A, seconds 0); (Demo.dumps Demo.B, seconds 1);
                (Demo.dumps Demo.A', seconds 2)])
      (seconds 65) 60 = Ok out
    /\ forall sp ph,
        group_of sp ph
          [(Demo.A, seconds 0); (Demo.B, seconds 1); (Demo.A', seconds 2)] <> [] ->
        (seconds 60 < seconds 65 - max_arrival
           (group_of sp ph
              [(Demo.A, seconds 0); (Demo.B, seconds 1); (Demo.A', seconds 2)]) ->
         exists batch,
           Permutation batch
             (group_of sp ph
                [(Demo.A, seconds 0); (Demo.B, seconds 1); (Demo.A', seconds 2)])
           /\ ascending batch
           /\ filter (same_conversation sp ph) out = map fst batch)
        /\ (seconds 65 - max_arrival
              (group_of sp ph
                 [(Demo.A, seconds 0); (Demo.B, seconds 1); (Demo.A', seconds 2)])
            <= seconds 60 ->
            filter (same_conversation sp ph) out = []).
Proof.
  apply (@quiet_groups_are_returned Demo.codec Demo.database Demo.client
           (Demo.up [(Demo.dumps Demo.A, seconds 0); (Demo.dumps Demo.B, seconds 1);
                     (Demo.dumps Demo.A', seconds 2)])
           (seconds 65) 60
           [(Demo.A, seconds 0); (Demo.B, seconds 1); (Demo.A', seconds 2)]);
    reflexivity.
Defined.

(** Scenario 1 of the design document: three seconds after the first
    message nothing is returned; after 65 seconds the two messages of the
    first conversation come out in their order of arrival. *)
Example scenario_debounce :
  @RedisService.time_search Demo.codec Demo.database
    (Demo.up [(Demo.dumps Demo.A, seconds 0); (Demo.dumps Demo.B, seconds 1);
              (Demo.dumps Demo.A', seconds 2)])
    (seconds 3) 60 = Ok []
  /\ @RedisService.time_search Demo.codec Demo.database
       (Demo.up [(Demo.dumps Demo.A, seconds 0); (Demo.dumps Demo.B, seconds 1);
                 (Demo.dumps Demo.A', seconds 2)])
       (seconds 65) 60 = Ok [Demo.A; Demo.A'; Demo.B].
Proof. split; vm_compute; reflexivity. Qed.

(** C1, as stated, fails on the boundary: a group whose newest event is
    exactly one window old satisfies [now - max arrival >= window] and is
    not returned. *)
Lemma boundary_group_is_held_back :
  seconds 60 - max_arrival [(Demo.A, seconds 0)] >= seconds 60
  /\ group_of Demo.store Demo.alice [(Demo.A, seconds 0)] = [(Demo.A, seconds 0)]
  /\ @decode Demo.codec [(Demo.dumps Demo.A, seconds 0)] = Some [(Demo.A, seconds 0)]
  /\ @RedisService.time_search Demo.codec Demo.database
       (Demo.up [(Demo.dumps Demo.A, seconds 0)]) (seconds 60) 60 = Ok [].
Proof.
  repeat split; vm_compute; congruence.
Qed.

(* ===================================================================== *)
(** ** The consumer loop ([consumer.py]): the phases of a cycle           *)
(* ===================================================================== *)

Lemma dict_mem_set {V} (k k' : string) (v : V) (d : dict V) :
  dict_mem k' (dict_set k v d) = String.eqb k k' || dict_mem k' d.
Proof.
  unfold dict_mem. destruct (String.eqb_spec k k') as [->|N].
  - now rewrite dict_get_set_eq.
  - now rewrite dict_get_set_ne.
Qed.

Lemma dict_mem_true {V} (k : string) (d : dict V) :
  dict_mem k d = true <-> exists v, dict_get k d = Some v.
Proof.
  unfold dict_mem. destruct (dict_get k d) as [v|].
  - split; eauto.
  - split; [discriminate | intros [v E]; discriminate].
Qed.

(** *** Buffering the scan *)

Lemma collect_spec (tasks : dict nat) (messages : list InternalMessageModel) :
  forall key_list key_filter md key_list' md',
    Consumer.collect tasks messages key_list key_filter md = (key_list', md') ->
    NoDup key_list ->
    (forall k, In k key_list <-> dict_mem k key_filter = true) ->
    (forall k, In k key_list ->
               dict_mem k tasks = false /\ dict_mem k md = true) ->
    NoDup (dict_keys md) ->
    NoDup key_list'
    /\ (forall k, In k key_list' ->
                  dict_mem k tasks = false /\ dict_mem k md' = true)
    /\ NoDup (dict_keys md')
    /\ (forall k, dict_mem k tasks = true -> dict_get k md' = dict_get k md).
Proof.
  induction messages as [|message rest IH];
    intros kl kf md kl' md' E ND F P NM; cbn [Consumer.collect] in E.
  - injection E as <- <-. auto.
  - set (ck := Consumer.composite_key_of message) in *.
    destruct (dict_mem ck tasks) eqn:T; [now apply (IH _ _ _ _ _ E)|].
    apply IH in E.
    + destruct E as [A [B [C D]]].
      split; [exact A|]. split; [exact B|]. split; [exact C|].
      intros k Tk. rewrite (D k Tk). apply dict_get_set_ne.
      intros <-. congruence.
    + destruct (dict_mem ck kf) eqn:K; cbn [negb]; [exact ND|].
      apply NoDup_snoc; [exact ND|]. intros I. apply F in I. congruence.
    + intros k. destruct (dict_mem ck kf) eqn:K; cbn [negb]; [apply F|].
      rewrite in_app_iff, dict_mem_set, F. simpl.
      destruct (String.eqb_spec ck k) as [->|N]; simpl.
      * split; auto.
      * split; [intros [X|[X|[]]]; congruence | auto].
    + intros k I. rewrite dict_mem_set.
      assert (I' : In k kl \/ k = ck).
      { destruct (dict_mem ck kf); cbn [negb] in I; [now left|].
        apply in_app_iff in I. simpl in I. destruct I as [I|[I|[]]]; auto. }
      destruct I' as [I'| ->].
      * destruct (P k I') as [P1 P2]. rewrite P2, orb_true_r. auto.
      * rewrite String.eqb_refl. auto.
    + now apply NoDup_keys_set.
Qed.

(** *** Handing keys to the pool *)

Lemma nth_error_snoc {A} (l : list A) (x : A) (i : nat) (y : A) :
  nth_error (l ++ [x]) i = Some y ->
  (nth_error l i = Some y) \/ (i = List.length l /\ y = x).
Proof.
  intros E. destruct (Nat.lt_ge_cases i (List.length l)) as [L|L].
  - left. now rewrite nth_error_app1 in E.
  - right. rewrite nth_error_app2 in E by exact L.
    destruct (i - List.length l)%nat as [|d] eqn:D; simpl in E.
    + injection E as <-. split; [lia | reflexivity].
    + destruct d; discriminate.
Qed.

Lemma nth_error_snoc_old {A} (l : list A) (x : A) (i : nat) (y : A) :
  nth_error l i = Some y -> nth_error (l ++ [x]) i = Some y.
Proof.
  intros E. rewrite nth_error_app1; [exact E|].
  apply nth_error_Some. congruence.
Qed.

Lemma nth_error_snoc_new {A} (l : list A) (x : A) :
  nth_error (l ++ [x]) (List.length l) = Some x.
Proof.
  rewrite nth_error_app2 by lia. now rewrite Nat.sub_diag.
Qed.


Lemma submit_keys_spec (workers : Z) (key_list : list string) :
  forall st st',
    Consumer.submit_keys workers key_list st = Ok st' ->
    NoDup key_list ->
    (forall k, In k key_list -> dict_mem k (Consumer.tasks st) = false) ->
    well_formed st -> consistent st ->
    well_formed st' /\ consistent st'
    /\ Consumer.tries st' = Consumer.tries st
    /\ Consumer.messages_dict st' = Consumer.messages_dict st
    /\ (forall f w, nth_error (Consumer.pool st) f = Some w ->
                    nth_error (Consumer.pool st') f = Some w)
    /\ (forall f w, nth_error (Consumer.pool st') f = Some w ->
                    nth_error (Consumer.pool st) f = Some w
                    \/ (nth_error (Consumer.pool st) f = None
                        /\ Consumer.w_state w = Consumer.Running)).
Proof.
  induction key_list as [|ck rest IH]; intros st st' E ND F WF C;
    cbn [Consumer.submit_keys] in E.
  - injection E as <-. conjs; auto.
  - destruct (dict_len (Consumer.tasks st) <? workers).
    2:{ injection E as <-. conjs; auto. }
    apply bind_ok in E. destruct E as [batch [B E]].
    unfold subscript in B.
    destruct (dict_get ck (Consumer.messages_dict st)) as [b|] eqn:M;
      [|discriminate].
    injection B as ->.
    inversion ND as [|? ? NI ND']; subst.
    assert (T : dict_mem ck (Consumer.tasks st) = false) by (apply F; now left).
    assert (Tg : dict_get ck (Consumer.tasks st) = None)
      by now apply dict_mem_false.
    destruct WF as [W1 [W2 W3]]. destruct C as [C1 [C2 [C3 C4]]].
    apply IH in E; auto.
    + cbn [Consumer.pool Consumer.tasks Consumer.tries Consumer.messages_dict] in E.
      destruct E as [WF' [C' [Tr [Md [Old New]]]]].
      conjs; auto.
      * intros f w I. apply Old. now apply nth_error_snoc_old.
      * intros f w I. destruct (New f w I) as [I'|[I' R]].
        -- apply nth_error_snoc in I'. destruct I' as [I'|[-> ->]]; [now left|].
           right. split; [|reflexivity]. apply nth_error_None. lia.
        -- right. split; [|exact R].
           apply nth_error_None. apply nth_error_None in I'.
           rewrite length_app in I'. lia.
    + intros k I. cbn [Consumer.tasks]. rewrite dict_mem_set.
      rewrite (F k) by now right.
      destruct (String.eqb_spec ck k) as [->|N]; [contradiction | reflexivity].
    + unfold well_formed. cbn. conjs; auto. now apply NoDup_keys_set.
    + unfold consistent.
      cbn [Consumer.pool Consumer.tasks Consumer.tries Consumer.messages_dict].
      conjs.
      * intros k f G.
        destruct (String.eqb_spec ck k) as [->|N].
        -- rewrite dict_get_set_eq in G. injection G as <-.
           eexists. split; [apply nth_error_snoc_new|]. cbn. auto.
        -- rewrite dict_get_set_ne in G by exact N.
           destruct (C1 k f G) as [w [P [K Mw]]].
           exists w. split; [now apply nth_error_snoc_old | auto].
      * intros f w I R. apply nth_error_snoc in I.
        destruct I as [I|[-> ->]].
        -- pose proof (C2 f w I R) as G.
           rewrite dict_get_set_ne; [exact G|].
           intros ->. congruence.
        -- cbn. apply dict_get_set_eq.
      * intros k n G. destruct (C3 k n G) as [f [w [Tk [P S]]]].
        exists f, w. conjs; auto.
        -- rewrite dict_get_set_ne; [exact Tk|].
           intros ->. congruence.
        -- now apply nth_error_snoc_old.
      * apply Forall_app. split; [exact C4|].
        constructor; [exact T | constructor].
Qed.

Lemma buffer_and_submit_spec (workers : Z)
      (messages : list InternalMessageModel) (st st1 : Consumer.state) :
  Consumer.buffer_and_submit workers messages st = Ok st1 ->
  well_formed st -> consistent st ->
  well_formed st1 /\ consistent st1
  /\ Consumer.tries st1 = Consumer.tries st
  /\ (forall f w, nth_error (Consumer.pool st) f = Some w ->
                  nth_error (Consumer.pool st1) f = Some w)
  /\ (forall f w, nth_error (Consumer.pool st1) f = Some w ->
                  nth_error (Consumer.pool st) f = Some w
                  \/ (nth_error (Consumer.pool st) f = None
                      /\ Consumer.w_state w = Consumer.Running)).
Proof.
  unfold Consumer.buffer_and_submit.
  destruct (Consumer.collect (Consumer.tasks st) messages [] []
              (Consumer.messages_dict st)) as [key_list buffered] eqn:Co.
  intros E [W1 [W2 W3]] [C1 [C2 [C3 C4]]].
  apply collect_spec in Co;
    [ | constructor
      | intros k; simpl; split; [tauto | discriminate]
      | intros k []
      | exact W3 ].
  destruct Co as [NK [PK [NB Keep]]].
  apply submit_keys_spec in E; auto.
  - cbn [Consumer.set_messages_dict Consumer.pool Consumer.tries] in E.
    destruct E as [WF' [C' [Tr [_ [Old New]]]]]. conjs; auto.
  - intros k I. now apply PK.
  - unfold well_formed. cbn. auto.
  - unfold consistent. cbn. conjs; auto.
    intros k f G. destruct (C1 k f G) as [w [P [K M]]].
    exists w. conjs; auto. rewrite Keep; [exact M|].
    apply dict_mem_true. eauto.
Qed.

(** *** The worker threads *)

Lemma advance_from_back (c : nat -> option Consumer.outcome)
      (p : list Consumer.work_item) :
  forall i f w',
    nth_error (Consumer.advance_from i c p) f = Some w' ->
    exists w, nth_error p f = Some w /\ evolves w w'.
Proof.
  induction p as [|x r IH]; intros i f w' E; simpl in E.
  - destruct f; discriminate.
  - destruct f as [|f]; simpl in *.
    + injection E as <-. exists x. split; [reflexivity|].
      unfold evolves.
      destruct (Consumer.w_state x) eqn:S; [destruct (c i)|]; cbn; auto.
    + now apply (IH (S i)).
Qed.

Lemma advance_from_forth (c : nat -> option Consumer.outcome)
      (p : list Consumer.work_item) :
  forall i f w,
    nth_error p f = Some w ->
    exists w', nth_error (Consumer.advance_from i c p) f = Some w'
               /\ evolves w w'.
Proof.
  intros i f w E.
  destruct (nth_error (Consumer.advance_from i c p) f) as [w'|] eqn:A.
  - exists w'. split; [reflexivity|].
    apply advance_from_back in A. destruct A as [w0 [E0 Ev]]. congruence.
  - exfalso. apply nth_error_None in A.
    assert (L : forall q j, List.length (Consumer.advance_from j c q)
                            = List.length q).
    { induction q; intros j; simpl; [reflexivity | now rewrite IHq]. }
    rewrite L in A. apply nth_error_None in A. congruence.
Qed.

Lemma advance_spec (c : nat -> option Consumer.outcome) (st : Consumer.state) :
  well_formed st -> consistent st ->
  well_formed (Consumer.advance c st) /\ consistent (Consumer.advance c st).
Proof.
  intros WF [C1 [C2 [C3 C4]]]. split; [exact WF|].
  unfold consistent, Consumer.advance. cbn. conjs.
  - intros k f G. destruct (C1 k f G) as [w [P [K M]]].
    destruct (advance_from_forth c _ 0%nat f w P) as [w' [P' [E1 [E2 [E3 E4]]]]].
    exists w'. conjs; congruence.
  - intros f w' P' R. apply advance_from_back in P'.
    destruct P' as [w [P [E1 [E2 [E3 E4]]]]].
    rewrite E1. apply C2; [exact P|]. destruct E4; congruence.
  - intros k n G. destruct (C3 k n G) as [f [w [T [P S]]]].
    destruct (advance_from_forth c _ 0%nat f w P) as [w' [P' [E1 [E2 [E3 E4]]]]].
    exists f, w'. conjs; auto. destruct E4; congruence.
  - apply Forall_forall. intros w' I. apply In_nth_error in I.
    destruct I as [f P']. apply advance_from_back in P'.
    destruct P' as [w [P [E1 [E2 [E3 E4]]]]]. rewrite E2.
    rewrite Forall_forall in C4. apply C4. now apply nth_error_In in P.
Qed.

(** *** Looking at the futures *)

Lemma reap_spec (keys : list string) :
  forall st done_tasks st' done_tasks',
    Consumer.reap keys st done_tasks = Ok (st', done_tasks') ->
    well_formed st -> consistent st ->
    Consumer.pool st' = Consumer.pool st
    /\ Consumer.tasks st' = Consumer.tasks st
    /\ Consumer.messages_dict st' = Consumer.messages_dict st
    /\ well_formed st' /\ consistent st'
    /\ (forall k, In k done_tasks' <->
          In k done_tasks
          \/ (In k keys
              /\ exists f w, dict_get k (Consumer.tasks st) = Some f
                   /\ nth_error (Consumer.pool st) f = Some w
                   /\ Consumer.w_state w
                      = Consumer.Finished (Consumer.Returned true)))
    /\ (NoDup keys -> NoDup done_tasks ->
        (forall k, In k done_tasks -> ~ In k keys) -> NoDup done_tasks').
Proof.
  induction keys as [|ck rest IH]; intros st dn st' dn' E WF C;
    cbn [Consumer.reap] in E.
  - injection E as <- <-. conjs; auto. intros k. simpl. tauto.
  - apply bind_ok in E. destruct E as [fut [Ef E]].
    apply bind_ok in E. destruct E as [item [Ei E]].
    unfold subscript in Ef, Ei.
    destruct (dict_get ck (Consumer.tasks st)) as [f0|] eqn:T; [|discriminate].
    injection Ef as ->.
    destruct (nth_error (Consumer.pool st) fut) as [w0|] eqn:P; [|discriminate].
    injection Ei as ->.
    destruct (Consumer.w_state item) as [|[[|]|]] eqn:S.
    + (* still running *)
      apply IH in E; auto.
      destruct E as [E1 [E2 [E3 [E4 [E5 [E6 E7]]]]]]. conjs; auto.
      * intros k. rewrite E6. simpl. split.
        -- intros [I|[I X]]; auto.
        -- intros [I|[[<-|I] X]]; auto.
           destruct X as [f [w [Tf [Pf Sf]]]]. congruence.
      * intros NK ND Dj. inversion NK; subst. apply E7; auto.
        intros k I J. apply (Dj k I). now right.
    + (* returned true *)
      assert (M : dict_mem ck (Consumer.tries st) = false).
      { destruct (dict_mem ck (Consumer.tries st)) eqn:M; [|reflexivity].
        apply dict_mem_true in M. destruct M as [n G].
        destruct C as [_ [_ [C3 _]]].
        destruct (C3 ck n G) as [f [w [Tf [Pf Sf]]]]. congruence. }
      rewrite M in E. apply IH in E; auto.
      destruct E as [E1 [E2 [E3 [E4 [E5 [E6 E7]]]]]]. conjs; auto.
      * intros k. rewrite E6, in_app_iff. simpl. split.
        -- intros [[I|[<-|[]]]|[I X]]; auto.
           right. split; [now left|]. exists fut, item. auto.
        -- intros [I|[[<-|I] X]]; auto.
      * intros NK ND Dj. inversion NK; subst. apply E7; auto.
        -- apply NoDup_snoc; auto. intros I. apply (Dj ck I). now left.
        -- intros k I J. apply in_app_iff in I. simpl in I.
           destruct I as [I|[<-|[]]]; [|contradiction].
           apply (Dj k I). now right.
    + (* returned false *)
      apply bind_ok in E. destruct E as [n [En E]].
      set (tries0 := if dict_mem ck (Consumer.tries st)
                     then Consumer.tries st
                     else dict_set ck 0 (Consumer.tries st)) in *.
      apply IH in E; auto.
      * cbn [Consumer.set_tries Consumer.pool Consumer.tasks
               Consumer.messages_dict] in E.
        destruct E as [E1 [E2 [E3 [E4 [E5 [E6 E7]]]]]]. conjs; auto.
        -- intros k. rewrite E6. simpl. split.
           ++ intros [I|[I X]]; auto.
           ++ intros [I|[[<-|I] X]]; auto.
              destruct X as [f [w [Tf [Pf Sf]]]]. congruence.
        -- intros NK ND Dj. inversion NK; subst. apply E7; auto.
           intros k I J. apply (Dj k I). now right.
      * destruct WF as [W1 [W2 W3]]. unfold well_formed. cbn. conjs; auto.
        apply NoDup_keys_set. unfold tries0.
        destruct (dict_mem ck (Consumer.tries st)); auto.
        now apply NoDup_keys_set.
      * destruct C as [C1 [C2 [C3 C4]]]. unfold consistent. cbn. conjs; auto.
        intros k m G.
        destruct (String.eqb_spec ck k) as [<-|N].
        -- exists fut, item. auto.
        -- rewrite dict_get_set_ne in G by exact N.
           apply (C3 k m). unfold tries0 in G.
           destruct (dict_mem ck (Consumer.tries st)); [exact G|].
           now rewrite dict_get_set_ne in G.
    + discriminate.
Qed.

(** *** Deleting from the store *)

Section DeleteFacts.
Context `{Json}.

Lemma delete_message_ok (db : RedisDatabase.t) (srv srv' : Redis.server)
      (message : InternalMessageModel) :
  RedisDatabase.delete_message db srv message = Ok srv' ->
  Redis.online srv' = Redis.online srv
  /\ Redis.webhook srv' = Redis.zrem (json_dumps message) (Redis.webhook srv).
Proof.
  unfold RedisDatabase.delete_message, RedisDatabase.get_handler, Redis.command.
  destruct (RedisDatabase.handler db); simpl; [|discriminate].
  destruct (Redis.online srv) eqn:O; [|discriminate].
  intros [= <-]. simpl. auto.
Qed.

Lemma delete_messages_spec (database : RedisService.t)
      (batch : list InternalMessageModel) :
  forall srv srv',
    RedisService.delete_messages database srv batch = Ok srv' ->
    Redis.online srv' = Redis.online srv
    /\ (forall p, In p (members srv') -> In p (members srv))
    /\ (forall m, In m batch -> ~ In (json_dumps m) (members srv')).
Proof.
  induction batch as [|message rest IH]; intros srv srv' E;
    cbn [RedisService.delete_messages] in E.
  - injection E as <-. conjs; auto.
  - apply bind_ok in E. destruct E as [srv1 [D E]].
    apply delete_message_ok in D. destruct D as [O W].
    apply IH in E. destruct E as [O' [Sub Gone]].
    assert (S1 : forall p, In p (members srv1) -> In p (members srv)).
    { intros p I. unfold members in *. rewrite W in I.
      now apply zrem_incl in I. }
    conjs; [congruence | auto |].
    intros m [<-|I]; [|now apply Gone].
    intros J. apply Sub in J. unfold members in J. rewrite W in J.
    now apply zrem_not_member in J.
Qed.

Lemma delete_messages_total (database : RedisService.t) (h : Redis.client)
      (batch : list InternalMessageModel) :
  RedisDatabase.handler (RedisService.redis_repository database) = Some h ->
  forall srv, Redis.online srv = true ->
              exists srv', RedisService.delete_messages database srv batch
                           = Ok srv'.
Proof.
  intros Hh. induction batch as [|message rest IH]; intros srv O;
    cbn [RedisService.delete_messages].
  - eauto.
  - unfold RedisDatabase.delete_message, RedisDatabase.get_handler,
      Redis.command. rewrite Hh, O. cbn [Py.bind]. apply IH. exact O.
Qed.

(** *** Removing what succeeded *)

Lemma remove_done_spec (database : RedisService.t) (done_tasks : list string) :
  forall st srv st' srv',
    Consumer.remove_done database done_tasks st srv = Ok (st', srv') ->
    NoDup done_tasks -> well_formed st ->
    Consumer.pool st' = Consumer.pool st
    /\ Consumer.tries st' = Consumer.tries st
    /\ well_formed st'
    /\ Redis.online srv' = Redis.online srv
    /\ (forall k, In k done_tasks ->
          dict_get k (Consumer.tasks st') = None
          /\ dict_get k (Consumer.messages_dict st') = None)
    /\ (forall k, ~ In k done_tasks ->
          dict_get k (Consumer.tasks st') = dict_get k (Consumer.tasks st)
          /\ dict_get k (Consumer.messages_dict st')
             = dict_get k (Consumer.messages_dict st))
    /\ (forall p, In p (members srv') -> In p (members srv))
    /\ (forall k batch m,
          In k done_tasks ->
          dict_get k (Consumer.messages_dict st) = Some batch ->
          In m batch -> ~ In (json_dumps m) (members srv')).
Proof.
  induction done_tasks as [|ck rest IH]; intros st srv st' srv' E ND WF;
    cbn [Consumer.remove_done] in E.
  - injection E as <- <-. conjs; auto; intros k []; auto.
  - apply bind_ok in E. destruct E as [tasks' [Et E]].
    apply bind_ok in E. destruct E as [batch [Eb E]].
    apply bind_ok in E. destruct E as [srv1 [Ed E]].
    apply dict_pop_ok in Et. destruct Et as [-> Tm].
    unfold subscript in Eb.
    destruct (dict_get ck (Consumer.messages_dict st)) as [b|] eqn:M;
      [|discriminate].
    injection Eb as ->.
    apply delete_messages_spec in Ed. destruct Ed as [O1 [Sub1 Gone1]].
    inversion ND as [|? ? NI ND']; subst.
    destruct WF as [W1 [W2 W3]].
    apply IH in E; auto.
    2:{ unfold well_formed. cbn. conjs; auto; now apply NoDup_keys_del. }
    cbn [Consumer.pool Consumer.tasks Consumer.tries Consumer.messages_dict] in E.
    destruct E as [E1 [E2 [E3 [E4 [E5 [E6 [E7 E8]]]]]]].
    conjs; auto; try congruence.
    + intros k [<-|I]; [|now apply E5].
      destruct (E6 ck NI) as [A B]. rewrite A, B.
      split; now apply dict_get_del_eq.
    + intros k NIk.
      assert (N : ck <> k) by (intros ->; apply NIk; now left).
      destruct (E6 k) as [A B]; [intros I; apply NIk; now right|].
      rewrite A, B. split; now apply dict_get_del_ne.
    + intros k b m [<-|I] G Im.
      * rewrite M in G. injection G as <-.
        intros J. apply E7 in J. now apply (Gone1 m Im).
      * apply (E8 k b m I); auto.
        rewrite dict_get_del_ne; [exact G|].
        intros ->. contradiction.
Qed.

(** *** Evicting what failed too often *)

Lemma evict_spec (database : RedisService.t) (keys : list string) :
  forall st srv st' srv',
    Consumer.evict database keys st srv = Ok (st', srv') ->
    NoDup keys -> well_formed st ->
    Consumer.pool st' = Consumer.pool st
    /\ well_formed st'
    /\ Redis.online srv' = Redis.online srv
    /\ (forall k n, In k keys ->
          dict_get k (Consumer.tries st) = Some n -> 3 < n ->
          dict_get k (Consumer.tries st') = None
          /\ dict_get k (Consumer.tasks st') = None
          /\ dict_get k (Consumer.messages_dict st') = None
          /\ forall batch m,
               dict_get k (Consumer.messages_dict st) = Some batch ->
               In m batch -> ~ In (json_dumps m) (members srv'))
    /\ (forall k,
          ~ (In k keys
             /\ exists n, dict_get k (Consumer.tries st) = Some n /\ 3 < n) ->
          dict_get k (Consumer.tries st') = dict_get k (Consumer.tries st)
          /\ dict_get k (Consumer.tasks st') = dict_get k (Consumer.tasks st)
          /\ dict_get k (Consumer.messages_dict st')
             = dict_get k (Consumer.messages_dict st))
    /\ (forall p, In p (members srv') -> In p (members srv)).
Proof.
  induction keys as [|ck rest IH]; intros st srv st' srv' E ND WF;
    cbn [Consumer.evict] in E.
  - injection E as <- <-. conjs; auto. intros k n [].
  - apply bind_ok in E. destruct E as [n0 [En E]].
    unfold subscript in En.
    destruct (dict_get ck (Consumer.tries st)) as [n1|] eqn:T; [|discriminate].
    injection En as ->.
    inversion ND as [|? ? NI ND']; subst.
    destruct (Z.ltb_spec 3 n0) as [L|L].
    + apply bind_ok in E. destruct E as [batch [Eb E]].
      apply bind_ok in E. destruct E as [srv1 [Ed E]].
      apply bind_ok in E. destruct E as [tries' [Et E]].
      apply bind_ok in E. destruct E as [md' [Em E]].
      apply bind_ok in E. destruct E as [tasks' [Ek E]].
      apply dict_pop_ok in Et, Em, Ek.
      destruct Et as [-> _]. destruct Em as [-> _]. destruct Ek as [-> _].
      unfold subscript in Eb.
      destruct (dict_get ck (Consumer.messages_dict st)) as [b|] eqn:M;
        [|discriminate].
      injection Eb as ->.
      apply delete_messages_spec in Ed. destruct Ed as [O1 [Sub1 Gone1]].
      destruct WF as [W1 [W2 W3]].
      apply IH in E; auto.
      2:{ unfold well_formed. cbn. conjs; now apply NoDup_keys_del. }
      cbn [Consumer.pool Consumer.tasks Consumer.tries Consumer.messages_dict] in E.
      destruct E as [E1 [E2 [E3 [E4 [E5 E6]]]]].
      conjs; auto; try congruence.
      * intros k n [<-|I] G Ln.
        -- destruct (E5 ck) as [A [B C]]; [intros [I _]; contradiction|].
           rewrite A, B, C. conjs; try now apply dict_get_del_eq.
           intros b m Gb Im J. rewrite M in Gb. injection Gb as <-.
           apply E6 in J. now apply (Gone1 m Im).
        -- assert (N : ck <> k) by (intros ->; contradiction).
           destruct (E4 k n I) as [A [B [C D]]]; auto.
           { now rewrite dict_get_del_ne. }
           conjs; auto. intros b m Gb Im. apply (D b m); auto.
           now rewrite dict_get_del_ne.
      * intros k NE.
        assert (N : ck <> k).
        { intros ->. apply NE. split; [now left | eauto]. }
        destruct (E5 k) as [A [B C]].
        { intros [I [n [G Ln]]]. apply NE. split; [now right|].
          exists n. split; [|exact Ln].
          now rewrite dict_get_del_ne in G. }
        rewrite A, B, C. conjs; now apply dict_get_del_ne.
    + apply IH in E; auto.
      destruct E as [E1 [E2 [E3 [E4 [E5 E6]]]]]. conjs; auto.
      * intros k n [<-|I] G Ln; [|now apply (E4 k n)].
        rewrite T in G. injection G as <-. lia.
      * intros k NE. apply E5. intros [I X]. apply NE. split; [now right|exact X].
Qed.

End DeleteFacts.

(** *** The phases complete, barring a failure of the store or a worker *)

Lemma dict_mem_del_ne {V} (k k' : string) (d : dict V) :
  k <> k' -> dict_mem k' (dict_del k d) = dict_mem k' d.
Proof.
  intros N. unfold dict_mem. now rewrite dict_get_del_ne.
Qed.

Lemma evict_total `{Json} (database : RedisService.t) (h : Redis.client)
      (keys : list string) :
  RedisDatabase.handler (RedisService.redis_repository database) = Some h ->
  forall st srv,
    NoDup keys -> Redis.online srv = true ->
    (forall k, In k keys ->
               dict_mem k (Consumer.tries st) = true
               /\ dict_mem k (Consumer.messages_dict st) = true
               /\ dict_mem k (Consumer.tasks st) = true) ->
    exists r, Consumer.evict database keys st srv = Ok r.
Proof.
  intros Hh. induction keys as [|ck rest IH]; intros st srv ND O P;
    cbn [Consumer.evict].
  - eauto.
  - inversion ND as [|? ? NI ND']; subst.
    destruct (P ck (or_introl eq_refl)) as [P1 [P2 P3]].
    apply dict_mem_true in P1. destruct P1 as [n G1].
    apply dict_mem_true in P2. destruct P2 as [batch G2].
    apply dict_mem_true in P3. destruct P3 as [f G3].
    rewrite G1. cbn [subscript Py.bind].
    destruct (3 <? n).
    + rewrite G2. cbn [subscript Py.bind].
      destruct (delete_messages_total database h batch Hh srv O) as [srv1 D].
      rewrite D. cbn [Py.bind].
      unfold dict_pop. rewrite G1, G2, G3. cbn [Py.bind].
      apply IH; auto.
      * apply delete_messages_spec in D. destruct D as [O1 _]. congruence.
      * intros k I. cbn.
        assert (N : ck <> k) by (intros ->; contradiction).
        rewrite !dict_mem_del_ne by exact N. apply P. now right.
    + apply IH; auto. intros k I. apply P. now right.
Qed.

Lemma submit_keys_total (workers : Z) (key_list : list string) :
  forall st,
    (forall k, In k key_list ->
               dict_mem k (Consumer.messages_dict st) = true) ->
    exists st', Consumer.submit_keys workers key_list st = Ok st'.
Proof.
  induction key_list as [|ck rest IH]; intros st P; cbn [Consumer.submit_keys].
  - eauto.
  - destruct (dict_len (Consumer.tasks st) <? workers); [|eauto].
    destruct (proj1 (dict_mem_true ck _) (P ck (or_introl eq_refl)))
      as [batch G].
    rewrite G. cbn [subscript Py.bind]. apply IH.
    intros k I. cbn. apply P. now right.
Qed.

Lemma buffer_and_submit_total (workers : Z)
      (messages : list InternalMessageModel) (st : Consumer.state) :
  well_formed st ->
  exists st1, Consumer.buffer_and_submit workers messages st = Ok st1.
Proof.
  intros [W1 [W2 W3]]. unfold Consumer.buffer_and_submit.
  destruct (Consumer.collect (Consumer.tasks st) messages [] []
              (Consumer.messages_dict st)) as [key_list buffered] eqn:Co.
  apply collect_spec in Co;
    [ | constructor
      | intros k; simpl; split; [tauto | discriminate]
      | intros k []
      | exact W3 ].
  destruct Co as [_ [PK _]].
  apply submit_keys_total. intros k I. cbn. now apply PK.
Qed.

Lemma advance_from_no_raised (c : nat -> option Consumer.outcome)
      (p : list Consumer.work_item) :
  (forall f, c f <> Some Consumer.Raised) ->
  Forall (fun w => Consumer.w_state w <> Consumer.Finished Consumer.Raised) p ->
  forall i,
    Forall (fun w => Consumer.w_state w <> Consumer.Finished Consumer.Raised)
           (Consumer.advance_from i c p).
Proof.
  intros NC. induction 1 as [|w r Hw F IH]; intros i; simpl; constructor.
  - destruct (Consumer.w_state w) eqn:S; [|now rewrite S].
    destruct (c i) as [o|] eqn:Ci; cbn; [|now rewrite S].
    intros [= ->]. now apply (NC i).
  - apply IH.
Qed.

Lemma reap_total (keys : list string) :
  forall st done_tasks,
    (forall k, In k keys ->
       exists f w, dict_get k (Consumer.tasks st) = Some f
                   /\ nth_error (Consumer.pool st) f = Some w
                   /\ Consumer.w_state w <> Consumer.Finished Consumer.Raised) ->
    exists r, Consumer.reap keys st done_tasks = Ok r.
Proof.
  induction keys as [|ck rest IH]; intros st dn P; cbn [Consumer.reap].
  - eauto.
  - destruct (P ck (or_introl eq_refl)) as [f [w [T [Pw S]]]].
    rewrite T. cbn [subscript Py.bind]. rewrite Pw. cbn [subscript Py.bind].
    assert (P' : forall k, In k rest ->
              exists f w, dict_get k (Consumer.tasks st) = Some f
                /\ nth_error (Consumer.pool st) f = Some w
                /\ Consumer.w_state w <> Consumer.Finished Consumer.Raised)
      by (intros k I; apply P; now right).
    destruct (Consumer.w_state w) as [|[[|]|]].
    + now apply IH.
    + destruct (dict_mem ck (Consumer.tries st)); now apply IH.
    + destruct (dict_mem ck (Consumer.tries st)) eqn:M.
      * apply dict_mem_true in M. destruct M as [n G]. rewrite G.
        cbn [subscript Py.bind]. now apply IH.
      * rewrite dict_get_set_eq. cbn [subscript Py.bind]. now apply IH.
    + congruence.
Qed.

Lemma reap_no_raise (keys : list string) :
  forall st done_tasks r,
    Consumer.reap keys st done_tasks = Ok r ->
    forall k f w,
      In k keys -> dict_get k (Consumer.tasks st) = Some f ->
      nth_error (Consumer.pool st) f = Some w ->
      Consumer.w_state w <> Consumer.Finished Consumer.Raised.
Proof.
  induction keys as [|ck rest IH]; intros st dn r E k f w I T P;
    [destruct I|].
  cbn [Consumer.reap] in E.
  apply bind_ok in E. destruct E as [fut [Ef E]].
  apply bind_ok in E. destruct E as [item [Ei E]].
  unfold subscript in Ef, Ei.
  destruct (dict_get ck (Consumer.tasks st)) as [f0|] eqn:T0; [|discriminate].
  injection Ef as ->.
  destruct (nth_error (Consumer.pool st) fut) as [w0|] eqn:P0; [|discriminate].
  injection Ei as ->.
  destruct I as [<-|I].
  - rewrite T0 in T. injection T as <-. rewrite P0 in P. injection P as <-.
    destruct (Consumer.w_state item) as [|[[|]|]]; congruence.
  - destruct (Consumer.w_state item) as [|[[|]|]].
    + now apply (IH _ _ _ E k f w).
    + destruct (dict_mem ck (Consumer.tries st));
        now apply (IH _ _ _ E k f w).
    + apply bind_ok in E. destruct E as [n [_ E]].
      now apply (IH _ _ _ E k f w).
    + discriminate.
Qed.

Lemma remove_done_total `{Json} (database : RedisService.t) (h : Redis.client)
      (done_tasks : list string) :
  RedisDatabase.handler (RedisService.redis_repository database) = Some h ->
  forall st srv,
    NoDup done_tasks -> Redis.online srv = true ->
    (forall k, In k done_tasks ->
               dict_mem k (Consumer.tasks st) = true
               /\ dict_mem k (Consumer.messages_dict st) = true) ->
    exists r, Consumer.remove_done database done_tasks st srv = Ok r.
Proof.
  intros Hh. induction done_tasks as [|ck rest IH]; intros st srv ND O P;
    cbn [Consumer.remove_done].
  - eauto.
  - inversion ND as [|? ? NI ND']; subst.
    destruct (P ck (or_introl eq_refl)) as [P1 P2].
    apply dict_mem_true in P1. destruct P1 as [f G1].
    apply dict_mem_true in P2. destruct P2 as [batch G2].
    unfold dict_pop. rewrite G1. cbn [Py.bind]. rewrite G2.
    cbn [subscript Py.bind].
    destruct (delete_messages_total database h batch Hh srv O) as [srv1 D].
    rewrite D. cbn [Py.bind]. apply IH; auto.
    + apply delete_messages_spec in D. destruct D as [O1 _]. congruence.
    + intros k I. cbn.
      assert (N : ck <> k) by (intros ->; contradiction).
      rewrite !dict_mem_del_ne by exact N. apply P. now right.
Qed.

(** Dropping the keys whose futures returned [True] keeps the
    bookkeeping consistent. *)
Lemma removal_keeps_consistent (st3 st4 : Consumer.state)
      (done_tasks : list string) :
  consistent st3 ->
  Consumer.pool st4 = Consumer.pool st3 ->
  Consumer.tries st4 = Consumer.tries st3 ->
  (forall k, In k done_tasks ->
     exists f w, dict_get k (Consumer.tasks st3) = Some f
       /\ nth_error (Consumer.pool st3) f = Some w
       /\ Consumer.w_state w = Consumer.Finished (Consumer.Returned true)) ->
  (forall k, In k done_tasks ->
     dict_get k (Consumer.tasks st4) = None
     /\ dict_get k (Consumer.messages_dict st4) = None) ->
  (forall k, ~ In k done_tasks ->
     dict_get k (Consumer.tasks st4) = dict_get k (Consumer.tasks st3)
     /\ dict_get k (Consumer.messages_dict st4)
        = dict_get k (Consumer.messages_dict st3)) ->
  consistent st4.
Proof.
  intros [A1 [A2 [A3 A4]]] P4 R4 Dn G4 K4. unfold consistent.
  rewrite P4, R4. conjs; auto.
  - intros k f G.
    destruct (in_dec string_dec k done_tasks) as [I|NI].
    + destruct (G4 k I) as [X _]. congruence.
    + destruct (K4 k NI) as [X Y]. rewrite X in G. rewrite Y. now apply A1.
  - intros f w P R.
    destruct (in_dec string_dec (Consumer.w_key w) done_tasks) as [I|NI].
    + destruct (Dn _ I) as [f' [w0 [Tf [Pf Sf]]]].
      rewrite (A2 f w P R) in Tf. injection Tf as <-. congruence.
    + destruct (K4 _ NI) as [X _]. rewrite X. now apply A2.
  - intros k n G. destruct (A3 k n G) as [f [w [Tf [Pf Sf]]]].
    exists f, w. conjs; auto.
    destruct (in_dec string_dec k done_tasks) as [I|NI].
    + destruct (Dn _ I) as [f' [w0 [Tf' [Pf' Sf']]]]. congruence.
    + destruct (K4 _ NI) as [X _]. now rewrite X.
Qed.

(** *** One turn of the loop *)

Section CycleFacts.
Context `{Json}.

(** What a turn does to a consistent state, and what it does for a key
    whose future is found finished with [True]. *)
Lemma dispatch_spec (workers : Z) (database : RedisService.t)
      (completes : nat -> option Consumer.outcome)
      (messages : list InternalMessageModel)
      (st st' : Consumer.state) (srv srv' : Redis.server) :
  Consumer.dispatch workers database completes messages st srv = Ok (st', srv') ->
  well_formed st -> consistent st ->
  well_formed st' /\ consistent st'
  /\ (forall p, In p (members srv') -> In p (members srv))
  /\ (forall f w',
        nth_error (Consumer.pool st') f = Some w' ->
        Consumer.w_state w' = Consumer.Finished (Consumer.Returned true) ->
        (forall w, nth_error (Consumer.pool st) f = Some w ->
                   Consumer.w_state w = Consumer.Running) ->
        dict_get (Consumer.w_key w') (Consumer.tries st') = None
        /\ dict_get (Consumer.w_key w') (Consumer.tasks st') = None
        /\ dict_get (Consumer.w_key w') (Consumer.messages_dict st') = None
        /\ forall m, In m (Consumer.w_messages w') ->
                     ~ In (json_dumps m) (members srv')).
Proof.
  unfold Consumer.dispatch. intros E WF C.
  apply bind_ok in E. destruct E as [st1 [E1 E]].
  apply bind_ok in E. destruct E as [[st3 done_tasks] [E3 E]].
  apply bind_ok in E. destruct E as [[st4 srv4] [E4 E]].
  cbn [fst snd] in *.
  apply buffer_and_submit_spec in E1; auto.
  destruct E1 as [WF1 [C1 [_ [Old New]]]].
  destruct (advance_spec completes st1 WF1 C1) as [WF2 C2].
  set (st2 := Consumer.advance completes st1) in *.
  apply reap_spec in E3; auto.
  destruct E3 as [P3 [T3 [M3 [WF3 [C3 [D3 ND3]]]]]].
  assert (NDd : NoDup done_tasks).
  { apply ND3; [apply WF2 | constructor | intros k []]. }
  assert (Dn : forall k, In k done_tasks ->
                 exists f w, dict_get k (Consumer.tasks st3) = Some f
                   /\ nth_error (Consumer.pool st3) f = Some w
                   /\ Consumer.w_state w
                      = Consumer.Finished (Consumer.Returned true)).
  { intros k I. apply D3 in I. destruct I as [[]|[_ X]].
    rewrite T3, P3. exact X. }
  apply remove_done_spec in E4; auto.
  destruct E4 as [P4 [R4 [WF4 [_ [G4 [K4 [S4 B4]]]]]]].
  assert (C4 : consistent st4)
    by (apply (removal_keeps_consistent st3 st4 done_tasks); auto).
  apply evict_spec in E; [|apply WF4|exact WF4].
  destruct E as [P5 [WF5 [_ [Ev5 [K5 S5]]]]].
  assert (Keep : forall k,
             dict_get k (Consumer.tasks st') <> None
             \/ dict_get k (Consumer.tries st') <> None
             \/ dict_get k (Consumer.tries st4) = None ->
             dict_get k (Consumer.tries st') = dict_get k (Consumer.tries st4)
             /\ dict_get k (Consumer.tasks st') = dict_get k (Consumer.tasks st4)
             /\ dict_get k (Consumer.messages_dict st')
                = dict_get k (Consumer.messages_dict st4)).
  { intros k X. apply K5. intros [I [n [G L]]].
    destruct (Ev5 k n I G L) as [Y1 [Y2 _]].
    destruct X as [X|[X|X]]; congruence. }
  assert (C5 : consistent st').
  { destruct C4 as [A1 [A2 [A3 A4]]]. unfold consistent.
    rewrite P5. conjs; auto.
    - intros k f G. destruct (Keep k) as [_ [X Y]]; [left; congruence|].
      rewrite X in G. rewrite Y. now apply A1.
    - intros f w P R. pose proof (A2 f w P R) as T.
      destruct (dict_get (Consumer.w_key w) (Consumer.tries st4)) as [n|] eqn:G.
      + destruct (A3 _ n G) as [f' [w0 [Tf [Pf Sf]]]]. congruence.
      + destruct (Keep (Consumer.w_key w)) as [_ [X _]]; auto. now rewrite X.
    - intros k n G. destruct (Keep k) as [X [Y _]]; [right; left; congruence|].
      rewrite X in G. destruct (A3 k n G) as [f [w [Tf [Pf Sf]]]].
      exists f, w. conjs; auto. now rewrite Y. }
  conjs; auto.
  intros f w' P' S' Was.
  rewrite P5, P4, P3 in P'.
  assert (P2 := P').
  unfold st2, Consumer.advance in P'. cbn [Consumer.pool Consumer.set_pool] in P'.
  apply advance_from_back in P'. destruct P' as [w1 [P1 [K1 [_ [M1 St1]]]]].
  assert (R1 : Consumer.w_state w1 = Consumer.Running).
  { destruct (New f w1 P1) as [P0|[_ R]]; [now apply Was | exact R]. }
  set (k := Consumer.w_key w') in *.
  assert (T2 : dict_get k (Consumer.tasks st2) = Some f).
  { unfold st2, Consumer.advance. cbn. rewrite K1.
    destruct C1 as [_ [A2 _]]. now apply A2. }
  assert (Id : In k done_tasks).
  { apply D3. right. split.
    - apply dict_get_In in T2.
      change (In (fst (k, f)) (map fst (Consumer.tasks st2))).
      now apply in_map.
    - exists f, w'. auto. }
  assert (B2 : dict_get k (Consumer.messages_dict st3)
               = Some (Consumer.w_messages w')).
  { rewrite M3. destruct C2 as [A1 _].
    destruct (A1 k f T2) as [w [Pw [_ Mw]]]. congruence. }
  assert (Tr3 : dict_get k (Consumer.tries st3) = None).
  { destruct (dict_get k (Consumer.tries st3)) as [n|] eqn:G; [|reflexivity].
    destruct C3 as [_ [_ [A3 _]]].
    destruct (A3 k n G) as [f' [w0 [Tf [Pf Sf]]]].
    rewrite T3, T2 in Tf. injection Tf as <-. rewrite P3 in Pf. congruence. }
  destruct (G4 k Id) as [T4 M4].
  destruct (Keep k) as [X [Y Z]]; [right; right; congruence|].
  rewrite X, Y, Z, R4. conjs; auto.
  intros m Im J. apply S5 in J. exact (B4 k _ m Id B2 Im J).
Qed.

Lemma dispatch_no_raised (workers : Z) (database : RedisService.t)
      (completes : nat -> option Consumer.outcome)
      (messages : list InternalMessageModel)
      (st st' : Consumer.state) (srv srv' : Redis.server) :
  Consumer.dispatch workers database completes messages st srv = Ok (st', srv') ->
  well_formed st -> consistent st -> no_raised st -> no_raised st'.
Proof.
  unfold Consumer.dispatch. intros E WF C NR.
  apply bind_ok in E. destruct E as [st1 [E1 E]].
  apply bind_ok in E. destruct E as [[st3 done_tasks] [E3 E]].
  apply bind_ok in E. destruct E as [[st4 srv4] [E4 E]].
  cbn [fst snd] in *.
  pose proof (reap_no_raise _ _ _ _ E3) as NR3.
  apply buffer_and_submit_spec in E1; auto.
  destruct E1 as [WF1 [C1 [_ [Old New]]]].
  destruct (advance_spec completes st1 WF1 C1) as [WF2 C2].
  apply reap_spec in E3; auto.
  destruct E3 as [P3 [T3 [M3 [WF3 [C3 [D3 ND3]]]]]].
  assert (NDd : NoDup done_tasks).
  { apply ND3; [apply WF2 | constructor | intros k []]. }
  apply remove_done_spec in E4; auto.
  destruct E4 as [P4 [R4 [WF4 _]]].
  apply evict_spec in E; [|apply WF4|exact WF4].
  destruct E as [P5 _].
  unfold no_raised. rewrite P5, P4, P3. apply Forall_forall.
  intros w' I. apply In_nth_error in I. destruct I as [f P'].
  assert (P2 := P').
  unfold Consumer.advance in P'. cbn [Consumer.pool Consumer.set_pool] in P'.
  apply advance_from_back in P'. destruct P' as [w1 [P1 [K1 [_ [_ St]]]]].
  destruct St as [Same|Run].
  - rewrite Same. destruct (New f w1 P1) as [P0|[_ R]].
    + unfold no_raised in NR. rewrite Forall_forall in NR.
      apply NR. now apply nth_error_In in P0.
    + rewrite R. discriminate.
  - destruct C1 as [_ [A2 _]]. pose proof (A2 f w1 P1 Run) as T1.
    apply (NR3 (Consumer.w_key w1) f w'); auto.
    apply dict_get_In in T1.
    change (In (fst (Consumer.w_key w1, f))
               (map fst (Consumer.tasks (Consumer.advance completes st1)))).
    now apply in_map.
Qed.

(** A turn completes when the store answers and no worker raised. *)
Lemma dispatch_total (workers : Z) (database : RedisService.t)
      (h : Redis.client) (completes : nat -> option Consumer.outcome)
      (messages : list InternalMessageModel)
      (st : Consumer.state) (srv : Redis.server) :
  RedisDatabase.handler (RedisService.redis_repository database) = Some h ->
  Redis.online srv = true ->
  (forall f, completes f <> Some Consumer.Raised) ->
  well_formed st -> consistent st -> no_raised st ->
  exists r, Consumer.dispatch workers database completes messages st srv = Ok r.
Proof.
  intros Hh O NC WF C NR. unfold Consumer.dispatch.
  destruct (buffer_and_submit_total workers messages st WF) as [st1 E1].
  rewrite E1. cbn [Py.bind].
  apply buffer_and_submit_spec in E1; auto.
  destruct E1 as [WF1 [C1 [_ [Old New]]]].
  assert (NR1 : no_raised st1).
  { unfold no_raised in *. rewrite Forall_forall in *.
    intros w I. apply In_nth_error in I. destruct I as [f P].
    destruct (New f w P) as [P0|[_ R]].
    - apply NR. now apply nth_error_In in P0.
    - rewrite R. discriminate. }
  destruct (advance_spec completes st1 WF1 C1) as [WF2 C2].
  assert (NR2 : no_raised (Consumer.advance completes st1)).
  { unfold no_raised, Consumer.advance. cbn.
    now apply advance_from_no_raised. }
  set (st2 := Consumer.advance completes st1) in *.
  destruct (reap_total (dict_keys (Consumer.tasks st1)) st2 [])
    as [[st3 done_tasks] E3].
  { intros k I. apply dict_mem_keys in I. apply dict_mem_true in I.
    destruct I as [f T]. destruct C2 as [A1 _].
    destruct (A1 k f T) as [w [P _]]. exists f, w. conjs; auto.
    unfold no_raised in NR2. rewrite Forall_forall in NR2.
    apply NR2. now apply nth_error_In in P. }
  rewrite E3. cbn [Py.bind fst snd].
  apply reap_spec in E3; auto.
  destruct E3 as [P3 [T3 [M3 [WF3 [C3 [D3 ND3]]]]]].
  assert (NDd : NoDup done_tasks).
  { apply ND3; [apply WF2 | constructor | intros k []]. }
  assert (Dn : forall k, In k done_tasks ->
                 exists f w, dict_get k (Consumer.tasks st3) = Some f
                   /\ nth_error (Consumer.pool st3) f = Some w
                   /\ Consumer.w_state w
                      = Consumer.Finished (Consumer.Returned true)).
  { intros k I. apply D3 in I. destruct I as [[]|[_ X]].
    rewrite T3, P3. exact X. }
  destruct (remove_done_total database h done_tasks Hh st3 srv NDd O)
    as [[st4 srv4] E4].
  { intros k I. destruct (Dn k I) as [f [w [T _]]].
    split; apply dict_mem_true; [eauto|].
    destruct C3 as [A1 _]. destruct (A1 k f T) as [w0 [_ [_ M]]]. eauto. }
  rewrite E4. cbn [Py.bind fst snd].
  apply remove_done_spec in E4; auto.
  destruct E4 as [P4 [R4 [WF4 [O4 [G4 [K4 _]]]]]].
  assert (C4 : consistent st4)
    by (apply (removal_keeps_consistent st3 st4 done_tasks); auto).
  apply (evict_total database h); auto.
  - apply WF4.
  - congruence.
  - intros k I. apply dict_mem_keys in I. split; [exact I|].
    apply dict_mem_true in I. destruct I as [n G].
    destruct C4 as [A1 [_ [A3 _]]].
    destruct (A3 k n G) as [f [w [T _]]].
    destruct (A1 k f T) as [w0 [_ [_ M]]].
    split; apply dict_mem_true; eauto.
Qed.

(** The scan completes when the store answers and every payload decodes. *)
Lemma time_search_total (self : RedisService.t) (h : Redis.client)
      (srv : Redis.server) (now time_threshold_seconds : Z)
      (entries : list (InternalMessageModel * Z)) :
  RedisDatabase.handler (RedisService.redis_repository self) = Some h ->
  Redis.online srv = true ->
  decode (Redis.webhook srv) = Some entries ->
  exists out,
    RedisService.time_search self srv now time_threshold_seconds = Ok out.
Proof.
  intros Hh On D.
  destruct (group_messages_from_spec (Redis.webhook srv) [] [] entries)
    as [g [G [W L]]]; auto.
  { split; [constructor | intros ? ? []]. }
  cbn [app] in L.
  destruct (filter_messages_group g entries
              (now - seconds time_threshold_seconds)
              EmptyString EmptyString W L) as [out [F _]].
  exists out.
  unfold RedisService.time_search, RedisService.retrieve_messages,
    RedisDatabase.retrieve_messages, RedisDatabase.get_handler,
    Redis.command, RedisService.group_messages.
  rewrite Hh, On. cbn [Py.bind]. rewrite G. cbn [Py.bind]. exact F.
Qed.

Lemma cycle_spec (workers consumer_redis_time : Z) (database : RedisService.t)
      (tk : Consumer.tick) (st st' : Consumer.state)
      (srv srv' : Redis.server) :
  Consumer.cycle workers consumer_redis_time database tk st srv = Ok (st', srv') ->
  exists messages,
    Consumer.dispatch workers database (Consumer.t_completes tk) messages st
                      (Consumer.environment tk srv) = Ok (st', srv').
Proof.
  unfold Consumer.cycle. intros E. apply bind_ok in E.
  destruct E as [messages [_ E]]. eauto.
Qed.

Lemma cycles_consistent (workers consumer_redis_time : Z)
      (database : RedisService.t) (ticks : list Consumer.tick) :
  forall st srv st' srv',
    Consumer.cycles workers consumer_redis_time database ticks st srv
    = Ok (st', srv') ->
    well_formed st -> consistent st -> well_formed st' /\ consistent st'.
Proof.
  induction ticks as [|tk rest IH]; intros st srv st' srv' E WF C;
    cbn [Consumer.cycles] in E.
  - injection E as <- <-. auto.
  - apply bind_ok in E. destruct E as [[st1 srv1] [E1 E]]. cbn [fst snd] in E.
    apply cycle_spec in E1. destruct E1 as [messages E1].
    apply dispatch_spec in E1; auto. destruct E1 as [WF1 [C1 _]].
    now apply (IH _ _ _ _ E).
Qed.

Lemma cycles_app (workers consumer_redis_time : Z)
      (database : RedisService.t) (ticks more : list Consumer.tick) :
  forall st srv,
    Consumer.cycles workers consumer_redis_time database (ticks ++ more) st srv
    = (r <- Consumer.cycles workers consumer_redis_time database ticks st srv ;;
       Consumer.cycles workers consumer_redis_time database more (fst r) (snd r)).
Proof.
  induction ticks as [|tk rest IH]; intros st srv; cbn [app Consumer.cycles].
  - reflexivity.
  - destruct (Consumer.cycle workers consumer_redis_time database tk st srv)
      as [[st1 srv1]|e]; cbn [Py.bind fst snd]; [apply IH | reflexivity].
Qed.

Lemma initial_consistent : well_formed Consumer.initial /\ consistent Consumer.initial.
Proof.
  unfold well_formed, consistent. cbn. conjs; try constructor.
  - intros k f [=].
  - intros f w E. destruct f; discriminate.
  - intros k n [=].
Qed.

Lemma cycles_no_raised (workers consumer_redis_time : Z)
      (database : RedisService.t) (ticks : list Consumer.tick) :
  forall st srv st' srv',
    Consumer.cycles workers consumer_redis_time database ticks st srv
    = Ok (st', srv') ->
    well_formed st -> consistent st -> no_raised st -> no_raised st'.
Proof.
  induction ticks as [|tk rest IH]; intros st srv st' srv' E WF C NR;
    cbn [Consumer.cycles] in E.
  - injection E as <- <-. auto.
  - apply bind_ok in E. destruct E as [[st1 srv1] [E1 E]]. cbn [fst snd] in E.
    apply cycle_spec in E1. destruct E1 as [messages E1].
    pose proof (dispatch_no_raised _ _ _ _ _ _ _ _ E1 WF C NR) as NR1.
    apply dispatch_spec in E1; auto. destruct E1 as [WF1 [C1 _]].
    now apply (IH _ _ _ _ E).
Qed.

Lemma processer_no_raised (workers consumer_redis_time : Z)
      (made : result Redis.client) (srv0 : Redis.server)
      (ticks : list Consumer.tick) (st : Consumer.state) (srv : Redis.server) :
  Consumer.processer workers consumer_redis_time made srv0 ticks = Ok (st, srv) ->
  no_raised st.
Proof.
  unfold Consumer.processer. intros E. apply bind_ok in E.
  destruct E as [repository [_ E]]. cbv beta zeta in E.
  destruct (workers <=? 0); [discriminate E|].
  apply cycles_no_raised in E; auto; try apply initial_consistent.
  constructor.
Qed.

Lemma processer_consistent (workers consumer_redis_time : Z)
      (made : result Redis.client) (srv0 : Redis.server)
      (ticks : list Consumer.tick) (st : Consumer.state) (srv : Redis.server) :
  Consumer.processer workers consumer_redis_time made srv0 ticks = Ok (st, srv) ->
  well_formed st /\ consistent st.
Proof.
  unfold Consumer.processer. intros E. apply bind_ok in E.
  destruct E as [repository [_ E]]. cbv beta zeta in E.
  destruct (workers <=? 0); [discriminate E|].
  apply cycles_consistent in E; auto; apply initial_consistent.
Qed.

End CycleFacts.

(* ===================================================================== *)
(** ** The consumer loop: the properties                                  *)
(* ===================================================================== *)

Lemma consistent_single_flight (st : Consumer.state) :
  consistent st -> single_flight (Consumer.pool st).
Proof.
  intros [_ [C2 _]] i j wi wj Pi Pj Ri Rj K.
  pose proof (C2 i wi Pi Ri) as Ti. pose proof (C2 j wj Pj Rj) as Tj.
  rewrite K in Ti. congruence.
Qed.

(** C2.  After any number of turns of the loop, and again after the
    submissions of the following turn whatever its scan returned, no two
    running work items share a composite key, and every work item of the
    pool was submitted while its key was absent from [tasks]. *)
Theorem one_task_per_key `{Json}
        (workers consumer_redis_time : Z) (made : result Redis.client)
        (srv0 srv : Redis.server) (ticks : list Consumer.tick)
        (st st1 : Consumer.state) (messages : list InternalMessageModel) :
  Consumer.processer workers consumer_redis_time made srv0 ticks = Ok (st, srv) ->
  Consumer.buffer_and_submit workers messages st = Ok st1 ->
  single_flight (Consumer.pool st)
  /\ single_flight (Consumer.pool st1)
  /\ Forall (fun w => Consumer.w_tracked w = false) (Consumer.pool st1).
Proof.
  intros R S. apply processer_consistent in R. destruct R as [WF C].
  apply buffer_and_submit_spec in S; auto. destruct S as [_ [C1 _]].
  conjs.
  - now apply consistent_single_flight.
  - now apply consistent_single_flight.
  - apply C1.
Qed.

Lemma one_task_per_key_witness :
  single_flight (Consumer.pool (fst (Demo.after 1 Demo.crowded_turns)))
  /\ single_flight
       (Consumer.pool
          (value Consumer.initial
             (Consumer.buffer_and_submit 1 [Demo.A; Demo.B]
                (fst (Demo.after 1 Demo.crowded_turns)))))
  /\ Forall (fun w => Consumer.w_tracked w = false)
       (Consumer.pool
          (value Consumer.initial
             (Consumer.buffer_and_submit 1 [Demo.A; Demo.B]
                (fst (Demo.after 1 Demo.crowded_turns))))).
Proof.
  apply (@one_task_per_key Demo.codec 1 60 (Ok Demo.client) (Demo.up [])
           (snd (Demo.after 1 Demo.crowded_turns)) Demo.crowded_turns
           (fst (Demo.after 1 Demo.crowded_turns))
           (value Consumer.initial
              (Consumer.buffer_and_submit 1 [Demo.A; Demo.B]
                 (fst (Demo.after 1 Demo.crowded_turns))))
           [Demo.A; Demo.B]).
  - vm_compute. reflexivity.
  - vm_compute. reflexivity.
Defined.

(** C4.  The loop has run some turns.  In the next turn the store answers,
    every queued payload decodes and no worker raises.  Then the turn
    completes, and for every key whose future it finds finished with
    [True] (the future was running, or not yet submitted, when the turn
    began): the payloads of the batch handed to that future are no longer
    queued, and the key has no retry counter, no buffered batch and no task
    handle, so that its attempt count is 0.  The assignment
    [tries[key] = 4] of the success branch is never executed, because a key
    has a counter only while its failed future sits in [tasks]. *)
Theorem success_clears_key `{Json}
        (workers consumer_redis_time : Z) (h : Redis.client)
        (srv0 srv : Redis.server) (ticks : list Consumer.tick)
        (tk : Consumer.tick) (st : Consumer.state)
        (entries : list (InternalMessageModel * Z)) :
  Consumer.processer workers consumer_redis_time (Ok h) srv0 ticks
  = Ok (st, srv) ->
  Consumer.t_online tk = true ->
  (forall f, Consumer.t_completes tk f <> Some Consumer.Raised) ->
  decode (Redis.webhook (Consumer.environment tk srv)) = Some entries ->
  exists st' srv',
    Consumer.processer workers consumer_redis_time (Ok h) srv0 (ticks ++ [tk])
    = Ok (st', srv')
    /\ forall f w',
        nth_error (Consumer.pool st') f = Some w' ->
        Consumer.w_state w' = Consumer.Finished (Consumer.Returned true) ->
        (forall w, nth_error (Consumer.pool st) f = Some w ->
                   Consumer.w_state w = Consumer.Running) ->
        attempt_count st' (Consumer.w_key w') = 0
        /\ dict_get (Consumer.w_key w') (Consumer.tries st') = None
        /\ dict_get (Consumer.w_key w') (Consumer.tasks st') = None
        /\ dict_get (Consumer.w_key w') (Consumer.messages_dict st') = None
        /\ forall m, In m (Consumer.w_messages w') ->
                     ~ In (json_dumps m) (members srv').
Proof.
  intros R On NC D.
  pose proof (processer_consistent _ _ _ _ _ _ _ R) as [WF C].
  pose proof (processer_no_raised _ _ _ _ _ _ _ R) as NR.
  unfold Consumer.processer in *. cbn [RedisDatabase.__init__ Py.bind] in *.
  set (database := {| RedisService.redis_repository :=
                        {| RedisDatabase.handler := Some h |} |}) in *.
  destruct (workers <=? 0); [discriminate R|].
  destruct (time_search_total database h (Consumer.environment tk srv)
              (Consumer.t_now tk) consumer_redis_time entries)
    as [messages TS]; auto.
  destruct (dispatch_total workers database h (Consumer.t_completes tk)
              messages st (Consumer.environment tk srv))
    as [[st' srv'] Di]; auto.
  exists st', srv'. split.
  - rewrite cycles_app, R. cbn [Py.bind fst snd Consumer.cycles].
    unfold Consumer.cycle. rewrite TS. cbn [Py.bind]. rewrite Di.
    reflexivity.
  - apply dispatch_spec in Di; auto.
    destruct Di as [_ [_ [_ Su]]].
    intros f w' P S Was.
    destruct (Su f w' P S Was) as [A [B [Cc Dd]]].
    unfold attempt_count. rewrite A. auto.
Qed.

Lemma success_clears_key_witness :
  exists st' srv',
    @Consumer.processer Demo.codec 10 60 (Ok Demo.client) (Demo.up [])
      ([] ++ [Demo.happy_turn]) = Ok (st', srv')
    /\ forall f w',
        nth_error (Consumer.pool st') f = Some w' ->
        Consumer.w_state w' = Consumer.Finished (Consumer.Returned true) ->
        (forall w, nth_error (Consumer.pool Consumer.initial) f = Some w ->
                   Consumer.w_state w = Consumer.Running) ->
        attempt_count st' (Consumer.w_key w') = 0
        /\ dict_get (Consumer.w_key w') (Consumer.tries st') = None
        /\ dict_get (Consumer.w_key w') (Consumer.tasks st') = None
        /\ dict_get (Consumer.w_key w') (Consumer.messages_dict st') = None
        /\ forall m, In m (Consumer.w_messages w') ->
                     ~ In (Demo.dumps m) (members srv').
Proof.
  apply (@success_clears_key Demo.codec 10 60 Demo.client (Demo.up [])
           (Demo.up []) [] Demo.happy_turn Consumer.initial
           [(Demo.A, seconds 0)]).
  - reflexivity.
  - reflexivity.
  - intros f. unfold Demo.happy_turn, Demo.turn, Demo.ends. cbn.
    destruct f; discriminate.
  - vm_compute. reflexivity.
Defined.

(** The happy turn, run: Alice's message is handed to a worker, the worker
    returns [True], and the turn leaves an empty queue and empty dicts. *)
Example happy_turn_runs :
  Demo.loop 10 [Demo.happy_turn]
  = Ok ({| Consumer.pool :=
             [{| Consumer.w_key := Consumer.composite_key_of Demo.A;
                 Consumer.w_tracked := false;
                 Consumer.w_messages := [Demo.A];
                 Consumer.w_state := Consumer.Finished (Consumer.Returned true) |}];
           Consumer.tasks := []; Consumer.tries := [];
           Consumer.messages_dict := [] |},
        Demo.up []).
Proof. vm_compute. reflexivity. Qed.

(** C5, as the code has it.  On a state whose retry counters all belong to
    tracked keys with a buffered batch, and against a server that answers,
    the eviction phase completes; every key whose counter exceeds 3 loses
    its counter, its buffered batch and its task handle, and the payloads
    of that buffered batch are no longer queued. *)
Theorem eviction_drops_failed_batch `{Json}
        (database : RedisService.t) (h : Redis.client)
        (st : Consumer.state) (srv : Redis.server) :
  RedisDatabase.handler (RedisService.redis_repository database) = Some h ->
  Redis.online srv = true ->
  well_formed st ->
  (forall k, In k (dict_keys (Consumer.tries st)) ->
             dict_mem k (Consumer.messages_dict st) = true
             /\ dict_mem k (Consumer.tasks st) = true) ->
  exists st' srv',
    Consumer.evict database (dict_keys (Consumer.tries st)) st srv
    = Ok (st', srv')
    /\ forall k n,
        dict_get k (Consumer.tries st) = Some n -> 3 < n ->
        dict_get k (Consumer.tries st') = None
        /\ dict_get k (Consumer.messages_dict st') = None
        /\ dict_get k (Consumer.tasks st') = None
        /\ forall batch m,
             dict_get k (Consumer.messages_dict st) = Some batch ->
             In m batch -> ~ In (json_dumps m) (members srv').
Proof.
  intros Hh O WF P.
  destruct (evict_total database h (dict_keys (Consumer.tries st)) Hh st srv)
    as [[st' srv'] E]; auto.
  { apply WF. }
  { intros k I. destruct (P k I) as [P1 P2]. conjs; auto.
    now apply dict_mem_keys. }
  exists st', srv'. split; [exact E|].
  apply evict_spec in E; [|apply WF|exact WF].
  destruct E as [_ [_ [_ [Ev _]]]].
  intros k n G L.
  assert (I : In k (dict_keys (Consumer.tries st))).
  { apply dict_mem_keys. apply dict_mem_true. eauto. }
  destruct (Ev k n I G L) as [A [B [C D]]]. auto.
Qed.

Lemma eviction_drops_failed_batch_witness :
  exists st' srv',
    @Consumer.evict Demo.codec Demo.database
      (dict_keys (Consumer.tries
         {| Consumer.pool :=
              [{| Consumer.w_key := Consumer.composite_key_of Demo.A;
                  Consumer.w_tracked := false;
                  Consumer.w_messages := [Demo.A];
                  Consumer.w_state := Consumer.Finished (Consumer.Returned false) |}];
            Consumer.tasks := [(Consumer.composite_key_of Demo.A, 0%nat)];
            Consumer.tries := [(Consumer.composite_key_of Demo.A, 4)];
            Consumer.messages_dict := [(Consumer.composite_key_of Demo.A, [Demo.A])] |}))
      {| Consumer.pool :=
           [{| Consumer.w_key := Consumer.composite_key_of Demo.A;
               Consumer.w_tracked := false;
               Consumer.w_messages := [Demo.A];
               Consumer.w_state := Consumer.Finished (Consumer.Returned false) |}];
         Consumer.tasks := [(Consumer.composite_key_of Demo.A, 0%nat)];
         Consumer.tries := [(Consumer.composite_key_of Demo.A, 4)];
         Consumer.messages_dict := [(Consumer.composite_key_of Demo.A, [Demo.A])] |}
      (Demo.up [(Demo.dumps Demo.A, seconds 0)])
    = Ok (st', srv')
    /\ forall k n,
        dict_get k [(Consumer.composite_key_of Demo.A, 4)] = Some n -> 3 < n ->
        dict_get k (Consumer.tries st') = None
        /\ dict_get k (Consumer.messages_dict st') = None
        /\ dict_get k (Consumer.tasks st') = None
        /\ forall batch m,
             dict_get k [(Consumer.composite_key_of Demo.A, [Demo.A])] = Some batch ->
             In m batch -> ~ In (Demo.dumps m) (members srv').
Proof.
  apply (@eviction_drops_failed_batch Demo.codec Demo.database Demo.client
           {| Consumer.pool :=
                [{| Consumer.w_key := Consumer.composite_key_of Demo.A;
                    Consumer.w_tracked := false;
                    Consumer.w_messages := [Demo.A];
                    Consumer.w_state := Consumer.Finished (Consumer.Returned false) |}];
              Consumer.tasks := [(Consumer.composite_key_of Demo.A, 0%nat)];
              Consumer.tries := [(Consumer.composite_key_of Demo.A, 4)];
              Consumer.messages_dict := [(Consumer.composite_key_of Demo.A, [Demo.A])] |}
           (Demo.up [(Demo.dumps Demo.A, seconds 0)])).
  - reflexivity.
  - reflexivity.
  - unfold well_formed. cbn.
    repeat split; repeat constructor; intros [].
  - intros k [<-|[]]. split; reflexivity.
Defined.

(** C5, as stated, fails: Alice's first message fails once and is evicted
    at the fourth turn, when her counter reaches 4; her second message,
    queued since the second turn under the same key, is still in the
    store after that eviction. *)
Lemma eviction_leaves_later_events :
  attempt_count (fst (Demo.after 10 (firstn 3 Demo.failing_turns_with_late_message)))
                (Consumer.composite_key_of Demo.A) = 3
  /\ Demo.loop 10 Demo.failing_turns_with_late_message
     = Ok ({| Consumer.pool :=
                [{| Consumer.w_key := Consumer.composite_key_of Demo.A;
                    Consumer.w_tracked := false;
                    Consumer.w_messages := [Demo.A];
                    Consumer.w_state := Consumer.Finished (Consumer.Returned false) |}];
              Consumer.tasks := []; Consumer.tries := [];
              Consumer.messages_dict := [] |},
           Demo.up [(Demo.dumps Demo.A', seconds 101)])
  /\ Consumer.composite_key_of Demo.A' = Consumer.composite_key_of Demo.A
  /\ In (Demo.dumps Demo.A')
        (members (snd (Demo.after 10 Demo.failing_turns_with_late_message))).
Proof.
  split; [vm_compute; reflexivity|].
  split; [vm_compute; reflexivity|].
  split; [vm_compute; reflexivity|].
  vm_compute. left. reflexivity.
Qed.

(** C3 on the code.  One message, one dispatch whose worker returns
    [False] during the first turn.  The future is never taken out of
    [tasks]: no second submission is ever made, every later turn counts
    the same failure again (1, 2, 3), and the fourth turn evicts the
    message from the store. *)
Example failed_dispatch_is_never_retried :
  Consumer.tries (fst (Demo.after 10 (firstn 1 Demo.failing_turns)))
  = [(Consumer.composite_key_of Demo.A, 1)]
  /\ Consumer.tries (fst (Demo.after 10 (firstn 2 Demo.failing_turns)))
     = [(Consumer.composite_key_of Demo.A, 2)]
  /\ Consumer.tries (fst (Demo.after 10 (firstn 3 Demo.failing_turns)))
     = [(Consumer.composite_key_of Demo.A, 3)]
  /\ List.length (Consumer.pool (fst (Demo.after 10 (firstn 3 Demo.failing_turns))))
     = 1%nat
  /\ members (snd (Demo.after 10 (firstn 3 Demo.failing_turns)))
     = [Demo.dumps Demo.A]
  /\ Demo.loop 10 Demo.failing_turns
     = Ok ({| Consumer.pool :=
                [{| Consumer.w_key := Consumer.composite_key_of Demo.A;
                    Consumer.w_tracked := false;
                    Consumer.w_messages := [Demo.A];
                    Consumer.w_state := Consumer.Finished (Consumer.Returned false) |}];
              Consumer.tasks := []; Consumer.tries := [];
              Consumer.messages_dict := [] |},
           Demo.up []).
Proof.
  repeat split; vm_compute; reflexivity.
Qed.

(** C6 on the code.  With one worker, Bob's key waits two turns while
    Alice's is served; each scan appends his one queued message to
    [messages_dict] again, and the batch finally submitted for him holds
    it three times. *)
Example deferred_key_gets_duplicates :
  members (snd (Demo.after 1 (firstn 2 Demo.crowded_turns)))
  = [Demo.dumps Demo.B]
  /\ option_map Consumer.w_messages
       (nth_error (Consumer.pool (fst (Demo.after 1 Demo.crowded_turns))) 1)
     = Some [Demo.B; Demo.B; Demo.B]
  /\ option_map Consumer.w_key
       (nth_error (Consumer.pool (fst (Demo.after 1 Demo.crowded_turns))) 1)
     = Some (Consumer.composite_key_of Demo.B)
  /\ Py.is_ok (Demo.loop 1 Demo.crowded_turns) = true.
Proof.
  repeat split; vm_compute; reflexivity.
Qed.

(* ===================================================================== *)
(** ** The chatbot scenarios of the design document, run                  *)
(* ===================================================================== *)

(** Scenario 3: the assistant's reply is stored at second 100; the channel
    brings it back at second 103 tagged as sent by a human.  The message
    is refused and no row is added. *)
Example scenario_echo :
  ChatBot._should_store_message
    (Demo.session 100 [Demo.row 1 100 "Ola" "llm"]) 1
    (Demo.stamped "103" " Ola " "hum") (seconds 103) = false
  /\ option_map (fun r => ChatBot.chats_messages (ChatBot.r_db r))
       (match @ChatBot.run Demo.collaborators Demo.wall_clock
                (Demo.session 100 [Demo.row 1 100 "Ola" "llm"])
                [Demo.stamped "103" " Ola " "hum"] with
        | Ok r => Some r
        | Raise _ => None
        end)
     = Some [Demo.row 1 100 "Ola" "llm"].
Proof. split; vm_compute; reflexivity. Qed.

(** A different text, or the same text 21 seconds later, is stored. *)
Example scenario_not_an_echo :
  ChatBot._should_store_message
    (Demo.session 100 [Demo.row 1 100 "Ola" "llm"]) 1
    (Demo.stamped "103" "Ola, tudo bem?" "hum") (seconds 103) = true
  /\ ChatBot._should_store_message
       (Demo.session 100 [Demo.row 1 100 "Ola" "llm"]) 1
       (Demo.stamped "121" "Ola" "hum") (seconds 121) = true
  /\ ChatBot._should_store_message
       (Demo.session 100 [Demo.row 1 100 "Ola" "llm"]) 1
       (Demo.stamped "120" "Ola" "hum") (seconds 120) = false.
Proof. repeat split; vm_compute; reflexivity. Qed.

(** Scenario 4: a human answers at second 200.  A customer message at
    second 450 gets the advisory; one at second 560 reaches the graph and
    its answer is sent. *)
Example scenario_cooldown :
  option_map ChatBot.r_response
    (match @ChatBot.run Demo.collaborators Demo.wall_clock
             (Demo.session 200 [Demo.row 1 200 "Bom dia" "hum"])
             [Demo.stamped "450" "Qual o preco?" "usr"] with
     | Ok r => Some r
     | Raise _ => None
     end)
  = Some ChatBot.HumanAdvisory
  /\ option_map (fun r => (ChatBot.r_response r,
                           List.length (ChatBot.r_effects r)))
       (match @ChatBot.run Demo.collaborators Demo.wall_clock
                (Demo.session 200 [Demo.row 1 200 "Bom dia" "hum"])
                [Demo.stamped "560" "Qual o preco?" "usr"] with
        | Ok r => Some r
        | Raise _ => None
        end)
     = Some (ChatBot.LlmMessage "Posso ajudar?", 2%nat).
Proof. split; vm_compute; reflexivity. Qed.

(* ===================================================================== *)
(** ** The event store: round trips, order and deletion                   *)
(* ===================================================================== *)

Lemma ascii_compare_N (a b : ascii) :
  Ascii.compare a b = N.compare (N_of_ascii a) (N_of_ascii b).
Proof. reflexivity. Qed.

Lemma string_compare_trans_le (s1 : string) :
  forall s2 s3,
    String.compare s1 s2 <> Gt -> String.compare s2 s3 <> Gt ->
    String.compare s1 s3 <> Gt.
Proof.
  induction s1 as [|c1 r1 IH]; intros [|c2 r2] [|c3 r3]; simpl; try congruence.
  rewrite !ascii_compare_N.
  destruct (N.compare_spec (N_of_ascii c1) (N_of_ascii c2)) as [E12|L12|G12];
    destruct (N.compare_spec (N_of_ascii c2) (N_of_ascii c3)) as [E23|L23|G23];
    try congruence; intros A B.
  - rewrite E12, E23, N.compare_refl. now apply (IH r2 r3).
  - rewrite E12. now apply N.compare_lt_iff in L23 as ->.
  - rewrite <- E23. now apply N.compare_lt_iff in L12 as ->.
  - assert (L : (N_of_ascii c1 < N_of_ascii c3)%N) by lia.
    now apply N.compare_lt_iff in L as ->.
Qed.

Lemma string_leb_trans (s1 s2 s3 : string) :
  String.leb s1 s2 = true -> String.leb s2 s3 = true -> String.leb s1 s3 = true.
Proof.
  unfold String.leb. intros A B.
  pose proof (string_compare_trans_le s1 s2 s3) as T.
  destruct (String.compare s1 s2); try discriminate;
    destruct (String.compare s2 s3); try discriminate;
    destruct (String.compare s1 s3); try reflexivity;
    exfalso; apply T; congruence.
Qed.

Lemma entry_leb_trans (a b c : string * Z) :
  Redis.entry_leb a b = true -> Redis.entry_leb b c = true ->
  Redis.entry_leb a c = true.
Proof.
  unfold Redis.entry_leb. intros A B.
  apply orb_true_iff in A. apply orb_true_iff in B. apply orb_true_iff.
  destruct A as [A|A]; destruct B as [B|B];
    rewrite ?andb_true_iff in *;
    rewrite ?Z.ltb_lt, ?Z.eqb_eq in *.
  - left. lia.
  - left. lia.
  - left. lia.
  - right. destruct A as [A1 A2], B as [B1 B2]. split; [lia|].
    eapply string_leb_trans; eauto.
Qed.

Lemma entry_leb_total (a b : string * Z) :
  Redis.entry_leb a b = false -> Redis.entry_leb b a = true.
Proof.
  unfold Redis.entry_leb. intros A.
  apply orb_false_iff in A. destruct A as [A B].
  apply Z.ltb_ge in A. apply orb_true_iff.
  destruct (Z.eqb_spec (snd a) (snd b)) as [E|N].
  - right. simpl in B. rewrite E, Z.eqb_refl. simpl.
    destruct (String.leb_total (fst a) (fst b)) as [L|L]; congruence.
  - left. apply Z.ltb_lt. lia.
Qed.

Lemma zinsert_In (e x : string * Z) (z : Redis.zset) :
  In x (Redis.zinsert e z) <-> x = e \/ In x z.
Proof.
  induction z as [|y r IH]; simpl.
  - intuition congruence.
  - destruct (Redis.entry_leb e y); simpl; rewrite ?IH; intuition congruence.
Qed.

Lemma zinsert_sorted (e : string * Z) (z : Redis.zset) :
  StronglySorted (fun a b => Redis.entry_leb a b = true) z ->
  StronglySorted (fun a b => Redis.entry_leb a b = true) (Redis.zinsert e z).
Proof.
  induction 1 as [|y r S IH F]; simpl.
  - repeat constructor.
  - destruct (Redis.entry_leb e y) eqn:L.
    + constructor; [now constructor|]. constructor; [exact L|].
      rewrite Forall_forall in *. intros x I.
      eapply entry_leb_trans; eauto.
    + constructor; [exact IH|]. apply Forall_forall. intros x I.
      apply zinsert_In in I. destruct I as [->|I].
      * now apply entry_leb_total.
      * rewrite Forall_forall in F. auto.
Qed.

Lemma filter_sorted {A} (R : A -> A -> Prop) (p : A -> bool) (l : list A) :
  StronglySorted R l -> StronglySorted R (filter p l).
Proof.
  induction 1 as [|y r S IH F]; simpl; [constructor|].
  destruct (p y); [|exact IH]. constructor; [exact IH|].
  rewrite Forall_forall in *. intros x I. apply filter_In in I. now apply F.
Qed.

Lemma NoDup_map_filter {A B} (key : A -> B) (keep : A -> bool) (rows : list A) :
  NoDup (map key rows) -> NoDup (map key (filter keep rows)).
Proof.
  induction rows as [|x r IH]; simpl; intros N; [constructor|].
  inversion N as [|? ? NI N']; subst.
  destruct (keep x); simpl; [|auto]. constructor; [|auto].
  intros I. apply NI. apply in_map_iff in I. destruct I as [y [E I]].
  apply filter_In in I. apply in_map_iff. exists y. tauto.
Qed.

Lemma map_fst_zinsert_In (e : string * Z) (z : Redis.zset) (p : string) :
  In p (map fst (Redis.zinsert e z)) <-> p = fst e \/ In p (map fst z).
Proof.
  split.
  - intros I. apply in_map_iff in I. destruct I as [x [E I]].
    apply zinsert_In in I. destruct I as [->|I]; [left; congruence|].
    right. apply in_map_iff. eauto.
  - intros [->|I]; apply in_map_iff.
    + exists e. split; [reflexivity|]. apply zinsert_In. now left.
    + apply in_map_iff in I. destruct I as [x [E I]]. exists x. split; [exact E|].
      apply zinsert_In. now right.
Qed.

Lemma zinsert_NoDup (e : string * Z) (z : Redis.zset) :
  ~ In (fst e) (map fst z) -> NoDup (map fst z) ->
  NoDup (map fst (Redis.zinsert e z)).
Proof.
  induction z as [|y r IH]; simpl; intros NI N.
  - constructor; [intros [] | constructor].
  - destruct (Redis.entry_leb e y); simpl.
    + constructor; [exact NI | exact N].
    + inversion N as [|? ? NIy N']; subst. constructor.
      * rewrite map_fst_zinsert_In. intros [E|I]; [|tauto].
        apply NI. now left.
      * apply IH; tauto.
Qed.

Lemma zrem_ok (member : string) (z : Redis.zset) :
  zset_ok z -> zset_ok (Redis.zrem member z).
Proof.
  intros [S N]. split.
  - now apply filter_sorted.
  - now apply NoDup_map_filter.
Qed.

Lemma zadd_ok (member : string) (score : Z) (z : Redis.zset) :
  zset_ok z -> zset_ok (Redis.zadd member score z).
Proof.
  intros O. apply (zrem_ok member) in O. destruct O as [S N].
  unfold Redis.zadd. split.
  - now apply zinsert_sorted.
  - apply zinsert_NoDup; [apply zrem_not_member | exact N].
Qed.

Lemma zrem_none (member : string) (z : Redis.zset) :
  ~ In member (map fst z) -> Redis.zrem member z = z.
Proof.
  unfold Redis.zrem. induction z as [|e r IH]; simpl; intros NI; [reflexivity|].
  destruct (String.eqb_spec (fst e) member) as [E|N]; [tauto|].
  simpl. f_equal. tauto.
Qed.

Lemma zrem_zinsert (member : string) (score : Z) (z : Redis.zset) :
  ~ In member (map fst z) ->
  Redis.zrem member (Redis.zinsert (member, score) z) = z.
Proof.
  unfold Redis.zrem. induction z as [|e r IH]; simpl; intros NI.
  - now rewrite String.eqb_refl.
  - destruct (Redis.entry_leb (member, score) e); simpl.
    + rewrite String.eqb_refl. simpl.
      destruct (String.eqb_spec (fst e) member) as [E|N]; [tauto|].
      simpl. f_equal. apply (zrem_none member r). tauto.
    + destruct (String.eqb_spec (fst e) member) as [E|N]; [tauto|].
      simpl. f_equal. tauto.
Qed.

Lemma zrem_zadd (member : string) (score : Z) (z : Redis.zset) :
  Redis.zrem member (Redis.zadd member score z) = Redis.zrem member z.
Proof.
  unfold Redis.zadd. apply zrem_zinsert, zrem_not_member.
Qed.

Lemma delete_message_run `{Json} (db : RedisDatabase.t) (srv : Redis.server)
      (message : InternalMessageModel) :
  RedisDatabase.handler db <> None -> Redis.online srv = true ->
  RedisDatabase.delete_message db srv message
  = Ok (Redis.with_webhook srv
          (Redis.zrem (json_dumps message) (Redis.webhook srv))).
Proof.
  unfold RedisDatabase.delete_message, RedisDatabase.get_handler, Redis.command.
  intros Hd On. destruct (RedisDatabase.handler db); [|congruence].
  simpl. now rewrite On.
Qed.

(** X1.  Round trip of the queue: deleting the message that was just
    saved always succeeds and leaves the sorted set as it was before the
    [save], apart from an older entry of the same payload, which is gone
    too; if the payload was not queued before, the set is unchanged. *)
Theorem save_then_delete_restores `{Json}
        (db : RedisDatabase.t) (srv srv1 : Redis.server)
        (data : InternalMessageModel) (now : Z) :
  RedisDatabase.save db srv data now = Ok srv1 ->
  exists srv2,
    RedisDatabase.delete_message db srv1 data = Ok srv2
    /\ Redis.webhook srv2 = Redis.zrem (json_dumps data) (Redis.webhook srv)
    /\ (~ In (json_dumps data) (members srv) ->
        Redis.webhook srv2 = Redis.webhook srv).
Proof.
  intros S. apply save_ok in S. destruct S as [_ [On [Hd W]]].
  eexists. split; [now apply delete_message_run|]. simpl.
  rewrite W, zrem_zadd. split; [reflexivity|].
  intros NI. now apply zrem_none.
Qed.

Lemma save_then_delete_restores_witness :
  exists srv2,
    @RedisDatabase.delete_message Demo.codec Demo.repository
      (Demo.up [(Demo.dumps Demo.B, 5); (Demo.dumps Demo.A, 9)]) Demo.A = Ok srv2
    /\ Redis.webhook srv2
       = Redis.zrem (Demo.dumps Demo.A) [(Demo.dumps Demo.B, 5)]
    /\ (~ In (Demo.dumps Demo.A) (members (Demo.up [(Demo.dumps Demo.B, 5)])) ->
        Redis.webhook srv2 = Redis.webhook (Demo.up [(Demo.dumps Demo.B, 5)])).
Proof.
  apply (@save_then_delete_restores Demo.codec Demo.repository
           (Demo.up [(Demo.dumps Demo.B, 5)])
           (Demo.up [(Demo.dumps Demo.B, 5); (Demo.dumps Demo.A, 9)])
           Demo.A 9).
  reflexivity.
Defined.

Lemma delete_messages_ok `{Json} (database : RedisService.t)
      (batch : list InternalMessageModel) :
  forall srv srv',
    RedisService.delete_messages database srv batch = Ok srv' ->
    Redis.online srv' = Redis.online srv
    /\ Redis.webhook srv'
       = filter (fun e => negb (listed (payloads batch) (fst e)))
                (Redis.webhook srv).
Proof.
  induction batch as [|m rest IH]; intros srv srv' E; simpl in E.
  - injection E as <-. split; [reflexivity|]. simpl.
    symmetry. apply filter_all. reflexivity.
  - apply bind_ok in E. destruct E as [s1 [D E]].
    apply delete_message_ok in D. destruct D as [On W1].
    apply IH in E. destruct E as [On' W']. split; [congruence|].
    rewrite W', W1. unfold Redis.zrem.
    clear. induction (Redis.webhook srv) as [|e r IHr]; simpl; [reflexivity|].
    rewrite (String.eqb_sym (fst e)).
    destruct (String.eqb (json_dumps m) (fst e)); simpl; [exact IHr|].
    destruct (listed (payloads rest) (fst e)); simpl; [exact IHr|].
    now f_equal.
Qed.

(** X2.  The queue stays a sorted set: if its entries are in ascending
    order of (score, member) and no payload occurs twice, the same holds
    after [save] and after [delete_messages], and the scan returned by
    [retrieve_messages] lists each payload once, in ascending order of
    score. *)
Theorem queue_stays_sorted_and_unique `{Json}
        (database : RedisService.t) (srv : Redis.server) :
  zset_ok (Redis.webhook srv) ->
  (forall data now srv',
      RedisService.save database srv data now = Ok srv' ->
      zset_ok (Redis.webhook srv'))
  /\ (forall batch srv',
        RedisService.delete_messages database srv batch = Ok srv' ->
        zset_ok (Redis.webhook srv'))
  /\ (forall scan,
        RedisService.retrieve_messages database srv = Ok scan ->
        StronglySorted (fun a b => snd a <= snd b) scan
        /\ NoDup (map fst scan)).
Proof.
  intros O. conjs.
  - intros data now srv' S. apply save_ok in S.
    destruct S as [_ [_ [_ ->]]]. now apply zadd_ok.
  - intros batch srv' D. apply delete_messages_ok in D.
    destruct D as [_ ->]. destruct O as [S N]. split.
    + now apply filter_sorted.
    + now apply NoDup_map_filter.
  - intros scan R.
    unfold RedisService.retrieve_messages, RedisDatabase.retrieve_messages,
      RedisDatabase.get_handler, Redis.command in R.
    destruct (RedisDatabase.handler _); [|discriminate]. simpl in R.
    destruct (Redis.online srv); [|discriminate]. injection R as <-.
    destruct O as [S N]. split; [|exact N].
    clear N. induction S as [|e r S IH F]; constructor; [exact IH|].
    rewrite Forall_forall in *. intros x I. apply F in I.
    unfold Redis.entry_leb in I. apply orb_true_iff in I.
    destruct I as [I|I]; [apply Z.ltb_lt in I; lia|].
    apply andb_true_iff in I. destruct I as [I _]. apply Z.eqb_eq in I. lia.
Qed.

Lemma queue_stays_sorted_and_unique_witness :
  (forall data now srv',
      @RedisService.save Demo.codec Demo.database
        (Demo.up [(Demo.dumps Demo.B, 5); (Demo.dumps Demo.A, 9)]) data now
      = Ok srv' ->
      zset_ok (Redis.webhook srv'))
  /\ (forall batch srv',
        @RedisService.delete_messages Demo.codec Demo.database
          (Demo.up [(Demo.dumps Demo.B, 5); (Demo.dumps Demo.A, 9)]) batch
        = Ok srv' ->
        zset_ok (Redis.webhook srv'))
  /\ (forall scan,
        RedisService.retrieve_messages Demo.database
          (Demo.up [(Demo.dumps Demo.B, 5); (Demo.dumps Demo.A, 9)]) = Ok scan ->
        StronglySorted (fun a b => snd a <= snd b) scan
        /\ NoDup (map fst scan)).
Proof.
  apply (@queue_stays_sorted_and_unique Demo.codec Demo.database
           (Demo.up [(Demo.dumps Demo.B, 5); (Demo.dumps Demo.A, 9)])).
  split.
  - repeat constructor.
  - simpl. constructor.
    + intros [E|[]]. vm_compute in E. discriminate E.
    + constructor; [intros [] | constructor].
Defined.

Lemma filter_filter_same {A} (p : A -> bool) (l : list A) :
  filter p (filter p l) = filter p l.
Proof.
  induction l as [|x r IH]; simpl; [reflexivity|].
  destruct (p x) eqn:P; simpl; rewrite ?P, IH; reflexivity.
Qed.

(** X3.  [delete_messages] removes exactly the entries whose payload is
    the encoding of a message of the batch: every other entry stays, with
    its score and in its place.  Deleting the same batch again succeeds and
    changes nothing. *)
Theorem delete_messages_removes_exactly_the_batch `{Json}
        (database : RedisService.t) (srv srv' : Redis.server)
        (batch : list InternalMessageModel) :
  RedisService.delete_messages database srv batch = Ok srv' ->
  Redis.webhook srv'
  = filter (fun e => negb (listed (payloads batch) (fst e))) (Redis.webhook srv)
  /\ RedisService.delete_messages database srv' batch = Ok srv'.
Proof.
  intros D. pose proof (delete_messages_ok database batch srv srv' D) as [On W].
  split; [exact W|].
  destruct batch as [|m rest]; [reflexivity|].
  assert (Hd : RedisDatabase.handler (RedisService.redis_repository database)
               <> None /\ Redis.online srv = true).
  { simpl in D. unfold RedisDatabase.delete_message, RedisDatabase.get_handler,
      Redis.command in D.
    destruct (RedisDatabase.handler _); [|discriminate]. simpl in D.
    destruct (Redis.online srv); [|discriminate]. split; congruence. }
  destruct Hd as [Hd O].
  destruct (RedisDatabase.handler (RedisService.redis_repository database))
    as [h|] eqn:Hh; [|congruence].
  destruct (delete_messages_total database h (m :: rest) Hh srv')
    as [srv2 D2]; [congruence|].
  rewrite D2. f_equal.
  apply delete_messages_ok in D2. destruct D2 as [On2 W2].
  rewrite W in W2. rewrite filter_filter_same in W2. rewrite <- W in W2.
  destruct srv2, srv'. simpl in *. congruence.
Qed.

Lemma delete_messages_removes_exactly_the_batch_witness :
  Redis.webhook (Demo.up [(Demo.dumps Demo.B, 5)])
  = filter (fun e => negb (listed (@payloads Demo.codec [Demo.A; Demo.A'])
                                  (fst e)))
           (Redis.webhook
              (Demo.up [(Demo.dumps Demo.A, 3); (Demo.dumps Demo.B, 5);
                        (Demo.dumps Demo.A', 9)]))
  /\ @RedisService.delete_messages Demo.codec Demo.database
       (Demo.up [(Demo.dumps Demo.B, 5)]) [Demo.A; Demo.A']
     = Ok (Demo.up [(Demo.dumps Demo.B, 5)]).
Proof.
  apply (@delete_messages_removes_exactly_the_batch Demo.codec Demo.database
           (Demo.up [(Demo.dumps Demo.A, 3); (Demo.dumps Demo.B, 5);
                     (Demo.dumps Demo.A', 9)])
           (Demo.up [(Demo.dumps Demo.B, 5)]) [Demo.A; Demo.A']).
  reflexivity.
Defined.

(** X4.  [delete_messages] raises exactly when the batch is not empty and
    either the repository has no handler ([AttributeError]) or the server
    cannot be reached ([ConnectionError]).  An empty batch never touches
    the connection. *)
Theorem delete_messages_raises_iff `{Json}
        (database : RedisService.t) (srv : Redis.server)
        (batch : list InternalMessageModel) (e : exn) :
  RedisService.delete_messages database srv batch = Raise e
  <-> batch <> []
      /\ match RedisDatabase.handler (RedisService.redis_repository database) with
         | None => e = AttributeError
         | Some _ => Redis.online srv = false /\ e = ConnectionError
         end.
Proof.
  destruct batch as [|m rest].
  - simpl. split; [discriminate | intros [[] _]; reflexivity].
  - destruct (RedisDatabase.handler (RedisService.redis_repository database))
      as [h|] eqn:Hh.
    + destruct (Redis.online srv) eqn:O.
      * destruct (delete_messages_total database h (m :: rest) Hh srv O)
          as [srv' ->].
        split; [discriminate | intros [_ [? _]]; discriminate].
      * cbn [RedisService.delete_messages].
        unfold RedisDatabase.delete_message, RedisDatabase.get_handler,
          Redis.command. rewrite Hh, O. simpl.
        split; [intros [= <-]; repeat split; discriminate
               | intros [_ [_ ->]]; reflexivity].
    + cbn [RedisService.delete_messages].
      unfold RedisDatabase.delete_message, RedisDatabase.get_handler.
      rewrite Hh. simpl.
      split; [intros [= <-]; split; [discriminate | reflexivity]
             | intros [_ ->]; reflexivity].
Qed.

(* ===================================================================== *)
(** ** The scan: grouping and outcomes of [time_search]                   *)
(* ===================================================================== *)

Lemma group_messages_from_raises `{Json} (scan : list (string * Z)) :
  forall g, decode scan = None ->
            RedisService.group_messages_from g scan = Raise JSONDecodeError.
Proof.
  induction scan as [|[raw score] rest IH]; intros g D; simpl in *.
  - discriminate.
  - destruct (json_loads raw) as [item|]; [|reflexivity].
    apply IH. destruct (decode rest); [discriminate | reflexivity].
Qed.

Lemma decode_None `{Json} (scan : list (string * Z)) :
  decode scan = None <-> exists raw, In raw (map fst scan) /\ json_loads raw = None.
Proof.
  induction scan as [|[raw score] rest IH]; simpl.
  - split; [discriminate | intros [? [[] _]]].
  - destruct (json_loads raw) as [item|] eqn:L.
    + destruct (decode rest) as [l|].
      * split; [discriminate|]. intros [r [[<-|I] E]]; [simpl in E; congruence|].
        assert (X : Some l = None) by (apply IH; eauto). discriminate X.
      * split; [|reflexivity]. intros _.
        destruct (proj1 IH eq_refl) as [r [I E]]. eauto.
    + split; [|reflexivity]. intros _. exists raw. auto.
Qed.

(** X5.  [group_messages] splits the scan by conversation: when every
    payload decodes, each pair (store number, user number) is mapped to
    the entries of that conversation in scan order, each key occurs once
    and no list is empty.  When one payload does not decode the call
    raises: no partial grouping is returned. *)
Theorem group_messages_partitions_the_scan `{Json} (scan : list (string * Z)) :
  (forall es, decode scan = Some es ->
     exists g, RedisService.group_messages scan = Ok g
               /\ grouped_wf g
               /\ forall sp ph, lookup2 g sp ph = group_of sp ph es)
  /\ ((exists raw, In raw (map fst scan) /\ json_loads raw = None) ->
      is_ok (RedisService.group_messages scan) = false).
Proof.
  split.
  - intros es D.
    destruct (group_messages_from_spec scan [] [] es) as [g [G [W L]]]; auto.
    { split; [constructor | intros ? ? []]. }
    exists g. auto.
  - intros B. apply decode_None in B. unfold RedisService.group_messages.
    now rewrite group_messages_from_raises.
Qed.

Lemma group_messages_partitions_the_scan_witness :
  (exists g, @RedisService.group_messages Demo.codec
               [(Demo.dumps Demo.A, 3); (Demo.dumps Demo.B, 5);
                (Demo.dumps Demo.A', 9)] = Ok g
             /\ grouped_wf g
             /\ forall sp ph,
                 lookup2 g sp ph
                 = group_of sp ph [(Demo.A, 3); (Demo.B, 5); (Demo.A', 9)])
  /\ is_ok (@RedisService.group_messages Demo.codec
              [(Demo.dumps Demo.A, 3); ("{"%string, 4)]) = false.
Proof.
  split.
  - apply (proj1 (@group_messages_partitions_the_scan Demo.codec
                    [(Demo.dumps Demo.A, 3); (Demo.dumps Demo.B, 5);
                     (Demo.dumps Demo.A', 9)])
             [(Demo.A, 3); (Demo.B, 5); (Demo.A', 9)]).
    reflexivity.
  - apply (proj2 (@group_messages_partitions_the_scan Demo.codec
                    [(Demo.dumps Demo.A, 3); ("{"%string, 4)])).
    exists "{"%string. split; [simpl; auto | reflexivity].
Defined.

(** X6.  The outcomes of [time_search]: without a handler it raises
    [AttributeError]; with an unreachable server, [ConnectionError].  With
    the server reachable, one undecodable payload makes the scan fail, and
    not with [IndexError]: [messages[-1]] is only evaluated on groups that
    hold a message.  When every queued payload decodes and the threshold,
    the clock reading less the waiting time, is an instant a [datetime]
    can hold, it returns. *)
Theorem time_search_outcomes `{Json}
        (self : RedisService.t) (srv : Redis.server)
        (now time_threshold_seconds : Z) :
  match RedisDatabase.handler (RedisService.redis_repository self) with
  | None =>
      RedisService.time_search self srv now time_threshold_seconds
      = Raise AttributeError
  | Some _ =>
      if Redis.online srv then
        match decode (Redis.webhook srv) with
        | Some _ =>
            threshold_ok now time_threshold_seconds = true ->
            is_ok (RedisService.time_search self srv now time_threshold_seconds)
            = true
        | None =>
            is_ok (RedisService.time_search self srv now time_threshold_seconds)
            = false
            /\ RedisService.time_search self srv now time_threshold_seconds
               <> Raise IndexError
        end
      else
        RedisService.time_search self srv now time_threshold_seconds
        = Raise ConnectionError
  end.
Proof.
  destruct (RedisDatabase.handler (RedisService.redis_repository self))
    as [h|] eqn:Hh.
  - destruct (Redis.online srv) eqn:O.
    + destruct (decode (Redis.webhook srv)) as [es|] eqn:D.
      * intros _.
        destruct (time_search_total self h srv now time_threshold_seconds es
                    Hh O D) as [out ->]. reflexivity.
      * unfold RedisService.time_search, RedisService.retrieve_messages,
          RedisDatabase.retrieve_messages, RedisDatabase.get_handler,
          Redis.command, RedisService.group_messages.
        rewrite Hh, O. cbn [Py.bind].
        rewrite group_messages_from_raises by exact D.
        split; [reflexivity | discriminate].
    + unfold RedisService.time_search, RedisService.retrieve_messages,
        RedisDatabase.retrieve_messages, RedisDatabase.get_handler,
        Redis.command. now rewrite Hh, O.
  - unfold RedisService.time_search, RedisService.retrieve_messages,
      RedisDatabase.retrieve_messages, RedisDatabase.get_handler.
    now rewrite Hh.
Qed.

Lemma time_search_outcomes_witness :
  threshold_ok (seconds 100) 60 = true
  /\ is_ok (@RedisService.time_search Demo.codec Demo.database
              (Demo.up [(Demo.dumps Demo.A, seconds 0);
                        (Demo.dumps Demo.B, seconds 30)])
              (seconds 100) 60) = true.
Proof.
  split; [vm_compute; reflexivity|].
  generalize (@time_search_outcomes Demo.codec Demo.database
                (Demo.up [(Demo.dumps Demo.A, seconds 0);
                          (Demo.dumps Demo.B, seconds 30)])
                (seconds 100) 60).
  vm_compute. intros W. apply W. reflexivity.
Defined.

Lemma eligible_batch_mono (cut cut' : Z) (l : list (InternalMessageModel * Z))
      (m : InternalMessageModel) :
  cut <= cut' -> In m (eligible_batch cut l) -> In m (eligible_batch cut' l).
Proof.
  unfold eligible_batch. intros L.
  destruct (last_item (sort_by snd l)) as [newest|]; [|auto].
  destruct (Z.ltb_spec (snd newest) cut); [|intros []].
  destruct (Z.ltb_spec (snd newest) cut'); [auto | lia].
Qed.

(** X7.  On the same queue a later clock reading returns at least what
    an earlier one does: a conversation that has become eligible stays
    eligible as long as the queue does not change. *)
Theorem time_search_is_monotone_in_time `{Json}
        (self : RedisService.t) (srv : Redis.server)
        (now later time_threshold_seconds : Z)
        (out : list InternalMessageModel) :
  now <= later ->
  RedisService.time_search self srv now time_threshold_seconds = Ok out ->
  exists out',
    RedisService.time_search self srv later time_threshold_seconds = Ok out'
    /\ forall m, In m out -> In m out'.
Proof.
  intros L T.
  unfold RedisService.time_search in *.
  apply bind_ok in T. destruct T as [scan [R T]]. rewrite R. cbn [Py.bind].
  apply bind_ok in T. destruct T as [g [G T]]. rewrite G. cbn [Py.bind].
  destruct (group_messages_decodes scan [] g G) as [es D].
  destruct (group_messages_from_spec scan [] [] es) as [g' [G' [[ND W] _]]]; auto.
  { split; [constructor | intros ? ? []]. }
  unfold RedisService.group_messages in G. rewrite G in G'. injection G' as <-.
  unfold RedisService.filter_messages in *.
  rewrite filter_stores_ok in * by (intros a inner I; now apply (W a inner)).
  injection T as <-. eexists. split; [reflexivity|].
  cbn [app]. intros m I.
  apply in_flat_map in I. destruct I as [s [Is I]].
  apply in_flat_map in I. destruct I as [e [Ie I]].
  apply in_flat_map. exists s. split; [exact Is|].
  apply in_flat_map. exists e. split; [exact Ie|].
  revert I. apply eligible_batch_mono. lia.
Qed.

Lemma time_search_is_monotone_in_time_witness :
  exists out',
    @RedisService.time_search Demo.codec Demo.database
      (Demo.up [(Demo.dumps Demo.A, seconds 0); (Demo.dumps Demo.B, seconds 30)])
      (seconds 100) 60 = Ok out'
    /\ forall m, In m [Demo.A] -> In m out'.
Proof.
  apply (@time_search_is_monotone_in_time Demo.codec Demo.database
           (Demo.up [(Demo.dumps Demo.A, seconds 0);
                     (Demo.dumps Demo.B, seconds 30)])
           (seconds 65) (seconds 100) 60 [Demo.A]).
  - vm_compute. discriminate.
  - vm_compute. reflexivity.
Defined.

(* ===================================================================== *)
(** ** The consumer loop: keys, worker slots and worker exceptions        *)
(* ===================================================================== *)

Lemma append_separator_injective (a1 : string) :
  forall a2 b1 b2,
    free_of "_" a1 = true -> free_of "_" a2 = true ->
    (a1 ++ "_" ++ b1 = a2 ++ "_" ++ b2)%string -> a1 = a2 /\ b1 = b2.
Proof.
  induction a1 as [|c r IH]; intros [|c2 r2] b1 b2 F1 F2 E; simpl in *.
  - injection E as <-. auto.
  - injection E as <- _. rewrite Ascii.eqb_refl in F2. discriminate.
  - injection E as -> _. rewrite Ascii.eqb_refl in F1. discriminate.
  - injection E as <- E. apply andb_true_iff in F1, F2.
    destruct (IH r2 b1 b2) as [<- <-]; tauto.
Qed.

(** X8.  When the user numbers hold no underscore, two messages have the
    same composite key
    [f"{phone}_{store_phone}"] exactly when they agree on both numbers:
    the loop tracks one task per conversation. *)
Theorem composite_key_separates_conversations (m1 m2 : InternalMessageModel) :
  free_of "_" (phone m1) = true -> free_of "_" (phone m2) = true ->
  (Consumer.composite_key_of m1 = Consumer.composite_key_of m2
   <-> phone m1 = phone m2 /\ store_phone m1 = store_phone m2).
Proof.
  intros F1 F2. unfold Consumer.composite_key_of. split.
  - now apply append_separator_injective.
  - intros [-> ->]. reflexivity.
Qed.

Lemma composite_key_separates_conversations_witness :
  Consumer.composite_key_of Demo.A = Consumer.composite_key_of Demo.A'
  <-> phone Demo.A = phone Demo.A' /\ store_phone Demo.A = store_phone Demo.A'.
Proof.
  apply (composite_key_separates_conversations Demo.A Demo.A'); reflexivity.
Defined.

Lemma dict_set_len {V} (k : string) (v : V) (d : dict V) :
  dict_len (dict_set k v d) <= dict_len d + 1.
Proof.
  unfold dict_len. induction d as [|[k' v'] r IH]; simpl List.length.
  - lia.
  - simpl. destruct (String.eqb k' k); simpl List.length; lia.
Qed.

Lemma dict_del_len {V} (k : string) (d : dict V) :
  dict_len (dict_del k d) <= dict_len d.
Proof.
  unfold dict_len. induction d as [|[k' v'] r IH]; simpl; [lia|].
  destruct (String.eqb k' k); simpl List.length; lia.
Qed.

Lemma submit_keys_bound (workers : Z) (key_list : list string) :
  forall st st',
    Consumer.submit_keys workers key_list st = Ok st' ->
    dict_len (Consumer.tasks st) <= workers ->
    dict_len (Consumer.tasks st') <= workers.
Proof.
  induction key_list as [|k rest IH]; intros st st' E B; simpl in E.
  - now injection E as <-.
  - destruct (Z.ltb_spec (dict_len (Consumer.tasks st)) workers) as [L|L].
    + apply bind_ok in E. destruct E as [batch [_ E]].
      apply IH in E; [exact E|]. simpl.
      pose proof (dict_set_len k (List.length (Consumer.pool st))
                    (Consumer.tasks st)). lia.
    + now injection E as <-.
Qed.

Lemma reap_frame (keys : list string) :
  forall st done_tasks st' done_tasks',
    Consumer.reap keys st done_tasks = Ok (st', done_tasks') ->
    Consumer.pool st' = Consumer.pool st
    /\ Consumer.tasks st' = Consumer.tasks st
    /\ Consumer.messages_dict st' = Consumer.messages_dict st.
Proof.
  induction keys as [|k rest IH]; intros st d st' d' E; simpl in E.
  - injection E as <- <-. auto.
  - apply bind_ok in E. destruct E as [f [_ E]].
    apply bind_ok in E. destruct E as [w [_ E]].
    destruct (Consumer.w_state w) as [|[[|]|]].
    + now apply IH in E.
    + apply IH in E. destruct (dict_mem k (Consumer.tries st)); exact E.
    + apply bind_ok in E. destruct E as [n [_ E]]. now apply IH in E.
    + discriminate.
Qed.

Lemma remove_done_bound `{Json} (database : RedisService.t)
      (done_tasks : list string) :
  forall st srv st' srv',
    Consumer.remove_done database done_tasks st srv = Ok (st', srv') ->
    dict_len (Consumer.tasks st') <= dict_len (Consumer.tasks st).
Proof.
  induction done_tasks as [|k rest IH]; intros st srv st' srv' E; simpl in E.
  - injection E as <- <-. lia.
  - apply bind_ok in E. destruct E as [t' [P E]].
    apply bind_ok in E. destruct E as [batch [_ E]].
    apply bind_ok in E. destruct E as [s1 [_ E]].
    apply IH in E. simpl in E. apply dict_pop_ok in P. destruct P as [-> _].
    pose proof (dict_del_len k (Consumer.tasks st)). lia.
Qed.

Lemma evict_bound `{Json} (database : RedisService.t) (keys : list string) :
  forall st srv st' srv',
    Consumer.evict database keys st srv = Ok (st', srv') ->
    dict_len (Consumer.tasks st') <= dict_len (Consumer.tasks st).
Proof.
  induction keys as [|k rest IH]; intros st srv st' srv' E; simpl in E.
  - injection E as <- <-. lia.
  - apply bind_ok in E. destruct E as [n [_ E]].
    destruct (3 <? n).
    + apply bind_ok in E. destruct E as [batch [_ E]].
      apply bind_ok in E. destruct E as [s1 [_ E]].
      apply bind_ok in E. destruct E as [tr [_ E]].
      apply bind_ok in E. destruct E as [md [_ E]].
      apply bind_ok in E. destruct E as [t' [P E]].
      apply IH in E. simpl in E. apply dict_pop_ok in P. destruct P as [-> _].
      pose proof (dict_del_len k (Consumer.tasks st)). lia.
    + now apply IH in E.
Qed.

Lemma dispatch_bound `{Json} (workers : Z) (database : RedisService.t)
      (completes : nat -> option Consumer.outcome)
      (messages : list InternalMessageModel)
      (st st' : Consumer.state) (srv srv' : Redis.server) :
  Consumer.dispatch workers database completes messages st srv = Ok (st', srv') ->
  dict_len (Consumer.tasks st) <= workers ->
  dict_len (Consumer.tasks st') <= workers.
Proof.
  unfold Consumer.dispatch. intros E B.
  apply bind_ok in E. destruct E as [st1 [E1 E]].
  apply bind_ok in E. destruct E as [[st2 done_tasks] [E2 E]].
  apply bind_ok in E. destruct E as [[st3 srv3] [E3 E]]. simpl in *.
  unfold Consumer.buffer_and_submit in E1.
  destruct (Consumer.collect _ _ _ _ _) as [key_list buffered].
  apply submit_keys_bound in E1; [|exact B].
  apply reap_frame in E2. destruct E2 as [_ [T2 _]].
  unfold Consumer.advance, Consumer.set_pool in T2. simpl in T2.
  apply remove_done_bound in E3. apply evict_bound in E.
  rewrite T2 in E3. lia.
Qed.

Lemma cycles_bound `{Json} (workers consumer_redis_time : Z)
      (database : RedisService.t) (ticks : list Consumer.tick) :
  forall st srv st' srv',
    Consumer.cycles workers consumer_redis_time database ticks st srv
    = Ok (st', srv') ->
    dict_len (Consumer.tasks st) <= workers ->
    dict_len (Consumer.tasks st') <= workers.
Proof.
  induction ticks as [|tk rest IH]; intros st srv st' srv' E B; simpl in E.
  - now injection E as <- <-.
  - apply bind_ok in E. destruct E as [[st1 srv1] [C E]].
    apply cycle_spec in C. destruct C as [messages D].
    apply dispatch_bound in D; [|exact B]. now apply IH in E.
Qed.

(** X9.  After any number of turns of the loop started with a positive
    number of workers, [tasks] holds at most [workers] keys; futures that
    returned [False] and wait for eviction are counted among them. *)
Theorem tracked_keys_never_exceed_workers `{Json}
        (workers consumer_redis_time : Z) (made : result Redis.client)
        (srv0 : Redis.server) (ticks : list Consumer.tick)
        (st : Consumer.state) (srv : Redis.server) :
  0 < workers ->
  Consumer.processer workers consumer_redis_time made srv0 ticks = Ok (st, srv) ->
  dict_len (Consumer.tasks st) <= workers.
Proof.
  intros W E. unfold Consumer.processer in E.
  apply bind_ok in E. destruct E as [repository [_ E]]. cbv beta zeta in E.
  destruct (workers <=? 0); [discriminate E|].
  apply cycles_bound in E; [exact E|]. simpl. unfold dict_len. simpl. lia.
Qed.

Lemma tracked_keys_never_exceed_workers_witness :
  dict_len (Consumer.tasks (fst (Demo.after 1 Demo.crowded_turns))) <= 1.
Proof.
  apply (@tracked_keys_never_exceed_workers Demo.codec 1 60 (Ok Demo.client)
           (Demo.up []) Demo.crowded_turns
           (fst (Demo.after 1 Demo.crowded_turns))
           (snd (Demo.after 1 Demo.crowded_turns))).
  - lia.
  - vm_compute. reflexivity.
Defined.

Lemma reap_raises_task_exception (keys : list string) :
  forall st done_tasks e,
    (forall k, In k keys ->
       exists f w, dict_get k (Consumer.tasks st) = Some f
                   /\ nth_error (Consumer.pool st) f = Some w) ->
    Consumer.reap keys st done_tasks = Raise e -> e = TaskException.
Proof.
  induction keys as [|k rest IH]; intros st d e T E; simpl in E;
    [discriminate|].
  destruct (T k (or_introl eq_refl)) as [f [w [Tk Pf]]].
  rewrite Tk in E. cbn [subscript Py.bind] in E.
  rewrite Pf in E. cbn [subscript Py.bind] in E.
  assert (T' : forall k0, In k0 rest ->
             exists f0 w0, dict_get k0 (Consumer.tasks st) = Some f0
                           /\ nth_error (Consumer.pool st) f0 = Some w0)
    by (intros k0 I; apply T; now right).
  destruct (Consumer.w_state w) as [|[[|]|]].
  - now apply IH in E.
  - destruct (dict_mem k (Consumer.tries st)); now apply IH in E.
  - destruct (dict_mem k (Consumer.tries st)) eqn:M.
    + apply dict_mem_true in M. destruct M as [n M]. rewrite M in E.
      cbn [subscript Py.bind] in E. now apply IH in E.
    + rewrite dict_get_set_eq in E. cbn [subscript Py.bind] in E.
      now apply IH in E.
  - now injection E as <-.
Qed.

Lemma advance_from_finishes (c : nat -> option Consumer.outcome)
      (p : list Consumer.work_item) :
  forall i f w o,
    nth_error p f = Some w -> Consumer.w_state w = Consumer.Running ->
    c (i + f)%nat = Some o ->
    exists w', nth_error (Consumer.advance_from i c p) f = Some w'
               /\ Consumer.w_state w' = Consumer.Finished o.
Proof.
  induction p as [|x r IH]; intros i [|f] w o N R C; simpl in *;
    try discriminate.
  - injection N as ->. rewrite R. rewrite Nat.add_0_r in C. rewrite C.
    eexists. split; reflexivity.
  - apply (IH (S i) f w o N R).
    replace (S i + f)%nat with (i + S f)%nat by lia. exact C.
Qed.

(** X10.  An exception in a worker thread ends the loop: if a future
    that was running finishes with an exception before the loop looks at
    it, [task.result()] re-raises it and the turn raises instead of
    completing. *)
Theorem worker_exception_stops_the_loop `{Json}
        (workers : Z) (database : RedisService.t)
        (completes : nat -> option Consumer.outcome)
        (messages : list InternalMessageModel)
        (st : Consumer.state) (srv : Redis.server)
        (f : nat) (w : Consumer.work_item) :
  well_formed st -> consistent st ->
  nth_error (Consumer.pool st) f = Some w ->
  Consumer.w_state w = Consumer.Running ->
  completes f = Some Consumer.Raised ->
  Consumer.dispatch workers database completes messages st srv
  = Raise TaskException.
Proof.
  intros W C N R Cf. unfold Consumer.dispatch.
  destruct (buffer_and_submit_total workers messages st W) as [st1 E1].
  rewrite E1. cbn [Py.bind].
  destruct (buffer_and_submit_spec workers messages st st1 E1 W C)
    as [W1 [C1 [_ [Keep _]]]].
  apply Keep in N.
  destruct (advance_spec completes st1 W1 C1) as [W2 C2].
  assert (Tk : dict_get (Consumer.w_key w) (Consumer.tasks st1) = Some f)
    by (now apply C1).
  destruct (advance_from_finishes completes (Consumer.pool st1) 0 f w
              Consumer.Raised N R Cf) as [w' [N' S']].
  assert (All : forall k,
             In k (dict_keys (Consumer.tasks st1)) ->
             exists f0 w0,
               dict_get k (Consumer.tasks (Consumer.advance completes st1))
               = Some f0
               /\ nth_error (Consumer.pool (Consumer.advance completes st1)) f0
                  = Some w0).
  { intros k I. destruct (dict_get k (Consumer.tasks st1)) as [f0|] eqn:G.
    - destruct C2 as [C21 _]. destruct (C21 k f0 G) as [w0 [P0 _]]. eauto.
    - apply dict_get_keys in G. contradiction. }
  destruct (Consumer.reap (dict_keys (Consumer.tasks st1))
              (Consumer.advance completes st1) []) as [r|e] eqn:E2.
  - exfalso.
    apply (reap_no_raise _ _ _ _ E2 (Consumer.w_key w) f w'); auto.
    destruct (In_dec string_dec (Consumer.w_key w)
                (dict_keys (Consumer.tasks st1))) as [I|NI]; [exact I|].
    apply dict_get_keys in NI. congruence.
  - apply reap_raises_task_exception in E2; [|exact All]. now subst e.
Qed.

Lemma worker_exception_stops_the_loop_witness :
  @Consumer.dispatch Demo.codec 10 Demo.database
    (fun _ => Some Consumer.Raised) []
    (fst (Demo.after 10 [Demo.turn 100 [(Demo.A, seconds 0)] Demo.nothing]))
    (Demo.up [(Demo.dumps Demo.A, seconds 0)])
  = Raise TaskException.
Proof.
  apply (@worker_exception_stops_the_loop Demo.codec 10 Demo.database
           (fun _ => Some Consumer.Raised) []
           (fst (Demo.after 10 [Demo.turn 100 [(Demo.A, seconds 0)] Demo.nothing]))
           (Demo.up [(Demo.dumps Demo.A, seconds 0)]) 0%nat
           {| Consumer.w_key := Consumer.composite_key_of Demo.A;
              Consumer.w_tracked := false;
              Consumer.w_messages := [Demo.A];
              Consumer.w_state := Consumer.Running |}).
  - apply (@processer_consistent Demo.codec 10 60 (Ok Demo.client) (Demo.up [])
             [Demo.turn 100 [(Demo.A, seconds 0)] Demo.nothing]
             _ (snd (Demo.after 10 [Demo.turn 100 [(Demo.A, seconds 0)] Demo.nothing]))).
    vm_compute. reflexivity.
  - apply (@processer_consistent Demo.codec 10 60 (Ok Demo.client) (Demo.up [])
             [Demo.turn 100 [(Demo.A, seconds 0)] Demo.nothing]
             _ (snd (Demo.after 10 [Demo.turn 100 [(Demo.A, seconds 0)] Demo.nothing]))).
    vm_compute. reflexivity.
  - vm_compute. reflexivity.
  - reflexivity.
  - reflexivity.
Defined.

(* ===================================================================== *)
(** ** The consumer loop: batches and the contents of the queue           *)
(* ===================================================================== *)

Lemma dict_set_Forall {V} (P : string * V -> Prop) (k : string) (v : V)
      (d : dict V) :
  P (k, v) -> Forall P d -> Forall P (dict_set k v d).
Proof.
  intros Pk. induction 1 as [|[k' v'] r Px F IH]; simpl.
  - repeat constructor. exact Pk.
  - destruct (String.eqb k' k); constructor; auto.
Qed.

Lemma dict_del_Forall {V} (P : string * V -> Prop) (k : string) (d : dict V) :
  Forall P d -> Forall P (dict_del k d).
Proof.
  induction 1 as [|[k' v'] r Px F IH]; simpl; [constructor|].
  destruct (String.eqb k' k); [exact F | now constructor].
Qed.

Lemma dict_get_Forall {V} (P : string * V -> Prop) (k : string) (v : V)
      (d : dict V) :
  Forall P d -> dict_get k d = Some v -> P (k, v).
Proof.
  induction 1 as [|[k' v'] r Px F IH]; simpl; [discriminate|].
  destruct (String.eqb_spec k' k) as [<-|N]; [now intros [= <-] | exact IH].
Qed.

Lemma collect_keyed (tasks : dict nat) (messages : list InternalMessageModel) :
  forall key_list key_filter md key_list' md',
    Consumer.collect tasks messages key_list key_filter md = (key_list', md') ->
    Forall (fun e => batch_of (fst e) (snd e)) md ->
    Forall (fun e => batch_of (fst e) (snd e)) md'.
Proof.
  induction messages as [|m rest IH]; intros kl kf md kl' md' E K; simpl in E.
  - now injection E as _ <-.
  - destruct (dict_mem (Consumer.composite_key_of m) tasks);
      [now apply IH in E|].
    apply IH in E; [exact E|].
    apply dict_set_Forall; [|exact K]. cbn [fst snd]. unfold batch_of.
    apply Forall_app. split; [|repeat constructor].
    destruct (dict_get (Consumer.composite_key_of m) md) as [l|] eqn:G;
      [|constructor].
    apply (dict_get_Forall _ _ _ _ K G).
Qed.

Lemma submit_keys_keyed (workers : Z) (key_list : list string) :
  forall st st',
    Consumer.submit_keys workers key_list st = Ok st' ->
    keyed st -> keyed st'.
Proof.
  induction key_list as [|k rest IH]; intros st st' E K; simpl in E.
  - now injection E as <-.
  - destruct (dict_len (Consumer.tasks st) <? workers);
      [|now injection E as <-].
    apply bind_ok in E. destruct E as [batch [G E]].
    apply IH in E; [exact E|]. destruct K as [K1 K2]. split; [exact K1|].
    simpl. apply Forall_app. split; [exact K2|]. repeat constructor. simpl.
    unfold subscript in G.
    destruct (dict_get k (Consumer.messages_dict st)) as [l|] eqn:D;
      [|discriminate].
    injection G as <-. apply (dict_get_Forall _ _ _ _ K1 D).
Qed.

Lemma advance_from_keyed (c : nat -> option Consumer.outcome)
      (p : list Consumer.work_item) :
  Forall (fun w => batch_of (Consumer.w_key w) (Consumer.w_messages w)) p ->
  forall i,
    Forall (fun w => batch_of (Consumer.w_key w) (Consumer.w_messages w))
           (Consumer.advance_from i c p).
Proof.
  induction 1 as [|w r Pw F IH]; intros i; simpl; constructor; auto.
  destruct (Consumer.w_state w); [destruct (c i)|]; exact Pw.
Qed.

Lemma remove_done_keyed `{Json} (database : RedisService.t)
      (done_tasks : list string) :
  forall st srv st' srv',
    Consumer.remove_done database done_tasks st srv = Ok (st', srv') ->
    keyed st -> keyed st'.
Proof.
  induction done_tasks as [|k rest IH]; intros st srv st' srv' E K; simpl in E.
  - now injection E as <- <-.
  - apply bind_ok in E. destruct E as [t' [_ E]].
    apply bind_ok in E. destruct E as [batch [_ E]].
    apply bind_ok in E. destruct E as [s1 [_ E]].
    apply IH in E; [exact E|]. destruct K as [K1 K2]. split; simpl; auto.
    now apply dict_del_Forall.
Qed.

Lemma evict_keyed `{Json} (database : RedisService.t) (keys : list string) :
  forall st srv st' srv',
    Consumer.evict database keys st srv = Ok (st', srv') ->
    keyed st -> keyed st'.
Proof.
  induction keys as [|k rest IH]; intros st srv st' srv' E K; simpl in E.
  - now injection E as <- <-.
  - apply bind_ok in E. destruct E as [n [_ E]].
    destruct (3 <? n); [|now apply IH in E].
    apply bind_ok in E. destruct E as [batch [_ E]].
    apply bind_ok in E. destruct E as [s1 [_ E]].
    apply bind_ok in E. destruct E as [tr [_ E]].
    apply bind_ok in E. destruct E as [md [P E]].
    apply bind_ok in E. destruct E as [t' [_ E]].
    apply IH in E; [exact E|]. destruct K as [K1 K2]. split; simpl; auto.
    apply dict_pop_ok in P. destruct P as [-> _]. now apply dict_del_Forall.
Qed.

Lemma dispatch_keyed `{Json} (workers : Z) (database : RedisService.t)
      (completes : nat -> option Consumer.outcome)
      (messages : list InternalMessageModel)
      (st st' : Consumer.state) (srv srv' : Redis.server) :
  Consumer.dispatch workers database completes messages st srv = Ok (st', srv') ->
  keyed st -> keyed st'.
Proof.
  unfold Consumer.dispatch. intros E K.
  apply bind_ok in E. destruct E as [st1 [E1 E]].
  apply bind_ok in E. destruct E as [[st2 done_tasks] [E2 E]].
  apply bind_ok in E. destruct E as [[st3 srv3] [E3 E]]. simpl in *.
  unfold Consumer.buffer_and_submit in E1.
  destruct (Consumer.collect _ _ _ _ _) as [key_list buffered] eqn:Co.
  apply collect_keyed in Co; [|apply K].
  apply submit_keys_keyed in E1; [|split; [exact Co | apply K]].
  apply reap_frame in E2. destruct E2 as [P2 [_ M2]].
  apply remove_done_keyed in E3.
  - now apply evict_keyed in E.
  - split; [rewrite M2; apply E1|].
    rewrite P2. apply advance_from_keyed, E1.
Qed.

Lemma cycles_keyed `{Json} (workers consumer_redis_time : Z)
      (database : RedisService.t) (ticks : list Consumer.tick) :
  forall st srv st' srv',
    Consumer.cycles workers consumer_redis_time database ticks st srv
    = Ok (st', srv') ->
    keyed st -> keyed st'.
Proof.
  induction ticks as [|tk rest IH]; intros st srv st' srv' E K; simpl in E.
  - now injection E as <- <-.
  - apply bind_ok in E. destruct E as [[st1 srv1] [C E]].
    apply cycle_spec in C. destruct C as [messages D].
    apply dispatch_keyed in D; [|exact K]. now apply IH in E.
Qed.

(** X11.  After any number of turns every buffered batch of
    [messages_dict] and every batch handed to [pool.submit] holds only
    messages whose composite key is the key it is filed under. *)
Theorem batches_hold_only_their_own_messages `{Json}
        (workers consumer_redis_time : Z) (made : result Redis.client)
        (srv0 : Redis.server) (ticks : list Consumer.tick)
        (st : Consumer.state) (srv : Redis.server) :
  Consumer.processer workers consumer_redis_time made srv0 ticks = Ok (st, srv) ->
  (forall k batch m,
      dict_get k (Consumer.messages_dict st) = Some batch -> In m batch ->
      Consumer.composite_key_of m = k)
  /\ (forall w m,
        In w (Consumer.pool st) -> In m (Consumer.w_messages w) ->
        Consumer.composite_key_of m = Consumer.w_key w).
Proof.
  intros E. unfold Consumer.processer in E.
  apply bind_ok in E. destruct E as [repository [_ E]]. cbv beta zeta in E.
  destruct (workers <=? 0); [discriminate E|].
  apply cycles_keyed in E; [|split; constructor].
  destruct E as [K1 K2]. split.
  - intros k batch m G I.
    pose proof (dict_get_Forall _ _ _ _ K1 G) as B. cbn [fst snd] in B.
    unfold batch_of in B. rewrite Forall_forall in B. auto.
  - intros w m Iw Im. rewrite Forall_forall in K2.
    pose proof (K2 w Iw) as B. unfold batch_of in B.
    rewrite Forall_forall in B. auto.
Qed.

Lemma batches_hold_only_their_own_messages_witness :
  (forall k batch m,
      dict_get k (Consumer.messages_dict (fst (Demo.after 1 Demo.crowded_turns)))
      = Some batch ->
      In m batch -> Consumer.composite_key_of m = k)
  /\ (forall w m,
        In w (Consumer.pool (fst (Demo.after 1 Demo.crowded_turns))) ->
        In m (Consumer.w_messages w) ->
        Consumer.composite_key_of m = Consumer.w_key w).
Proof.
  apply (@batches_hold_only_their_own_messages Demo.codec 1 60 (Ok Demo.client)
           (Demo.up []) Demo.crowded_turns
           (fst (Demo.after 1 Demo.crowded_turns))
           (snd (Demo.after 1 Demo.crowded_turns))).
  vm_compute. reflexivity.
Defined.

Lemma produce_members `{Json} (arrivals : list (InternalMessageModel * Z)) :
  forall z p,
    In p (map fst (Consumer.produce arrivals z)) ->
    In p (map fst z)
    \/ exists data t, In (data, t) arrivals /\ p = json_dumps data.
Proof.
  induction arrivals as [|[data t] rest IH]; intros z p I; simpl in I.
  - now left.
  - apply IH in I. destruct I as [I|[d [t' [I E]]]].
    + unfold Redis.zadd in I. apply map_fst_zinsert_In in I.
      destruct I as [->|I].
      * right. exists data, t. split; [now left | reflexivity].
      * left. now apply zrem_incl in I.
    + right. exists d, t'. split; [now right | exact E].
Qed.

Lemma cycles_members `{Json} (workers consumer_redis_time : Z)
      (database : RedisService.t) (ticks : list Consumer.tick) :
  forall st srv st' srv',
    Consumer.cycles workers consumer_redis_time database ticks st srv
    = Ok (st', srv') ->
    well_formed st -> consistent st ->
    forall p, In p (members srv') ->
              In p (members srv)
              \/ exists tk data t,
                  In tk ticks /\ In (data, t) (Consumer.t_arrivals tk)
                  /\ p = json_dumps data.
Proof.
  induction ticks as [|tk rest IH]; intros st srv st' srv' E W C p I; simpl in E.
  - injection E as <- <-. now left.
  - apply bind_ok in E. destruct E as [[st1 srv1] [Cy E]].
    apply cycle_spec in Cy. destruct Cy as [messages D].
    destruct (dispatch_spec _ _ _ _ _ _ _ _ D W C) as [W1 [C1 [Sub _]]].
    simpl in E. destruct (IH _ _ _ _ E W1 C1 p I) as [J|[tk' [d [t [It [Ia Ep]]]]]].
    + apply Sub in J. unfold members, Consumer.environment in J. simpl in J.
      apply produce_members in J. destruct J as [J|[d [t [Ia Ep]]]];
        [now left|].
      right. exists tk, d, t. split; [now left | auto].
    + right. exists tk', d, t. split; [now right | auto].
Qed.

(** X12.  The loop never writes to the queue: every payload queued after
    any number of turns was queued at the start or is the encoding of a
    message the webhook saved during one of the turns. *)
Theorem queue_holds_only_saved_messages `{Json}
        (workers consumer_redis_time : Z) (made : result Redis.client)
        (srv0 : Redis.server) (ticks : list Consumer.tick)
        (st : Consumer.state) (srv : Redis.server) :
  Consumer.processer workers consumer_redis_time made srv0 ticks = Ok (st, srv) ->
  forall payload,
    In payload (members srv) ->
    In payload (members srv0)
    \/ exists tk data t,
        In tk ticks /\ In (data, t) (Consumer.t_arrivals tk)
        /\ payload = json_dumps data.
Proof.
  intros E. unfold Consumer.processer in E.
  apply bind_ok in E. destruct E as [repository [_ E]]. cbv beta zeta in E.
  destruct (workers <=? 0); [discriminate E|].
  destruct initial_consistent as [W C].
  apply (cycles_members _ _ _ _ _ _ _ _ E W C).
Qed.

Lemma queue_holds_only_saved_messages_witness :
  In (Demo.dumps Demo.A') (members (Demo.up []))
  \/ exists tk data t,
      In tk Demo.failing_turns_with_late_message
      /\ In (data, t) (Consumer.t_arrivals tk)
      /\ Demo.dumps Demo.A' = @json_dumps Demo.codec data.
Proof.
  apply (@queue_holds_only_saved_messages Demo.codec 10 60 (Ok Demo.client)
           (Demo.up []) Demo.failing_turns_with_late_message
           (fst (Demo.after 10 Demo.failing_turns_with_late_message))
           (snd (Demo.after 10 Demo.failing_turns_with_late_message))).
  - vm_compute. reflexivity.
  - vm_compute. left. reflexivity.
Defined.

(* ===================================================================== *)
(** ** The consumer loop: a key whose dispatch failed                     *)
(* ===================================================================== *)

Lemma reap_tries_other (keys : list string) :
  forall st done_tasks st' done_tasks' k,
    Consumer.reap keys st done_tasks = Ok (st', done_tasks') ->
    ~ In k keys ->
    dict_get k (Consumer.tries st') = dict_get k (Consumer.tries st).
Proof.
  induction keys as [|k0 rest IH]; intros st d st' d' k E NI; simpl in E.
  - now injection E as <- <-.
  - assert (N0 : k0 <> k) by (intros ->; apply NI; now left).
    assert (NR : ~ In k rest) by (intros I; apply NI; now right).
    apply bind_ok in E. destruct E as [f [_ E]].
    apply bind_ok in E. destruct E as [w [_ E]].
    destruct (Consumer.w_state w) as [|[[|]|]].
    + now apply IH with (k := k) in E.
    + apply IH with (k := k) in E; [|exact NR]. rewrite E.
      destruct (dict_mem k0 (Consumer.tries st)); [|reflexivity].
      simpl. now apply dict_get_set_ne.
    + apply bind_ok in E. destruct E as [n [_ E]].
      apply IH with (k := k) in E; [|exact NR]. rewrite E. simpl.
      rewrite dict_get_set_ne by exact N0.
      destruct (dict_mem k0 (Consumer.tries st)); [reflexivity|].
      now apply dict_get_set_ne.
    + discriminate.
Qed.

Lemma reap_tries_failed (keys : list string) :
  forall st done_tasks st' done_tasks' k f w,
    Consumer.reap keys st done_tasks = Ok (st', done_tasks') ->
    NoDup keys -> In k keys ->
    dict_get k (Consumer.tasks st) = Some f ->
    nth_error (Consumer.pool st) f = Some w ->
    Consumer.w_state w = Consumer.Finished (Consumer.Returned false) ->
    dict_get k (Consumer.tries st') = Some (attempt_count st k + 1).
Proof.
  induction keys as [|k0 rest IH]; intros st d st' d' k f w E ND I T P S;
    simpl in E; [destruct I|].
  inversion ND as [|? ? NI0 ND']; subst.
  destruct (string_dec k0 k) as [->|N0].
  - rewrite T in E. cbn [subscript Py.bind] in E.
    rewrite P in E. cbn [subscript Py.bind] in E. rewrite S in E.
    apply bind_ok in E. destruct E as [n [G E]].
    apply reap_tries_other with (k := k) in E; [|exact NI0].
    rewrite E. simpl. rewrite dict_get_set_eq. f_equal. f_equal.
    unfold attempt_count.
    destruct (dict_mem k (Consumer.tries st)) eqn:M.
    + apply dict_mem_true in M. destruct M as [v M]. rewrite M in *.
      simpl in G. congruence.
    + rewrite dict_get_set_eq in G. simpl in G.
      apply dict_mem_false in M. rewrite M. congruence.
  - destruct I as [I|I]; [contradiction|].
    apply bind_ok in E. destruct E as [f0 [_ E]].
    apply bind_ok in E. destruct E as [w0 [_ E]].
    destruct (Consumer.w_state w0) as [|[[|]|]].
    + now apply (IH _ _ _ _ k f w) in E.
    + apply (IH _ _ _ _ k f w) in E; auto;
        try (destruct (dict_mem k0 (Consumer.tries st)); assumption).
      rewrite E. f_equal. f_equal. unfold attempt_count.
      destruct (dict_mem k0 (Consumer.tries st)); [|reflexivity].
      simpl. now rewrite dict_get_set_ne.
    + apply bind_ok in E. destruct E as [n [_ E]].
      apply (IH _ _ _ _ k f w) in E; auto.
      rewrite E. f_equal. f_equal. unfold attempt_count. simpl.
      rewrite dict_get_set_ne by exact N0.
      destruct (dict_mem k0 (Consumer.tries st)); [reflexivity|].
      now rewrite dict_get_set_ne.
    + discriminate.
Qed.

Lemma submit_keys_messages_dict (workers : Z) (key_list : list string) :
  forall st st',
    Consumer.submit_keys workers key_list st = Ok st' ->
    Consumer.messages_dict st' = Consumer.messages_dict st.
Proof.
  induction key_list as [|k rest IH]; intros st st' E; simpl in E.
  - now injection E as <-.
  - destruct (dict_len (Consumer.tasks st) <? workers);
      [|now injection E as <-].
    apply bind_ok in E. destruct E as [batch [_ E]]. now apply IH in E.
Qed.

Lemma buffer_and_submit_keeps_tracked (workers : Z)
      (messages : list InternalMessageModel) (st st1 : Consumer.state)
      (k : string) :
  Consumer.buffer_and_submit workers messages st = Ok st1 ->
  well_formed st ->
  dict_mem k (Consumer.tasks st) = true ->
  dict_get k (Consumer.messages_dict st1)
  = dict_get k (Consumer.messages_dict st).
Proof.
  unfold Consumer.buffer_and_submit.
  destruct (Consumer.collect (Consumer.tasks st) messages [] []
              (Consumer.messages_dict st)) as [key_list buffered] eqn:Co.
  intros E [W1 [W2 W3]] M.
  apply collect_spec in Co;
    [ | constructor
      | intros k0; simpl; split; [tauto | discriminate]
      | intros k0 []
      | exact W3 ].
  destruct Co as [_ [_ [_ Keep]]].
  apply submit_keys_messages_dict in E. rewrite E. simpl. now apply Keep.
Qed.

(** X13.  A key that has a retry counter is not dispatched again: in
    the next turn no work item is submitted for it, and the finished future
    that failed is counted once more.  While the new count is at most 3
    the key stays tracked with that count; when it exceeds 3 the key is
    evicted: its counter, task and batch are dropped and the payloads of
    the batch are removed from the queue. *)
Theorem failed_key_is_recounted_not_resubmitted `{Json}
        (workers : Z) (database : RedisService.t)
        (completes : nat -> option Consumer.outcome)
        (messages : list InternalMessageModel)
        (st st' : Consumer.state) (srv srv' : Redis.server)
        (k : string) (n : Z) :
  well_formed st -> consistent st ->
  dict_get k (Consumer.tries st) = Some n ->
  Consumer.dispatch workers database completes messages st srv = Ok (st', srv') ->
  (forall f w, nth_error (Consumer.pool st') f = Some w ->
               Consumer.w_key w = k ->
               (f < List.length (Consumer.pool st))%nat)
  /\ (n + 1 <= 3 ->
      dict_get k (Consumer.tries st') = Some (n + 1)
      /\ dict_mem k (Consumer.tasks st') = true)
  /\ (3 < n + 1 ->
      dict_get k (Consumer.tries st') = None
      /\ dict_get k (Consumer.tasks st') = None
      /\ dict_get k (Consumer.messages_dict st') = None
      /\ forall batch m,
          dict_get k (Consumer.messages_dict st) = Some batch ->
          In m batch -> ~ In (json_dumps m) (members srv')).
Proof.
  intros WF C Tn E. unfold Consumer.dispatch in E.
  apply bind_ok in E. destruct E as [st1 [E1 E]].
  apply bind_ok in E. destruct E as [[st3 done_tasks] [E3 E]].
  apply bind_ok in E. destruct E as [[st4 srv4] [E4 E]].
  cbn [fst snd] in *.
  assert (Tk : dict_mem k (Consumer.tasks st) = true).
  { destruct C as [_ [_ [A3 _]]]. destruct (A3 k n Tn) as [f [w [T _]]].
    apply dict_mem_true. eauto. }
  pose proof (buffer_and_submit_keeps_tracked _ _ _ _ k E1 WF Tk) as M1.
  apply buffer_and_submit_spec in E1; auto.
  destruct E1 as [WF1 [C1 [Tr1 [Old New]]]].
  destruct (advance_spec completes st1 WF1 C1) as [WF2 C2].
  assert (F1 : exists f1 w1,
             dict_get k (Consumer.tasks st1) = Some f1
             /\ nth_error (Consumer.pool st1) f1 = Some w1
             /\ Consumer.w_state w1
                = Consumer.Finished (Consumer.Returned false)).
  { destruct C1 as [_ [_ [A3 _]]]. apply (A3 k n). now rewrite Tr1. }
  destruct F1 as [f1 [w1 [T1 [P1 S1]]]].
  destruct (advance_from_forth completes (Consumer.pool st1) 0 f1 w1 P1)
    as [w2 [P2 [_ [_ [_ S2]]]]].
  assert (S2' : Consumer.w_state w2
                = Consumer.Finished (Consumer.Returned false))
    by (destruct S2 as [S2|S2]; congruence).
  set (st2 := Consumer.advance completes st1) in *.
  assert (In1 : In k (dict_keys (Consumer.tasks st1))).
  { destruct (In_dec string_dec k (dict_keys (Consumer.tasks st1)))
      as [I|NI]; [exact I|]. apply dict_get_keys in NI. congruence. }
  pose proof (reap_tries_failed _ _ _ _ _ k f1 w2 E3 (proj1 WF1) In1 T1 P2 S2')
    as Tr3.
  assert (A2 : attempt_count st2 k = n).
  { unfold attempt_count, st2, Consumer.advance. cbn. now rewrite Tr1, Tn. }
  rewrite A2 in Tr3.
  apply reap_spec in E3; auto.
  destruct E3 as [P3 [T3 [M3 [WF3 [C3 [D3 ND3]]]]]].
  assert (NDd : NoDup done_tasks).
  { apply ND3; [apply WF2 | constructor | intros k0 []]. }
  assert (NotDone : ~ In k done_tasks).
  { intros I. apply D3 in I. destruct I as [[]|[_ [f [w [Tf [Pf Sf]]]]]].
    change (Consumer.tasks st2) with (Consumer.tasks st1) in Tf.
    rewrite T1 in Tf. injection Tf as <-.
    change (Consumer.pool st2)
      with (Consumer.advance_from 0 completes (Consumer.pool st1)) in Pf.
    congruence. }
  apply remove_done_spec in E4; auto.
  destruct E4 as [P4 [R4 [WF4 [_ [_ [K4 [S4 _]]]]]]].
  destruct (K4 k NotDone) as [T4 M4].
  apply evict_spec in E; [|apply WF4|exact WF4].
  destruct E as [P5 [WF5 [_ [Ev5 [K5 S5]]]]].
  assert (Tr4 : dict_get k (Consumer.tries st4) = Some (n + 1))
    by (now rewrite R4).
  conjs.
  - intros f w Pw Kw. rewrite P5, P4, P3 in Pw.
    change (Consumer.pool st2)
      with (Consumer.advance_from 0 completes (Consumer.pool st1)) in Pw.
    apply advance_from_back in Pw. destruct Pw as [w0 [P0 [K0 _]]].
    destruct (New f w0 P0) as [Q|[_ R]].
    + apply nth_error_Some. congruence.
    + exfalso. destruct C1 as [_ [B2 _]]. pose proof (B2 f w0 P0 R) as T.
      rewrite <- K0, Kw, T1 in T. injection T as ->. congruence.
  - intros L. destruct (K5 k) as [X [Y _]].
    + intros [_ [n0 [G L0]]]. rewrite Tr4 in G. injection G as <-. lia.
    + rewrite X, Tr4. split; [reflexivity|].
      apply dict_mem_true. exists f1. rewrite Y, T4, T3. exact T1.
  - intros L.
    assert (I4 : In k (dict_keys (Consumer.tries st4))).
    { destruct (In_dec string_dec k (dict_keys (Consumer.tries st4)))
        as [I|NI]; [exact I|]. apply dict_get_keys in NI. congruence. }
    destruct (Ev5 k (n + 1) I4 Tr4 L) as [X [Y [Z B]]]. conjs; auto.
    intros batch m G Im. apply (B batch m); [|exact Im].
    rewrite M4, M3. change (Consumer.messages_dict st2)
      with (Consumer.messages_dict st1). now rewrite M1.
Qed.

Lemma failed_key_is_recounted_not_resubmitted_witness :
  let st := fst (Demo.after 10 (firstn 1 Demo.failing_turns)) in
  let st' := fst (Demo.after 10 (firstn 2 Demo.failing_turns)) in
  let srv' := snd (Demo.after 10 (firstn 2 Demo.failing_turns)) in
  let k := Consumer.composite_key_of Demo.A in
  (forall f w, nth_error (Consumer.pool st') f = Some w ->
               Consumer.w_key w = k ->
               (f < List.length (Consumer.pool st))%nat)
  /\ (1 + 1 <= 3 ->
      dict_get k (Consumer.tries st') = Some (1 + 1)
      /\ dict_mem k (Consumer.tasks st') = true)
  /\ (3 < 1 + 1 ->
      dict_get k (Consumer.tries st') = None
      /\ dict_get k (Consumer.tasks st') = None
      /\ dict_get k (Consumer.messages_dict st') = None
      /\ forall batch m,
          dict_get k (Consumer.messages_dict st) = Some batch ->
          In m batch -> ~ In (@json_dumps Demo.codec m) (members srv')).
Proof.
  intros st st' srv' k.
  apply (@failed_key_is_recounted_not_resubmitted Demo.codec 10 Demo.database
           Demo.nothing [] st st'
           (Demo.up [(Demo.dumps Demo.A, seconds 0)]) srv' k 1).
  - apply (@processer_consistent Demo.codec 10 60 (Ok Demo.client) (Demo.up [])
             (firstn 1 Demo.failing_turns) st
             (snd (Demo.after 10 (firstn 1 Demo.failing_turns)))).
    vm_compute. reflexivity.
  - apply (@processer_consistent Demo.codec 10 60 (Ok Demo.client) (Demo.up [])
             (firstn 1 Demo.failing_turns) st
             (snd (Demo.after 10 (firstn 1 Demo.failing_turns)))).
    vm_compute. reflexivity.
  - vm_compute. reflexivity.
  - vm_compute. reflexivity.
Defined.

(* ===================================================================== *)
(** ** The chatbot: effects and stored rows of [run]                      *)
(* ===================================================================== *)

Lemma next_id_fresh (ids : list Z) (id : Z) :
  In id ids -> id < ChatBot.next_id ids.
Proof.
  unfold ChatBot.next_id. induction ids as [|x r IH]; cbn [fold_right In];
    [intros []|].
  intros [<-|I]; [lia|]. apply IH in I. lia.
Qed.

Lemma message_exists_key (db : ChatBot.Session) (chat_id sent_at : Z)
      (who : string) :
  ChatBot.message_exists db chat_id sent_at who = true
  <-> In (chat_id, Some sent_at, who) (map row_key (ChatBot.chats_messages db)).
Proof.
  unfold ChatBot.message_exists. rewrite existsb_exists, in_map_iff.
  split; intros [r [A B]].
  - exists r. split; [|exact A]. unfold row_key.
    apply andb_true_iff in B. destruct B as [B W].
    apply andb_true_iff in B. destruct B as [C T].
    apply Z.eqb_eq in C. apply String.eqb_eq in W.
    destruct (ChatBot.cm_sent_at r) as [t|]; [|discriminate].
    apply Z.eqb_eq in T. congruence.
  - exists r. split; [exact B|]. unfold row_key in A.
    injection A as C T W. rewrite C, T, W, !Z.eqb_refl, String.eqb_refl.
    reflexivity.
Qed.

(** What [create] does, case by case. *)
Lemma create_cases (db db' : ChatBot.Session) (chat_id : Z) (text : string)
      (link : option string) (ty : string) (sent_at : Z) (who : string)
      (made : option ChatBot.ChatsMessages) :
  ChatBot.create db chat_id text link ty sent_at who = Ok (db', made) ->
  (ChatBot.message_exists db chat_id sent_at who = true
   /\ db' = db /\ made = None)
  \/ (ChatBot.message_exists db chat_id sent_at who = false
      /\ exists row,
          made = Some row
          /\ ChatBot.chats db' = ChatBot.chats db
          /\ ChatBot.nulls_first db' = ChatBot.nulls_first db
          /\ ChatBot.chats_messages db' = ChatBot.chats_messages db ++ [row]
          /\ row_key row = (chat_id, Some sent_at, who)
          /\ ChatBot.cm_id row
             = ChatBot.next_id (map ChatBot.cm_id (ChatBot.chats_messages db))).
Proof.
  unfold ChatBot.create.
  destruct (ChatBot.message_exists db chat_id sent_at who).
  - intros [= <- <-]. left. auto.
  - destruct (ChatBot.ChatsMessagesCreate_ok ty who); [|discriminate].
    intros [= <- <-]. right. split; [reflexivity|]. eexists. repeat split.
Qed.

Lemma create_unique (db db' : ChatBot.Session) (chat_id : Z) (text : string)
      (link : option string) (ty : string) (sent_at : Z) (who : string)
      (made : option ChatBot.ChatsMessages) :
  ChatBot.create db chat_id text link ty sent_at who = Ok (db', made) ->
  unique_rows db -> unique_rows db'.
Proof.
  intros C [U1 U2]. apply create_cases in C.
  destruct C as [[_ [-> _]]|[E [row [_ [_ [_ [R [K I]]]]]]]];
    [exact (conj U1 U2)|].
  unfold unique_rows. rewrite R, !map_app. cbn [map]. split.
  - apply NoDup_snoc; [exact U1|]. rewrite K. intros J.
    apply message_exists_key in J. congruence.
  - apply NoDup_snoc; [exact U2|]. rewrite I. intros J.
    apply next_id_fresh in J. lia.
Qed.

(** What the storing loop adds. *)
Lemma store_messages_added `{ChatBot.Collaborators} (clock : nat -> Z)
      (data : list InternalMessageModel) :
  forall (n n' : nat) (db db' : ChatBot.Session) (chat_id : Z),
    ChatBot.store_messages clock n db chat_id data = Ok (db', n') ->
    ChatBot.chats db' = ChatBot.chats db
    /\ exists added,
        ChatBot.chats_messages db' = ChatBot.chats_messages db ++ added
        /\ (List.length added <= List.length data)%nat
        /\ Forall (fun r => ChatBot.cm_chat_id r = chat_id
                            /\ ChatBot.cm_sent_at r <> None
                            /\ exists m, In m data
                                         /\ ChatBot.cm_who_sent r = who_sent m)
                  added.
Proof.
  induction data as [|message rest IH]; intros n n' db db' chat_id.
  - intros [= <- <-]. split; [reflexivity|]. exists [].
    rewrite app_nil_r. repeat split; auto.
  - cbn [ChatBot.store_messages].
    destruct (ChatBot._as_datetime clock n (last_interacted_at message))
      as [[sent_at m]|e]; cbn [Py.bind]; [|discriminate].
    destruct (ChatBot._should_store_message db chat_id message sent_at);
      cbn [negb].
    + destruct (ChatBot.create db chat_id (or_empty (content message))
                  (content_link message) (type_ message) sent_at
                  (who_sent message)) as [[db1 made]|e] eqn:C;
        cbn [Py.bind fst]; [|discriminate].
      intros E. apply IH in E. destruct E as [Ch [a2 [R2 [L2 F2]]]].
      assert (F2' : Forall
                (fun r => ChatBot.cm_chat_id r = chat_id
                          /\ ChatBot.cm_sent_at r <> None
                          /\ exists m0, In m0 (message :: rest)
                                        /\ ChatBot.cm_who_sent r = who_sent m0)
                a2).
      { eapply Forall_impl; [|exact F2]. intros r [A [B [m0 [I W]]]].
        repeat split; auto. exists m0. split; [now right | exact W]. }
      apply create_cases in C.
      destruct C as [[_ [-> _]]|[_ [row [_ [Ch1 [_ [R1 [K _]]]]]]]].
      * split; [exact Ch|]. exists a2. repeat split; auto. simpl. lia.
      * split; [congruence|]. exists (row :: a2). repeat split.
        -- rewrite R2, R1, <- app_assoc. reflexivity.
        -- simpl. lia.
        -- constructor; [|exact F2']. unfold row_key in K.
           injection K as K1 K2 K3. repeat split; [exact K1 | congruence |].
           exists message. split; [now left | exact K3].
    + intros E. apply IH in E. destruct E as [Ch [a2 [R2 [L2 F2]]]].
      split; [exact Ch|]. exists a2. repeat split; auto; [simpl; lia|].
      eapply Forall_impl; [|exact F2]. intros r [A [B [m0 [I W]]]].
      repeat split; auto. exists m0. split; [now right | exact W].
Qed.

Lemma store_messages_unique `{ChatBot.Collaborators} (clock : nat -> Z)
      (data : list InternalMessageModel) :
  forall (n n' : nat) (db db' : ChatBot.Session) (chat_id : Z),
    ChatBot.store_messages clock n db chat_id data = Ok (db', n') ->
    unique_rows db -> unique_rows db'.
Proof.
  induction data as [|message rest IH]; intros n n' db db' chat_id.
  - now intros [= <- <-].
  - cbn [ChatBot.store_messages].
    destruct (ChatBot._as_datetime clock n (last_interacted_at message))
      as [[sent_at m]|e]; cbn [Py.bind]; [|discriminate].
    destruct (ChatBot._should_store_message db chat_id message sent_at);
      cbn [negb].
    + destruct (ChatBot.create db chat_id (or_empty (content message))
                  (content_link message) (type_ message) sent_at
                  (who_sent message)) as [[db1 made]|e] eqn:C;
        cbn [Py.bind fst]; [|discriminate].
      intros E U. apply create_unique in C; [|exact U]. now apply IH in E.
    + apply IH.
Qed.

Lemma upsert_chat (db db' : ChatBot.Session) (ph sp : string) (t chat_id : Z) :
  ChatBot.upsert db ph sp t = (db', chat_id) ->
  ChatBot.chats_messages db' = ChatBot.chats_messages db
  /\ (List.length (ChatBot.chats db') <= List.length (ChatBot.chats db) + 1)%nat
  /\ exists chat,
      In chat (ChatBot.chats db')
      /\ ChatBot.c_id chat = chat_id
      /\ ChatBot.c_phone chat = ph
      /\ ChatBot.c_store_phone chat = sp
      /\ ChatBot.c_last_interacted_at chat = t.
Proof.
  unfold ChatBot.upsert.
  destruct (find _ (ChatBot.chats db)) as [chat|] eqn:F; intros [= <- <-].
  - simpl. split; [reflexivity|]. split; [rewrite length_map; lia|].
    apply find_some in F. destruct F as [I S].
    apply andb_true_iff in S. destruct S as [S1 S2].
    apply String.eqb_eq in S1, S2.
    eexists. split.
    + apply in_map_iff. exists chat. split; [|exact I].
      rewrite Z.eqb_refl. reflexivity.
    + simpl. auto.
  - simpl. split; [reflexivity|]. split; [rewrite length_app; simpl; lia|].
    eexists. split; [apply in_app_iff; right; now left|]. simpl. auto.
Qed.

(** X14.  [run] refuses an empty batch with [ValueError].  On a batch
    that it answers, the calls to its collaborators are decided by the
    last message: the test reply (sent when [use_llm] is off) and the
    advisory come with no call at all; an answer of the assistant comes
    with exactly one run of the graph on the whole batch, only when
    [use_llm] is on and the last message is not tagged ["hum"], followed
    by one WhatsApp message carrying that answer to the sender's number
    exactly when [send_to_wpp] is on. *)
Theorem run_effects_follow_the_last_message `{ChatBot.Collaborators}
        (clock : nat -> Z) (db : ChatBot.Session) :
  ChatBot.run clock db [] = Raise ValueError
  /\ forall batch last r,
      ChatBot.run clock db (batch ++ [last]) = Ok r ->
      match ChatBot.r_response r with
      | ChatBot.TestMessage =>
          use_llm last = false /\ ChatBot.r_effects r = []
      | ChatBot.HumanAdvisory =>
          use_llm last = true /\ ChatBot.r_effects r = []
      | ChatBot.LlmMessage reply =>
          use_llm last = true /\ who_sent last <> "hum"%string
          /\ exists history,
              reply = ChatBot.chatbot_graph_run (batch ++ [last]) history
              /\ ChatBot.r_effects r
                 = ChatBot.GraphRun (batch ++ [last]) history
                   :: (if send_to_wpp last
                       then [ChatBot.SendMessage (phone last) reply]
                       else [])
      end.
Proof.
  split; [reflexivity|]. intros batch last r.
  unfold ChatBot.run. rewrite rev_app_distr. cbn [rev app].
  destruct (ChatBot._as_datetime clock 0 (last_interacted_at last))
    as [[t0 n0]|e]; cbn [Py.bind]; [|discriminate].
  destruct (ChatBot.upsert db (phone last) (store_phone last) t0)
    as [db1 chat_id].
  destruct (ChatBot.store_messages clock n0 db1 chat_id (batch ++ [last]))
    as [[db2 n2]|e]; cbn [Py.bind]; [|discriminate].
  destruct (ChatBot._as_datetime clock n2 (last_interacted_at last))
    as [[reference_time n3]|e]; cbn [Py.bind]; [|discriminate].
  destruct (use_llm last); cbn [negb]; [|intros [= <-]; simpl; auto].
  destruct (ChatBot._is_human_cooldown_active db2 chat_id reference_time
              (who_sent last)) eqn:Cd; [intros [= <-]; simpl; auto|].
  intros [= <-]. simpl. split; [reflexivity|]. split.
  - intros W. unfold ChatBot._is_human_cooldown_active in Cd.
    rewrite W in Cd. discriminate Cd.
  - eexists. split; reflexivity.
Qed.

Lemma run_effects_follow_the_last_message_witness :
  let last := Demo.stamped "560" "Qual o preco?" "usr" in
  let db := Demo.session 200 [Demo.row 1 200 "Bom dia" "hum"] in
  let r :=
    value {| ChatBot.r_response := ChatBot.TestMessage; ChatBot.r_db := db;
             ChatBot.r_effects := [] |}
          (@ChatBot.run Demo.collaborators Demo.wall_clock db ([] ++ [last])) in
  match ChatBot.r_response r with
  | ChatBot.TestMessage => use_llm last = false /\ ChatBot.r_effects r = []
  | ChatBot.HumanAdvisory => use_llm last = true /\ ChatBot.r_effects r = []
  | ChatBot.LlmMessage reply =>
      use_llm last = true /\ who_sent last <> "hum"%string
      /\ exists history,
          reply = @ChatBot.chatbot_graph_run Demo.collaborators
                    ([] ++ [last]) history
          /\ ChatBot.r_effects r
             = ChatBot.GraphRun ([] ++ [last]) history
               :: (if send_to_wpp last
                   then [ChatBot.SendMessage (phone last) reply]
                   else [])
  end.
Proof.
  intros last db r.
  apply (proj2 (@run_effects_follow_the_last_message Demo.collaborators
                  Demo.wall_clock db) [] last r).
  vm_compute. reflexivity.
Defined.

(** X15.  [run] only adds to the history: the rows present before the
    call are still there, unchanged and in place.  Every row it adds is
    filed under the chat of the last message's pair of numbers, whatever
    numbers the other messages of the batch carry, and has a timestamp; it
    adds at most one row per message and one for the answer, and at most
    one chat. *)
Theorem run_files_the_batch_under_one_chat `{ChatBot.Collaborators}
        (clock : nat -> Z) (db : ChatBot.Session)
        (batch : list InternalMessageModel) (last : InternalMessageModel)
        (r : ChatBot.run_result) :
  ChatBot.run clock db (batch ++ [last]) = Ok r ->
  exists chat added,
    In chat (ChatBot.chats (ChatBot.r_db r))
    /\ ChatBot.c_phone chat = phone last
    /\ ChatBot.c_store_phone chat = store_phone last
    /\ (List.length (ChatBot.chats (ChatBot.r_db r))
        <= List.length (ChatBot.chats db) + 1)%nat
    /\ ChatBot.chats_messages (ChatBot.r_db r)
       = ChatBot.chats_messages db ++ added
    /\ (List.length added <= List.length (batch ++ [last]) + 1)%nat
    /\ Forall (fun row => ChatBot.cm_chat_id row = ChatBot.c_id chat
                          /\ ChatBot.cm_sent_at row <> None) added.
Proof.
  unfold ChatBot.run. rewrite rev_app_distr. cbn [rev app].
  destruct (ChatBot._as_datetime clock 0 (last_interacted_at last))
    as [[t0 n0]|e]; cbn [Py.bind]; [|discriminate].
  destruct (ChatBot.upsert db (phone last) (store_phone last) t0)
    as [db1 chat_id] eqn:Up.
  destruct (ChatBot.store_messages clock n0 db1 chat_id (batch ++ [last]))
    as [[db2 n2]|e] eqn:St; cbn [Py.bind]; [|discriminate].
  destruct (ChatBot._as_datetime clock n2 (last_interacted_at last))
    as [[reference_time n3]|e]; cbn [Py.bind]; [|discriminate].
  apply upsert_chat in Up.
  destruct Up as [R1 [L1 [chat [Ic [Id [Ph [Sp _]]]]]]].
  apply store_messages_added in St.
  destruct St as [Ch2 [added [R2 [L2 F2]]]].
  assert (F2' : Forall (fun row => ChatBot.cm_chat_id row = ChatBot.c_id chat
                                   /\ ChatBot.cm_sent_at row <> None) added).
  { eapply Forall_impl; [|exact F2]. intros row [A [B _]]. split; congruence. }
  assert (Base : exists chat0 added0,
             In chat0 (ChatBot.chats db2)
             /\ ChatBot.c_phone chat0 = phone last
             /\ ChatBot.c_store_phone chat0 = store_phone last
             /\ (List.length (ChatBot.chats db2)
                 <= List.length (ChatBot.chats db) + 1)%nat
             /\ ChatBot.chats_messages db2 = ChatBot.chats_messages db ++ added0
             /\ (List.length added0 <= List.length (batch ++ [last]) + 1)%nat
             /\ Forall (fun row => ChatBot.cm_chat_id row = ChatBot.c_id chat0
                                   /\ ChatBot.cm_sent_at row <> None) added0).
  { exists chat, added. rewrite Ch2, R2, R1. repeat split; auto. lia. }
  destruct (use_llm last); cbn [negb]; [|intros [= <-]; exact Base].
  destruct (ChatBot._is_human_cooldown_active db2 chat_id reference_time
              (who_sent last)); [intros [= <-]; exact Base|].
  destruct (ChatBot.create db2 chat_id _ None "text" (clock n3) "llm")
    as [[db3 made]|e] eqn:C; intros [= <-]; simpl; [|exact Base].
  apply create_cases in C.
  destruct C as [[_ [-> _]]|[_ [row [_ [Ch3 [_ [R3 [K _]]]]]]]];
    [exact Base|].
  exists chat, (added ++ [row]). rewrite Ch3, R3, Ch2, R2, R1, <- app_assoc.
  repeat split; auto.
  - rewrite length_app. simpl. lia.
  - apply Forall_app. split; [exact F2'|]. constructor; [|constructor].
    unfold row_key in K. injection K as K1 K2 K3. split; congruence.
Qed.

Lemma run_files_the_batch_under_one_chat_witness :
  exists chat added,
    In chat (ChatBot.chats
               (Demo.session 450 [Demo.row 1 200 "Bom dia" "hum";
                                  Demo.row 2 450 "Qual o preco?" "usr"]))
    /\ ChatBot.c_phone chat = phone (Demo.stamped "450" "Qual o preco?" "usr")
    /\ ChatBot.c_store_phone chat
       = store_phone (Demo.stamped "450" "Qual o preco?" "usr")
    /\ (List.length
          (ChatBot.chats
             (Demo.session 450 [Demo.row 1 200 "Bom dia" "hum";
                                Demo.row 2 450 "Qual o preco?" "usr"]))
        <= List.length
             (ChatBot.chats (Demo.session 200 [Demo.row 1 200 "Bom dia" "hum"]))
           + 1)%nat
    /\ ChatBot.chats_messages
         (Demo.session 450 [Demo.row 1 200 "Bom dia" "hum";
                            Demo.row 2 450 "Qual o preco?" "usr"])
       = ChatBot.chats_messages
           (Demo.session 200 [Demo.row 1 200 "Bom dia" "hum"]) ++ added
    /\ (List.length added
        <= List.length ([] ++ [Demo.stamped "450" "Qual o preco?" "usr"]) + 1)%nat
    /\ Forall (fun row => ChatBot.cm_chat_id row = ChatBot.c_id chat
                          /\ ChatBot.cm_sent_at row <> None) added.
Proof.
  apply (@run_files_the_batch_under_one_chat Demo.collaborators Demo.wall_clock
           (Demo.session 200 [Demo.row 1 200 "Bom dia" "hum"])
           [] (Demo.stamped "450" "Qual o preco?" "usr")
           {| ChatBot.r_response := ChatBot.HumanAdvisory;
              ChatBot.r_db :=
                Demo.session 450 [Demo.row 1 200 "Bom dia" "hum";
                                  Demo.row 2 450 "Qual o preco?" "usr"];
              ChatBot.r_effects := [] |}).
  vm_compute. reflexivity.
Defined.

(** X16.  [run] keeps the table free of duplicates: if no two rows agree
    on (chat_id, sent_at, who_sent) and no two rows share an id before the
    call, the same holds after it. *)
Theorem run_keeps_rows_unique `{ChatBot.Collaborators}
        (clock : nat -> Z) (db : ChatBot.Session)
        (data : list InternalMessageModel) (r : ChatBot.run_result) :
  unique_rows db ->
  ChatBot.run clock db data = Ok r ->
  unique_rows (ChatBot.r_db r).
Proof.
  intros U. unfold ChatBot.run.
  destruct (rev data) as [|last rest]; [discriminate|].
  destruct (ChatBot._as_datetime clock 0 (last_interacted_at last))
    as [[t0 n0]|e]; cbn [Py.bind]; [|discriminate].
  destruct (ChatBot.upsert db (phone last) (store_phone last) t0)
    as [db1 chat_id] eqn:Up.
  destruct (ChatBot.store_messages clock n0 db1 chat_id data)
    as [[db2 n2]|e] eqn:St; cbn [Py.bind]; [|discriminate].
  destruct (ChatBot._as_datetime clock n2 (last_interacted_at last))
    as [[reference_time n3]|e]; cbn [Py.bind]; [|discriminate].
  apply upsert_rows in Up. destruct Up as [_ R1].
  assert (U1 : unique_rows db1) by (unfold unique_rows; now rewrite R1).
  apply store_messages_unique in St; [|exact U1].
  destruct (use_llm last); cbn [negb]; [|now intros [= <-]].
  destruct (ChatBot._is_human_cooldown_active db2 chat_id reference_time
              (who_sent last)); [now intros [= <-]|].
  destruct (ChatBot.create db2 chat_id _ None "text" (clock n3) "llm")
    as [[db3 made]|e] eqn:C; intros [= <-]; simpl; [|exact St].
  now apply create_unique in C.
Qed.

Lemma run_keeps_rows_unique_witness :
  unique_rows
    (Demo.session 450 [Demo.row 1 200 "Bom dia" "hum";
                       Demo.row 2 450 "Qual o preco?" "usr"]).
Proof.
  apply (@run_keeps_rows_unique Demo.collaborators Demo.wall_clock
           (Demo.session 200 [Demo.row 1 200 "Bom dia" "hum"])
           [Demo.stamped "450" "Qual o preco?" "usr"]
           {| ChatBot.r_response := ChatBot.HumanAdvisory;
              ChatBot.r_db :=
                Demo.session 450 [Demo.row 1 200 "Bom dia" "hum";
                                  Demo.row 2 450 "Qual o preco?" "usr"];
              ChatBot.r_effects := [] |}).
  - split; simpl; (constructor; [intros [] | constructor]).
  - vm_compute. reflexivity.
Defined.

(* ===================================================================== *)
(** ** The chatbot: redelivery, chats and the end of the cooldown         *)
(* ===================================================================== *)

Lemma message_exists_grows (db db' : ChatBot.Session)
      (added : list ChatBot.ChatsMessages) (chat_id sent_at : Z) (who : string) :
  ChatBot.chats_messages db' = ChatBot.chats_messages db ++ added ->
  ChatBot.message_exists db chat_id sent_at who = true ->
  ChatBot.message_exists db' chat_id sent_at who = true.
Proof.
  unfold ChatBot.message_exists. intros ->. rewrite existsb_app.
  intros ->. reflexivity.
Qed.

Lemma create_then_exists (db db' : ChatBot.Session) (chat_id : Z)
      (text : string) (link : option string) (ty : string) (sent_at : Z)
      (who : string) (made : option ChatBot.ChatsMessages) :
  ChatBot.create db chat_id text link ty sent_at who = Ok (db', made) ->
  ChatBot.message_exists db' chat_id sent_at who = true.
Proof.
  intros C. apply create_cases in C.
  destruct C as [[E [-> _]]|[_ [row [_ [_ [_ [R [K _]]]]]]]]; [exact E|].
  apply message_exists_key. rewrite R, map_app, in_app_iff. right.
  rewrite <- K. now left.
Qed.

Lemma should_store_not_human `{ChatBot.Collaborators} (db : ChatBot.Session)
      (chat_id : Z) (message : InternalMessageModel) (sent_at : Z) :
  who_sent message <> "hum"%string ->
  ChatBot._should_store_message db chat_id message sent_at = true.
Proof.
  intros N. unfold ChatBot._should_store_message.
  apply String.eqb_neq in N. now rewrite N.
Qed.

Lemma store_messages_then_exist `{ChatBot.Collaborators} (clock : nat -> Z)
      (data : list InternalMessageModel) :
  forall (n n1 : nat) (db db1 : ChatBot.Session) (chat_id : Z),
    Forall (fun m => ChatBot.parse_timestamp (last_interacted_at m) <> Ok None
                     /\ who_sent m <> "hum"%string) data ->
    ChatBot.store_messages clock n db chat_id data = Ok (db1, n1) ->
    n1 = n
    /\ Forall (fun m => exists t,
                   ChatBot.parse_timestamp (last_interacted_at m) = Ok (Some t)
                   /\ ChatBot.message_exists db1 chat_id t (who_sent m) = true)
              data.
Proof.
  induction data as [|m rest IH]; intros n n1 db db1 chat_id F E.
  - injection E as <- <-. split; [reflexivity | constructor].
  - inversion F as [|? ? [P W] F']; subst.
    cbn [ChatBot.store_messages] in E. unfold ChatBot._as_datetime in E.
    destruct (ChatBot.parse_timestamp (last_interacted_at m))
      as [[t|]|e] eqn:Pt; cbn [Py.bind] in E; [|congruence|discriminate].
    rewrite should_store_not_human in E by exact W. cbn [negb] in E.
    destruct (ChatBot.create db chat_id (or_empty (content m))
                (content_link m) (type_ m) t (who_sent m))
      as [[db0 made]|e] eqn:C; cbn [Py.bind fst] in E; [|discriminate].
    apply create_then_exists in C.
    pose proof (store_messages_added clock rest n n1 db0 db1 chat_id E)
      as [_ [added [R _]]].
    apply IH in E; [|exact F']. destruct E as [-> Ex]. split; [reflexivity|].
    constructor; [|exact Ex]. exists t. split; [exact Pt|].
    now apply (message_exists_grows db0 db1 added).
Qed.

Lemma store_messages_all_exist `{ChatBot.Collaborators} (clock : nat -> Z)
      (data : list InternalMessageModel) (n : nat) (db : ChatBot.Session)
      (chat_id : Z) :
  Forall (fun m => who_sent m <> "hum"%string) data ->
  Forall (fun m => exists t,
              ChatBot.parse_timestamp (last_interacted_at m) = Ok (Some t)
              /\ ChatBot.message_exists db chat_id t (who_sent m) = true)
         data ->
  ChatBot.store_messages clock n db chat_id data = Ok (db, n).
Proof.
  induction data as [|m rest IH]; intros W Ex; [reflexivity|].
  inversion W as [|? ? Wm W']; subst.
  inversion Ex as [|? ? [t [Pt Et]] Ex']; subst.
  cbn [ChatBot.store_messages]. unfold ChatBot._as_datetime. rewrite Pt.
  cbn [Py.bind]. rewrite should_store_not_human by exact Wm. cbn [negb].
  unfold ChatBot.create. rewrite Et. cbn [Py.bind fst]. now apply IH.
Qed.

(** X17.  Storing a batch a second time adds nothing: when the
    timestamps of its messages parse and none is tagged ["hum"], the
    storing loop of [run], applied again to the database it produced,
    leaves every table as it is. *)
Theorem stored_batch_is_not_stored_twice `{ChatBot.Collaborators}
        (clock : nat -> Z) (data : list InternalMessageModel)
        (n n1 : nat) (db db1 : ChatBot.Session) (chat_id : Z) :
  Forall (fun m => ChatBot.parse_timestamp (last_interacted_at m) <> Ok None
                   /\ who_sent m <> "hum"%string) data ->
  ChatBot.store_messages clock n db chat_id data = Ok (db1, n1) ->
  ChatBot.store_messages clock n1 db1 chat_id data = Ok (db1, n1).
Proof.
  intros F E. apply store_messages_then_exist in E; [|exact F].
  destruct E as [_ Ex]. apply store_messages_all_exist; [|exact Ex].
  eapply Forall_impl; [|exact F]. now intros m [_ W].
Qed.

Lemma stored_batch_is_not_stored_twice_witness :
  @ChatBot.store_messages Demo.collaborators Demo.wall_clock 0
    (Demo.session 200 [Demo.row 1 200 "Bom dia" "hum";
                       Demo.row 2 450 "Qual o preco?" "usr";
                       Demo.row 3 451 "E o prazo?" "usr"]) 1
    [Demo.stamped "450" "Qual o preco?" "usr";
     Demo.stamped "451" "E o prazo?" "usr"]
  = Ok (Demo.session 200 [Demo.row 1 200 "Bom dia" "hum";
                          Demo.row 2 450 "Qual o preco?" "usr";
                          Demo.row 3 451 "E o prazo?" "usr"], 0%nat).
Proof.
  apply (@stored_batch_is_not_stored_twice Demo.collaborators Demo.wall_clock
           [Demo.stamped "450" "Qual o preco?" "usr";
            Demo.stamped "451" "E o prazo?" "usr"]
           0 0 (Demo.session 200 [Demo.row 1 200 "Bom dia" "hum"])).
  - repeat constructor; vm_compute; discriminate.
  - vm_compute. reflexivity.
Defined.

Lemma find_map_same {A} (p : A -> bool) (f : A -> A) (l : list A) :
  (forall x, p (f x) = p x) ->
  find p (map f l) = option_map f (find p l).
Proof.
  intros S. induction l as [|x r IH]; simpl; [reflexivity|].
  rewrite S. now destruct (p x).
Qed.

Lemma find_app_none {A} (p : A -> bool) (l l' : list A) :
  find p l = None -> find p (l ++ l') = find p l'.
Proof.
  induction l as [|x r IH]; simpl; [reflexivity|].
  destruct (p x); [discriminate | exact IH].
Qed.

(** The chat [upsert] leaves under the pair of numbers. *)
Lemma upsert_get (db db1 : ChatBot.Session) (ph sp : string) (t chat_id : Z) :
  ChatBot.upsert db ph sp t = (db1, chat_id) ->
  exists chat, CRUDChat.get db1 ph sp = Some chat
               /\ ChatBot.c_id chat = chat_id.
Proof.
  unfold ChatBot.upsert, CRUDChat.get.
  destruct (find _ (ChatBot.chats db)) as [chat|] eqn:F; intros [= <- <-];
    cbn [ChatBot.chats].
  - rewrite find_map_same.
    + rewrite F. cbn [option_map]. eexists. split; [reflexivity|].
      rewrite Z.eqb_refl. reflexivity.
    + intros c. now destruct (ChatBot.c_id c =? ChatBot.c_id chat).
  - rewrite find_app_none by exact F. cbn [find ChatBot.c_phone
      ChatBot.c_store_phone]. rewrite !String.eqb_refl. cbn [andb].
    eexists. split; reflexivity.
Qed.

(** X18.  After [upsert] the chat is found: [get_id] returns the id that
    [upsert] returned, and a further [upsert] of the same pair of numbers
    returns that id again without adding a chat.  On a pair that has no
    chat [get_id] raises [AttributeError], and the first [upsert] adds
    exactly one chat. *)
Theorem upsert_is_found_and_repeatable
        (db db1 : ChatBot.Session) (ph sp : string) (t chat_id : Z) :
  ChatBot.upsert db ph sp t = (db1, chat_id) ->
  ChatsService.get_id db1 ph sp = Ok chat_id
  /\ (CRUDChat.get db ph sp = None ->
      ChatsService.get_id db ph sp = Raise AttributeError
      /\ List.length (ChatBot.chats db1) = S (List.length (ChatBot.chats db)))
  /\ forall t', exists db2,
        ChatBot.upsert db1 ph sp t' = (db2, chat_id)
        /\ List.length (ChatBot.chats db2) = List.length (ChatBot.chats db1).
Proof.
  intros U. destruct (upsert_get _ _ _ _ _ _ U) as [chat [G I]]. conjs.
  - unfold ChatsService.get_id. now rewrite G, I.
  - intros N. unfold ChatsService.get_id. rewrite N. split; [reflexivity|].
    unfold ChatBot.upsert in U. unfold CRUDChat.get in N. rewrite N in U.
    injection U as <- _. cbn [ChatBot.chats]. rewrite length_app. simpl. lia.
  - intros t'. unfold ChatBot.upsert. unfold CRUDChat.get in G. rewrite G.
    eexists. split; [now rewrite I|]. cbn [ChatBot.chats]. apply length_map.
Qed.

Lemma upsert_is_found_and_repeatable_witness :
  ChatsService.get_id (Demo.session 450 []) Demo.alice Demo.store = Ok 1
  /\ (CRUDChat.get (Demo.session 200 []) Demo.alice Demo.store = None ->
      ChatsService.get_id (Demo.session 200 []) Demo.alice Demo.store
      = Raise AttributeError
      /\ List.length (ChatBot.chats (Demo.session 450 []))
         = S (List.length (ChatBot.chats (Demo.session 200 []))))
  /\ forall t', exists db2,
        ChatBot.upsert (Demo.session 450 []) Demo.alice Demo.store t'
        = (db2, 1)
        /\ List.length (ChatBot.chats db2)
           = List.length (ChatBot.chats (Demo.session 450 [])).
Proof.
  apply (upsert_is_found_and_repeatable (Demo.session 200 [])
           (Demo.session 450 []) Demo.alice Demo.store (seconds 450) 1).
  vm_compute. reflexivity.
Defined.

Lemma hd_stable_sort_In {A} (leb : A -> A -> bool) (l : list A) (x : A) :
  hd_error (stable_sort leb l) = Some x -> In x l.
Proof.
  intros E. apply (Permutation_in x (stable_sort_perm leb l)).
  destruct (stable_sort leb l); [discriminate|]. injection E as ->. now left.
Qed.

(** The storing loop returns when no timestamp makes the parser raise,
    no message is tagged ["hum"], and every message satisfies the string
    constraints of the schema. *)
Lemma store_messages_returns `{ChatBot.Collaborators} (clock : nat -> Z)
      (data : list InternalMessageModel) :
  forall (n : nat) (db : ChatBot.Session) (chat_id : Z),
    Forall (fun m => who_sent m <> "hum"%string) data ->
    Forall (fun m => ChatBot.ChatsMessagesCreate_ok (type_ m) (who_sent m)
                     = true) data ->
    Forall (fun m => exists parsed,
                ChatBot.parse_timestamp (last_interacted_at m) = Ok parsed)
           data ->
    exists db2 n2,
      ChatBot.store_messages clock n db chat_id data = Ok (db2, n2).
Proof.
  induction data as [|m rest IH]; intros n db chat_id W V P.
  - eexists. eexists. reflexivity.
  - inversion W as [|? ? Wm W']; subst.
    inversion V as [|? ? Vm V']; subst.
    inversion P as [|? ? [parsed Pm] P']; subst.
    cbn [ChatBot.store_messages]. unfold ChatBot._as_datetime. rewrite Pm.
    cbn [Py.bind].
    assert (Step : forall t k,
               exists db2 n2,
                 (if negb (ChatBot._should_store_message db chat_id m t)
                  then ChatBot.store_messages clock k db chat_id rest
                  else
                    created <-
                      ChatBot.create db chat_id (or_empty (content m))
                        (content_link m) (type_ m) t (who_sent m) ;;
                    ChatBot.store_messages clock k (fst created) chat_id rest)
                 = Ok (db2, n2)).
    { intros t k. rewrite should_store_not_human by exact Wm. cbn [negb].
      unfold ChatBot.create.
      destruct (ChatBot.message_exists db chat_id t (who_sent m)).
      - cbn [Py.bind fst]. now apply IH.
      - rewrite Vm. cbn [Py.bind fst]. now apply IH. }
    destruct parsed as [t|]; apply Step.
Qed.

(** X19.  Once the cooldown is over the assistant answers.  The batch
    asks for the LLM and holds no message tagged ["hum"]; every message
    of it has a type of at most 8 characters and a sender tag of at most
    3, and a timestamp on which the parser does not raise; the last
    message is stamped more than five minutes after every stored human
    row of its chat.  Then [run] runs the graph on the batch and returns
    its answer, sending it to WhatsApp when [send_to_wpp] is on.  The
    graph and the WhatsApp client are taken to return. *)
Theorem llm_answers_after_the_cooldown `{ChatBot.Collaborators}
        (clock : nat -> Z) (db : ChatBot.Session)
        (batch : list InternalMessageModel) (last : InternalMessageModel)
        (t_last : Z) :
  use_llm last = true ->
  ChatBot.parse_timestamp (last_interacted_at last) = Ok (Some t_last) ->
  Forall (fun m => who_sent m <> "hum"%string) (batch ++ [last]) ->
  Forall (fun m => ChatBot.ChatsMessagesCreate_ok (type_ m) (who_sent m)
                   = true) (batch ++ [last]) ->
  Forall (fun m => exists parsed,
              ChatBot.parse_timestamp (last_interacted_at m) = Ok parsed)
         batch ->
  (forall row T,
      In row (ChatBot.chats_messages db) ->
      ChatBot.cm_chat_id row
      = snd (ChatBot.upsert db (phone last) (store_phone last) t_last) ->
      ChatBot.cm_who_sent row = "hum"%string ->
      ChatBot.cm_sent_at row = Some T ->
      T + ChatBot.HUMAN_COOLDOWN < t_last) ->
  exists r history,
    ChatBot.run clock db (batch ++ [last]) = Ok r
    /\ ChatBot.r_response r
       = ChatBot.LlmMessage
           (ChatBot.chatbot_graph_run (batch ++ [last]) history)
    /\ ChatBot.r_effects r
       = ChatBot.GraphRun (batch ++ [last]) history
         :: (if send_to_wpp last
             then [ChatBot.SendMessage (phone last)
                     (ChatBot.chatbot_graph_run (batch ++ [last]) history)]
             else []).
Proof.
  intros U P NH V Pb Old.
  unfold ChatBot.run. rewrite rev_app_distr. cbn [rev app].
  unfold ChatBot._as_datetime at 1. rewrite P. cbn [Py.bind].
  destruct (ChatBot.upsert db (phone last) (store_phone last) t_last)
    as [db1 chat_id] eqn:Up. cbn [snd] in Old.
  destruct (store_messages_returns clock (batch ++ [last]) 0 db1 chat_id)
    as [db2 [n2 St]]; [exact NH | exact V | |].
  { apply Forall_app. split; [exact Pb|]. constructor; [eauto | constructor]. }
  rewrite St. cbn [Py.bind].
  unfold ChatBot._as_datetime. rewrite P. cbn [Py.bind]. rewrite U.
  cbn [negb].
  assert (Cd : ChatBot._is_human_cooldown_active db2 chat_id t_last
                 (who_sent last) = false).
  { unfold ChatBot._is_human_cooldown_active.
    assert (W : who_sent last <> "hum"%string).
    { rewrite Forall_forall in NH. apply NH. apply in_app_iff. right.
      now left. }
    apply String.eqb_neq in W. rewrite W.
    unfold ChatBot.get_last_message_from_sender,
      ChatBot.get_last_message_by_chat_id_and_sender.
    destruct (hd_error _) as [row|] eqn:Hd; [|reflexivity].
    apply hd_stable_sort_In in Hd. apply filter_In in Hd.
    destruct Hd as [I B]. apply andb_true_iff in B. destruct B as [B1 B2].
    apply Z.eqb_eq in B1. apply String.eqb_eq in B2.
    destruct (ChatBot.cm_sent_at row) as [T|] eqn:S; [|reflexivity].
    apply upsert_rows in Up. destruct Up as [_ R1].
    apply store_messages_added in St. destruct St as [_ [added [R2 [_ F]]]].
    rewrite R2, R1 in I. apply in_app_iff in I. destruct I as [I|I].
    - specialize (Old row T I B1 B2 S).
      destruct (Z.ltb_spec t_last T); [lia|]. apply Z.leb_gt. lia.
    - exfalso. rewrite Forall_forall in F.
      destruct (F row I) as [_ [_ [m [Im Wm]]]].
      rewrite Forall_forall in NH. apply (NH m Im). congruence. }
  rewrite Cd.
  eexists. eexists. split; [reflexivity|]. split; reflexivity.
Qed.

Lemma llm_answers_after_the_cooldown_witness :
  exists r history,
    @ChatBot.run Demo.collaborators Demo.wall_clock
      (Demo.session 200 [Demo.row 1 200 "Bom dia" "hum"])
      ([] ++ [Demo.stamped "560" "Qual o preco?" "usr"]) = Ok r
    /\ ChatBot.r_response r
       = ChatBot.LlmMessage
           (@ChatBot.chatbot_graph_run Demo.collaborators
              ([] ++ [Demo.stamped "560" "Qual o preco?" "usr"]) history)
    /\ ChatBot.r_effects r
       = ChatBot.GraphRun ([] ++ [Demo.stamped "560" "Qual o preco?" "usr"])
           history
         :: (if send_to_wpp (Demo.stamped "560" "Qual o preco?" "usr")
             then [ChatBot.SendMessage
                     (phone (Demo.stamped "560" "Qual o preco?" "usr"))
                     (@ChatBot.chatbot_graph_run Demo.collaborators
                        ([] ++ [Demo.stamped "560" "Qual o preco?" "usr"])
                        history)]
             else []).
Proof.
  apply (@llm_answers_after_the_cooldown Demo.collaborators Demo.wall_clock
           (Demo.session 200 [Demo.row 1 200 "Bom dia" "hum"])
           [] (Demo.stamped "560" "Qual o preco?" "usr") (seconds 560)).
  - reflexivity.
  - reflexivity.
  - repeat constructor. discriminate.
  - repeat constructor.
  - constructor.
  - intros row T [<-|[]] _ _ [= <-]. vm_compute. reflexivity.
Defined.

Lemma find_none_all {A} (p : A -> bool) (l : list A) :
  (forall x, In x l -> p x = false) -> find p l = None.
Proof.
  induction l as [|x r IH]; intros F; simpl; [reflexivity|].
  rewrite (F x (or_introl eq_refl)). apply IH. intros y I. apply F. now right.
Qed.

(** X20.  A message that [create] stored can be deleted again: before
    the call its id is unknown ([get] finds nothing and [delete] raises
    [ValueError]); after it [get] returns the row and [delete] restores
    the database as it was. *)
Theorem created_message_can_be_deleted
        (db db1 : ChatBot.Session) (chat_id : Z) (text : string)
        (link : option string) (ty : string) (sent_at : Z) (who : string)
        (row : ChatBot.ChatsMessages) :
  ChatBot.create db chat_id text link ty sent_at who = Ok (db1, Some row) ->
  ChatMessageService.get db (ChatBot.cm_id row) = None
  /\ ChatMessageService.delete db (ChatBot.cm_id row) = Raise ValueError
  /\ ChatMessageService.get db1 (ChatBot.cm_id row) = Some row
  /\ ChatMessageService.delete db1 (ChatBot.cm_id row) = Ok (db, Some row).
Proof.
  intros C. apply create_cases in C.
  destruct C as [[_ [_ C]]|[_ [r [E [Ch [Nf [R [_ I]]]]]]]]; [discriminate|].
  injection E as <-.
  assert (Old : forall x, In x (ChatBot.chats_messages db) ->
                          (ChatBot.cm_id x =? ChatBot.cm_id row) = false).
  { intros x Ix. apply Z.eqb_neq. rewrite I.
    pose proof (next_id_fresh (map ChatBot.cm_id (ChatBot.chats_messages db))
                  (ChatBot.cm_id x) (in_map _ _ _ Ix)). lia. }
  assert (G0 : ChatMessageService.get db (ChatBot.cm_id row) = None).
  { unfold ChatMessageService.get, CRUDChatsMessages.get.
    now apply find_none_all. }
  assert (G1 : ChatMessageService.get db1 (ChatBot.cm_id row) = Some row).
  { unfold ChatMessageService.get, CRUDChatsMessages.get. rewrite R.
    rewrite find_app_none by (now apply find_none_all).
    simpl. now rewrite Z.eqb_refl. }
  conjs; auto.
  - unfold ChatMessageService.delete. now rewrite G0.
  - unfold ChatMessageService.delete. rewrite G1.
    unfold CRUDChatsMessages.delete.
    unfold ChatMessageService.get in G1. rewrite G1. f_equal. f_equal.
    rewrite R, filter_app. cbn [filter]. rewrite Z.eqb_refl. cbn [negb].
    rewrite app_nil_r, Ch, Nf.
    rewrite filter_all by (intros x Ix; now rewrite Old).
    now destruct db.
Qed.

Lemma created_message_can_be_deleted_witness :
  ChatMessageService.get (Demo.session 200 [Demo.row 1 200 "Bom dia" "hum"])
    (ChatBot.cm_id (Demo.row 2 450 "Ola" "usr")) = None
  /\ ChatMessageService.delete
       (Demo.session 200 [Demo.row 1 200 "Bom dia" "hum"])
       (ChatBot.cm_id (Demo.row 2 450 "Ola" "usr")) = Raise ValueError
  /\ ChatMessageService.get
       (Demo.session 200 [Demo.row 1 200 "Bom dia" "hum";
                          Demo.row 2 450 "Ola" "usr"])
       (ChatBot.cm_id (Demo.row 2 450 "Ola" "usr"))
     = Some (Demo.row 2 450 "Ola" "usr")
  /\ ChatMessageService.delete
       (Demo.session 200 [Demo.row 1 200 "Bom dia" "hum";
                          Demo.row 2 450 "Ola" "usr"])
       (ChatBot.cm_id (Demo.row 2 450 "Ola" "usr"))
     = Ok (Demo.session 200 [Demo.row 1 200 "Bom dia" "hum"],
           Some (Demo.row 2 450 "Ola" "usr")).
Proof.
  apply (created_message_can_be_deleted
           (Demo.session 200 [Demo.row 1 200 "Bom dia" "hum"])
           (Demo.session 200 [Demo.row 1 200 "Bom dia" "hum";
                              Demo.row 2 450 "Ola" "usr"])
           1 "Ola" None "text" (seconds 450) "usr"
           (Demo.row 2 450 "Ola" "usr")).
  vm_compute. reflexivity.
Defined.

(* ===================================================================== *)
(** ** The consumer loop: the first eligible message                      *)
(* ===================================================================== *)

Lemma collect_grows (tasks : dict nat) (messages : list InternalMessageModel) :
  forall key_list key_filter md key_list' md',
    Consumer.collect tasks messages key_list key_filter md = (key_list', md') ->
    (exists more, key_list' = key_list ++ more)
    /\ forall k l, dict_get k md = Some l ->
                   exists l', dict_get k md' = Some (l ++ l').
Proof.
  induction messages as [|m rest IH]; intros kl kf md kl' md' E; simpl in E.
  - injection E as <- <-. split; [exists []; now rewrite app_nil_r|].
    intros k l G. exists []. now rewrite app_nil_r.
  - destruct (dict_mem (Consumer.composite_key_of m) tasks);
      [now apply IH in E|].
    apply IH in E. destruct E as [[more K] G]. split.
    + destruct (negb (dict_mem (Consumer.composite_key_of m) kf)).
      * exists ([Consumer.composite_key_of m] ++ more).
        now rewrite K, <- app_assoc.
      * now exists more.
    + intros k l Gk.
      destruct (string_dec (Consumer.composite_key_of m) k) as [<-|N].
      * rewrite Gk in G.
        destruct (G (Consumer.composite_key_of m) (l ++ [m])) as [l' G'];
          [apply dict_get_set_eq|].
        exists ([m] ++ l'). now rewrite app_assoc.
      * apply G. now rewrite dict_get_set_ne.
Qed.

Lemma submit_keys_pool_grows (workers : Z) (key_list : list string) :
  forall st st',
    Consumer.submit_keys workers key_list st = Ok st' ->
    exists more, Consumer.pool st' = Consumer.pool st ++ more.
Proof.
  induction key_list as [|k rest IH]; intros st st' E; simpl in E.
  - injection E as <-. exists []. now rewrite app_nil_r.
  - destruct (dict_len (Consumer.tasks st) <? workers).
    + apply bind_ok in E. destruct E as [batch [_ E]].
      apply IH in E. destruct E as [more E]. simpl in E.
      eexists. rewrite E, <- app_assoc. reflexivity.
    + injection E as <-. exists []. now rewrite app_nil_r.
Qed.

(** X21.  The first message of a scan is dispatched in the same turn when
    its key is not tracked and a worker slot is free: the buffering and
    submission phase completes and appends to the pool a running work item
    filed under the message's key, whose batch holds the message, and
    [tasks] maps the key to that future. *)
Theorem first_eligible_message_is_dispatched
        (workers : Z) (m : InternalMessageModel)
        (rest : list InternalMessageModel) (st : Consumer.state) :
  well_formed st -> consistent st ->
  dict_mem (Consumer.composite_key_of m) (Consumer.tasks st) = false ->
  dict_len (Consumer.tasks st) < workers ->
  exists st1 w,
    Consumer.buffer_and_submit workers (m :: rest) st = Ok st1
    /\ nth_error (Consumer.pool st1) (List.length (Consumer.pool st)) = Some w
    /\ Consumer.w_key w = Consumer.composite_key_of m
    /\ Consumer.w_state w = Consumer.Running
    /\ In m (Consumer.w_messages w)
    /\ dict_get (Consumer.composite_key_of m) (Consumer.tasks st1)
       = Some (List.length (Consumer.pool st)).
Proof.
  intros W C NT Room.
  destruct (buffer_and_submit_total workers (m :: rest) st W) as [st1 E].
  exists st1.
  pose proof (buffer_and_submit_spec workers (m :: rest) st st1 E W C)
    as [_ [C1 _]].
  pose proof E as E0.
  unfold Consumer.buffer_and_submit in E. cbn [Consumer.collect] in E.
  rewrite NT in E. cbn [dict_mem dict_get negb app] in E.
  set (key := Consumer.composite_key_of m) in *.
  set (md1 := dict_set key (_ ++ [m]) _) in E.
  destruct (Consumer.collect (Consumer.tasks st) rest [key]
              (dict_set key true []) md1) as [key_list buffered] eqn:Co.
  apply collect_grows in Co. destruct Co as [[more K] G].
  destruct (G key _ (dict_get_set_eq key _ _)) as [l' Gk].
  rewrite K in E. cbn [app Consumer.submit_keys] in E.
  cbn [Consumer.set_messages_dict Consumer.tasks Consumer.messages_dict
       Consumer.pool] in E.
  apply Z.ltb_lt in Room. rewrite Room, Gk in E.
  cbn [subscript Py.bind] in E.
  apply submit_keys_pool_grows in E. destruct E as [more' P].
  cbn [Consumer.pool] in P.
  eexists. split; [exact E0|].
  assert (N : nth_error (Consumer.pool st1) (List.length (Consumer.pool st))
              = Some {| Consumer.w_key := key;
                        Consumer.w_tracked := dict_mem key (Consumer.tasks st);
                        Consumer.w_messages :=
                          (match dict_get key (Consumer.messages_dict st) with
                           | Some l => l
                           | None => []
                           end ++ [m]) ++ l';
                        Consumer.w_state := Consumer.Running |}).
  { rewrite P, <- app_assoc. rewrite nth_error_app2 by lia.
    now rewrite Nat.sub_diag. }
  split; [exact N|]. cbn. conjs; auto.
  - rewrite !in_app_iff. left. right. now left.
  - destruct C1 as [_ [C12 _]]. apply (C12 _ _ N). reflexivity.
Qed.

Lemma first_eligible_message_is_dispatched_witness :
  exists st1 w,
    Consumer.buffer_and_submit 1 (Demo.A :: [Demo.B; Demo.A']) Consumer.initial
    = Ok st1
    /\ nth_error (Consumer.pool st1) (List.length (Consumer.pool Consumer.initial))
       = Some w
    /\ Consumer.w_key w = Consumer.composite_key_of Demo.A
    /\ Consumer.w_state w = Consumer.Running
    /\ In Demo.A (Consumer.w_messages w)
    /\ dict_get (Consumer.composite_key_of Demo.A) (Consumer.tasks st1)
       = Some (List.length (Consumer.pool Consumer.initial)).
Proof.
  apply (first_eligible_message_is_dispatched 1 Demo.A [Demo.B; Demo.A']
           Consumer.initial).
  - apply initial_consistent.
  - apply initial_consistent.
  - reflexivity.
  - reflexivity.
Defined.

(* ===================================================================== *)
(** ** Routing contacts ([store_routing.py])                              *)
(* ===================================================================== *)

Lemma lower_char_idem (c : ascii) :
  Str.lower_char (Str.lower_char c) = Str.lower_char c.
Proof.
  destruct c as [[] [] [] [] [] [] [] []]; reflexivity.
Qed.

Lemma lower_idem (s : string) : Str.lower (Str.lower s) = Str.lower s.
Proof.
  induction s as [|c r IH]; simpl; [reflexivity|].
  now rewrite lower_char_idem, IH.
Qed.

Lemma lower_char_fixed (c : ascii) :
  StoreRouting.is_lower_alnum c || Ascii.eqb c "_" = true ->
  Str.lower_char c = c.
Proof.
  destruct c as [[] [] [] [] [] [] [] []]; simpl; intros E;
    try reflexivity; discriminate E.
Qed.

Lemma underscore_not_alnum : StoreRouting.is_lower_alnum "_" = false.
Proof. reflexivity. Qed.

Lemma replace_runs_separated (s : string) :
  forall b, separated b (StoreRouting.replace_runs b s) = true.
Proof.
  induction s as [|c r IH]; intros b; simpl; [reflexivity|].
  destruct (StoreRouting.is_lower_alnum c) eqn:A; simpl.
  - rewrite A. apply IH.
  - destruct b; simpl; [apply IH|]. apply IH.
Qed.

Lemma separated_true_head (s : string) :
  separated true s = true ->
  Str.lstrip_char "_" s = s /\ separated false s = true.
Proof.
  destruct s as [|c r]; simpl; [auto|].
  destruct (StoreRouting.is_lower_alnum c) eqn:A.
  - intros S. split; [|exact S].
    destruct (Ascii.eqb_spec c "_") as [->|N]; [discriminate A | reflexivity].
  - rewrite andb_false_r. discriminate.
Qed.

Lemma lstrip_separated (b : bool) (s : string) :
  separated b s = true -> separated true (Str.lstrip_char "_" s) = true.
Proof.
  destruct s as [|c r]; simpl; [auto|].
  destruct (StoreRouting.is_lower_alnum c) eqn:A.
  - destruct (Ascii.eqb_spec c "_") as [->|N]; [discriminate A|].
    simpl. now rewrite A.
  - intros S. apply andb_true_iff in S. destruct S as [S S2].
    apply andb_true_iff in S. destruct S as [E _].
    rewrite E. destruct (separated_true_head r S2) as [L _].
    rewrite L. exact S2.
Qed.

Lemma separated_weaken (s : string) :
  separated true s = true -> separated false s = true.
Proof.
  destruct s as [|c r]; simpl; [auto|].
  destruct (StoreRouting.is_lower_alnum c); [auto|].
  rewrite andb_false_r. discriminate.
Qed.

Lemma rstrip_separated (s : string) :
  forall b, separated b s = true ->
            separated b (Str.rstrip_char "_" s) = true
            /\ ends_well (Str.rstrip_char "_" s) = true.
Proof.
  induction s as [|c r IH]; intros b S; simpl in *; [auto|].
  destruct (StoreRouting.is_lower_alnum c) eqn:A.
  - destruct (IH false S) as [S' E'].
    destruct (Str.rstrip_char "_" r) as [|d r'] eqn:R.
    + destruct (Ascii.eqb_spec c "_") as [->|N]; [discriminate A|].
      simpl. rewrite A. auto.
    + simpl. rewrite A. split; [exact S'|]. exact E'.
  - apply andb_true_iff in S. destruct S as [S S2].
    apply andb_true_iff in S. destruct S as [E B].
    destruct (IH true S2) as [S' E'].
    destruct (Str.rstrip_char "_" r) as [|d r'] eqn:R.
    + rewrite E. auto.
    + simpl. rewrite A, E, B. split; [exact S'|]. exact E'.
Qed.

Lemma normalize_identifier_normal (value : string) :
  normal_identifier (StoreRouting._normalize_identifier value) = true.
Proof.
  unfold normal_identifier, StoreRouting._normalize_identifier, Str.strip_char.
  pose proof (replace_runs_separated (Str.lower value) false) as S.
  apply lstrip_separated in S. apply rstrip_separated in S.
  destruct S as [-> ->]. reflexivity.
Qed.

Lemma separated_lower (s : string) (b : bool) :
  separated b s = true -> Str.lower s = s.
Proof.
  revert b. induction s as [|c r IH]; intros b S; simpl in *; [reflexivity|].
  destruct (StoreRouting.is_lower_alnum c) eqn:A.
  - rewrite lower_char_fixed by (now rewrite A). f_equal. now apply (IH false).
  - apply andb_true_iff in S. destruct S as [S S2].
    apply andb_true_iff in S. destruct S as [E _].
    rewrite lower_char_fixed by (rewrite E; apply orb_true_r).
    f_equal. now apply (IH true).
Qed.

Lemma separated_replace_runs (s : string) (b : bool) :
  separated b s = true -> StoreRouting.replace_runs b s = s.
Proof.
  revert b. induction s as [|c r IH]; intros b S; simpl in *; [reflexivity|].
  destruct (StoreRouting.is_lower_alnum c) eqn:A.
  - f_equal. now apply IH.
  - apply andb_true_iff in S. destruct S as [S S2].
    apply andb_true_iff in S. destruct S as [E B].
    apply negb_true_iff in B. subst b. apply Ascii.eqb_eq in E. subst c.
    f_equal. now apply IH.
Qed.

Lemma ends_well_rstrip (s : string) :
  ends_well s = true -> (forall b, separated b s = true ->
                                   Str.rstrip_char "_" s = s).
Proof.
  induction s as [|c r IH]; intros E b S; [reflexivity|].
  cbn [Str.rstrip_char]. destruct r as [|d r'].
  - simpl in *. destruct (Ascii.eqb_spec c "_") as [->|N];
      [discriminate E | reflexivity].
  - assert (S2 : exists b', separated b' (String d r') = true).
    { cbn [separated] in S. destruct (StoreRouting.is_lower_alnum c).
      - now exists false.
      - apply andb_true_iff in S. destruct S as [_ S]. now exists true. }
    destruct S2 as [b' S2].
    rewrite (IH E b' S2). reflexivity.
Qed.

Lemma normal_identifier_fixed (s : string) :
  normal_identifier s = true -> StoreRouting._normalize_identifier s = s.
Proof.
  unfold normal_identifier. intros N. apply andb_true_iff in N.
  destruct N as [S E]. unfold StoreRouting._normalize_identifier, Str.strip_char.
  rewrite (separated_lower s true S).
  rewrite (separated_replace_runs s false (separated_weaken s S)).
  destruct (separated_true_head s S) as [-> _].
  now apply (ends_well_rstrip s E true).
Qed.

(** X22.  [_normalize_identifier] yields a normal form: its result holds
    only the letters [a-z], digits and underscores, each underscore stands
    alone between two other characters, so that none starts or ends the
    result.  Normalizing twice is normalizing once, and the case of the
    input does not matter. *)
Theorem normalize_identifier_gives_a_normal_form (value : string) :
  normal_identifier (StoreRouting._normalize_identifier value) = true
  /\ StoreRouting._normalize_identifier
       (StoreRouting._normalize_identifier value)
     = StoreRouting._normalize_identifier value
  /\ StoreRouting._normalize_identifier (Str.lower value)
     = StoreRouting._normalize_identifier value.
Proof.
  conjs.
  - apply normalize_identifier_normal.
  - apply normal_identifier_fixed, normalize_identifier_normal.
  - unfold StoreRouting._normalize_identifier. now rewrite lower_idem.
Qed.

Lemma digits_all_digits (s : string) : Str.all_digits (Str.digits s) = true.
Proof.
  induction s as [|c r IH]; simpl; [reflexivity|].
  destruct (Str.is_digit c) eqn:D; [simpl; now rewrite D | exact IH].
Qed.

Lemma normalize_phone_digits (value : option string) (p : string) :
  StoreRouting._normalize_phone value = Some p ->
  Str.is_empty p = false /\ Str.all_digits p = true
  /\ exists v, value = Some v /\ p = Str.digits v.
Proof.
  unfold StoreRouting._normalize_phone. destruct value as [v|]; [|discriminate].
  destruct (Str.is_empty v); [discriminate|].
  destruct (Str.is_empty (Str.digits v)) eqn:E; [discriminate|].
  intros [= <-]. conjs; auto; [apply digits_all_digits | eauto].
Qed.

Lemma contacts_from_spec (P : StoreRouting.StoreContact -> Prop)
      (chunks : list string) :
  (forall key name phone rest p,
      StoreRouting._normalize_phone (Some phone) = Some p ->
      P {| StoreRouting.key := StoreRouting._normalize_identifier key;
           StoreRouting.name := name;
           StoreRouting.phone := p;
           StoreRouting.role := hd_error rest;
           StoreRouting.display_phone := Some phone |}) ->
  forall contacts,
    Forall P contacts ->
    Forall P (StoreRouting.contacts_from chunks contacts)
    /\ (List.length (StoreRouting.contacts_from chunks contacts)
        <= List.length contacts + List.length chunks)%nat.
Proof.
  intros Step. induction chunks as [|chunk more IH]; intros contacts F;
    cbn [StoreRouting.contacts_from].
  - split; [exact F | simpl; lia].
  - destruct (Str.is_empty (strip chunk)).
    { destruct (IH contacts F) as [F' L']. split; [exact F' | simpl; lia]. }
    destruct (StoreRouting.parts_of (strip chunk))
      as [|key [|name [|phone rest]]];
      try (destruct (IH contacts F) as [F' L']; split;
           [exact F' | simpl; lia]).
    destruct (StoreRouting._normalize_phone (Some phone)) as [p|] eqn:N.
    + destruct (IH (contacts ++ [ {|
          StoreRouting.key := StoreRouting._normalize_identifier key;
          StoreRouting.name := name;
          StoreRouting.phone := p;
          StoreRouting.role := hd_error rest;
          StoreRouting.display_phone := Some phone |} ])) as [F' L'].
      * apply Forall_app. split; [exact F|]. constructor; [|constructor].
        now apply Step.
      * split; [exact F'|]. rewrite length_app in L'. simpl in *. lia.
    + destruct (IH contacts F) as [F' L']. split; [exact F' | simpl; lia].
Qed.

Lemma digits_kept_from (s : string) : kept_from (Str.digits s) s.
Proof.
  induction s as [|c r IH]; cbn [Str.digits]; [constructor|].
  destruct (Str.is_digit c); now constructor.
Qed.

(** X23.  Every contact parsed from the routing string keeps the number
    as it was written: the phone is not empty and is what is left of the
    written number once [_normalize_phone] has deleted characters from it;
    the written number is the display phone and is what [as_dict] shows;
    the key is in normal form.  Entries without three fields, or whose
    number [_normalize_phone] refuses, are skipped, so there are at most
    as many contacts as entries. *)
Theorem parsed_contacts_keep_the_written_number (raw : string) :
  Forall (fun c =>
            Str.is_empty (StoreRouting.phone c) = false
            /\ normal_identifier (StoreRouting.key c) = true
            /\ exists shown,
                StoreRouting.display_phone c = Some shown
                /\ kept_from (StoreRouting.phone c) shown
                /\ StoreRouting._normalize_phone (Some shown)
                   = Some (StoreRouting.phone c)
                /\ dict_get "display_phone" (StoreRouting.as_dict c)
                   = Some (Some shown))
         (StoreRouting._iter_raw_contacts raw)
  /\ (List.length (StoreRouting._iter_raw_contacts raw)
      <= List.length (Str.split ";" raw))%nat.
Proof.
  conjs.
  - unfold StoreRouting._iter_raw_contacts.
    destruct (Str.is_empty raw); [constructor|].
    apply contacts_from_spec; [|constructor].
    intros key name phone rest p N. pose proof N as N0.
    apply normalize_phone_digits in N.
    destruct N as [E [D [v [[= <-] ->]]]]. cbn. conjs; auto.
    + apply normalize_identifier_normal.
    + exists phone. conjs; auto.
      * apply digits_kept_from.
      * unfold StoreRouting.or_else.
        destruct phone; [discriminate E | reflexivity].
  - unfold StoreRouting._iter_raw_contacts.
    destruct (Str.is_empty raw); [simpl; lia|].
    apply (contacts_from_spec (fun _ => True)); auto.
Qed.

Lemma find_app_first {A} (p : A -> bool) (l l' : list A) :
  find p (l ++ l') = match find p l with
                     | Some x => Some x
                     | None => find p l'
                     end.
Proof.
  induction l as [|x r IH]; simpl; [reflexivity|].
  destruct (p x); [reflexivity | exact IH].
Qed.

Lemma set_all_get (names : list string) (contact : StoreRouting.StoreContact) :
  forall lookup alias,
    dict_get alias (StoreRouting.set_all names contact lookup)
    = if existsb (String.eqb alias) names then Some contact
      else dict_get alias lookup.
Proof.
  induction names as [|a more IH]; intros lookup alias; simpl; [reflexivity|].
  rewrite IH. destruct (existsb (String.eqb alias) more);
    [now rewrite orb_true_r|]. rewrite orb_false_r.
  destruct (String.eqb_spec alias a) as [->|N].
  - apply dict_get_set_eq.
  - apply dict_get_set_ne. congruence.
Qed.

Lemma build_lookup_get (contacts : list StoreRouting.StoreContact) :
  forall lookup alias,
    dict_get alias (StoreRouting.build_lookup contacts lookup)
    = match last_with_alias alias contacts with
      | Some contact => Some contact
      | None => dict_get alias lookup
      end.
Proof.
  unfold last_with_alias.
  induction contacts as [|c more IH]; intros lookup alias;
    cbn [StoreRouting.build_lookup rev]; [reflexivity|].
  rewrite IH, find_app_first.
  destruct (find _ (rev more)); [reflexivity|]. cbn [find].
  rewrite set_all_get.
  now destruct (existsb (String.eqb alias) (StoreRouting.aliases c)).
Qed.

Lemma ensure_cache_coherent (current_raw : string) (c : StoreRouting.cache) :
  coherent c ->
  coherent (StoreRouting._ensure_cache current_raw c)
  /\ StoreRouting._CACHE_CONTACTS (StoreRouting._ensure_cache current_raw c)
     = StoreRouting._iter_raw_contacts current_raw
  /\ StoreRouting._CACHE_LOOKUP (StoreRouting._ensure_cache current_raw c)
     = StoreRouting.build_lookup (StoreRouting._iter_raw_contacts current_raw) [].
Proof.
  unfold coherent, StoreRouting._ensure_cache. intros Co.
  destruct (StoreRouting._CACHE_RAW c) as [raw|] eqn:R.
  - destruct (String.eqb_spec current_raw raw) as [->|N].
    + rewrite R. tauto.
    + simpl. tauto.
  - simpl. tauto.
Qed.

(** X24.  [resolve_store_contact] answers from the current environment
    value whatever the cache held before: [None] for a missing identifier
    or one that normalizes to the empty string, and otherwise the last
    contact of the routing string that has the normalized identifier as
    its key, its normalized name or its normalized role.  A contact it
    returns is one of the parsed contacts. *)
Theorem resolve_store_contact_finds_the_last_match
        (current_raw : string) (c : StoreRouting.cache)
        (identifier : option string) :
  coherent c ->
  coherent (fst (StoreRouting.resolve_store_contact current_raw c identifier))
  /\ snd (StoreRouting.resolve_store_contact current_raw c identifier)
     = match identifier with
       | None => None
       | Some i =>
           if Str.is_empty (StoreRouting._normalize_identifier i) then None
           else last_with_alias (StoreRouting._normalize_identifier i)
                                (StoreRouting._iter_raw_contacts current_raw)
       end
  /\ forall contact,
      snd (StoreRouting.resolve_store_contact current_raw c identifier)
      = Some contact ->
      In contact (StoreRouting._iter_raw_contacts current_raw).
Proof.
  intros Co.
  destruct (ensure_cache_coherent current_raw c Co) as [Co' [_ L]].
  assert (Main :
    coherent (fst (StoreRouting.resolve_store_contact current_raw c identifier))
    /\ snd (StoreRouting.resolve_store_contact current_raw c identifier)
       = match identifier with
         | None => None
         | Some i =>
             if Str.is_empty (StoreRouting._normalize_identifier i) then None
             else last_with_alias (StoreRouting._normalize_identifier i)
                                  (StoreRouting._iter_raw_contacts current_raw)
         end).
  { unfold StoreRouting.resolve_store_contact.
    destruct identifier as [i|]; [|now split].
    destruct (Str.is_empty i) eqn:Ei.
    - destruct i; [|discriminate Ei]. now split.
    - destruct (Str.is_empty (StoreRouting._normalize_identifier i));
        [now split|].
      cbn [fst snd]. split; [exact Co'|]. rewrite L, build_lookup_get.
      now destruct (last_with_alias _ _). }
  destruct Main as [M1 M2]. conjs; auto.
  intros contact F. rewrite M2 in F. destruct identifier as [i|];
    [|discriminate].
  destruct (Str.is_empty _); [discriminate|].
  unfold last_with_alias in F. apply find_some in F. destruct F as [I _].
  now apply in_rev.
Qed.

Lemma resolve_store_contact_finds_the_last_match_witness :
  coherent (fst (StoreRouting.resolve_store_contact test_routing
                   StoreRouting.unloaded (Some "Tatiane"%string)))
  /\ snd (StoreRouting.resolve_store_contact test_routing
            StoreRouting.unloaded (Some "Tatiane"%string))
     = (if Str.is_empty (StoreRouting._normalize_identifier "Tatiane")
        then None
        else last_with_alias (StoreRouting._normalize_identifier "Tatiane")
                             (StoreRouting._iter_raw_contacts test_routing))
  /\ forall contact,
      snd (StoreRouting.resolve_store_contact test_routing
             StoreRouting.unloaded (Some "Tatiane"%string))
      = Some contact ->
      In contact (StoreRouting._iter_raw_contacts test_routing).
Proof.
  apply (resolve_store_contact_finds_the_last_match test_routing
           StoreRouting.unloaded (Some "Tatiane"%string)).
  exact I.
Defined.

(** The two unit tests of [tests/unit/services/test_store_routing.py]. *)
Example test_get_store_contacts_parses_entries :
  map StoreRouting.key
      (snd (StoreRouting.get_store_contacts test_routing StoreRouting.unloaded))
  = ["orcamento"; "assistencia_tecnica"]%string.
Proof. vm_compute. reflexivity. Qed.

Example test_resolve_store_contact_matches_by_name :
  option_map (fun c => (StoreRouting.phone c, StoreRouting.key c))
    (snd (StoreRouting.resolve_store_contact test_routing
            StoreRouting.unloaded (Some "Tatiane"%string)))
  = Some ("558182211659", "assistencia_tecnica")%string.
Proof. vm_compute. reflexivity. Qed.
